(** * cxrodgers/machine_learning: shallow embedding and verified properties

    The repository is glue code around numpy, OpenCV, tifffile and Keras.
    The embedding keeps the control flow of the three source files
    ([cells_kitchen/region_proposal/utils.py],
    [cells_kitchen/region_proposal/train.py],
    [whisker_segmentation/models.py]) and models the library calls they
    make by the part of their documented behaviour the properties depend
    on: static shape inference and constructor checks for Keras layers,
    index arithmetic and float64 rounding for numpy, path matching for
    glob, callback state machines for the Keras fit loop. Float
    operations go through a rounding function, which the theorems
    constrain by the IEEE 754 properties they use. *)

From Stdlib Require Import ZArith QArith Qround Qabs List String Bool Lia.
From Stdlib Require Import Ascii Lqa Sorted.
From stdpp Require Import gmap list pretty.
Import ListNotations.
Local Open Scope Z_scope.

(** ** Python exceptions as an error monad *)

Inductive exn : Type :=
| IOError
| IndexError
| ValueError
| TypeError
| ZeroDivisionError.

Inductive result (A : Type) : Type :=
| Ok (a : A)
| Raise (e : exn).
Arguments Ok {A} a.
Arguments Raise {A} e.

Definition bind {A B : Type} (m : result A) (k : A -> result B) : result B :=
  match m with
  | Ok a => k a
  | Raise e => Raise e
  end.

Notation "'let*' x ':=' m 'in' k" := (bind m (fun x => k))
  (at level 10, x pattern, m at level 100, k at level 200).

Definition is_ok {A : Type} (m : result A) : bool :=
  match m with Ok _ => true | Raise _ => false end.

(** ** whisker_segmentation/models.py *)

Module Keras.

(** A symbolic Keras tensor is known here by its static shape,
    [K.int_shape]: batch first, channels last, [None] for a dimension
    that is not fixed. *)
Definition dim : Type := option Z.
Definition tensor : Type := list dim.

Record model : Type := Model {
  inputs : list tensor;
  outputs : list tensor;
  name : string
}.

(** [Input(shape=img_size)]: the batch dimension is prepended. *)
Definition Input (img_size : list dim) : tensor := None :: img_size.

(** [conv_output_length] with [padding="same"]. *)
Definition conv_output_length (stride : Z) (d : dim) : dim :=
  match d with
  | None => None
  | Some n => Some ((n + stride - 1) / stride)
  end.

(** [deconv_length] with [padding="same"] and no output padding. *)
Definition deconv_length (stride : Z) (d : dim) : dim :=
  match d with
  | None => None
  | Some n => Some (n * stride)
  end.

(** [Conv2D(filters, kernel_size, padding="same")], stride 1. The layer
    refuses a filter count or a kernel size that is not positive; it is
    then called on a rank-4 input whose channel dimension is defined. *)
Definition Conv2D (filters kernel_size : Z) (x : tensor) : result tensor :=
  if (filters <=? 0) || (kernel_size <=? 0) then Raise ValueError
  else
    match x with
    | [b; h; w; Some _] =>
        Ok [b; conv_output_length 1 h; conv_output_length 1 w; Some filters]
    | _ => Raise ValueError
    end.

(** [MaxPooling2D(pool_size=2, strides=2, padding="same")]. *)
Definition MaxPooling2D (x : tensor) : result tensor :=
  match x with
  | [b; h; w; c] => Ok [b; conv_output_length 2 h; conv_output_length 2 w; c]
  | _ => Raise ValueError
  end.

(** [Conv2DTranspose(filters, kernel_size=3, strides=2, padding="same")],
    with the same check of the filter count. *)
Definition Conv2DTranspose (filters : Z) (x : tensor) : result tensor :=
  if filters <=? 0 then Raise ValueError
  else
    match x with
    | [b; h; w; Some _] =>
        Ok [b; deconv_length 2 h; deconv_length 2 w; Some filters]
    | _ => Raise ValueError
    end.

(** [UpSampling2D()], size (2, 2). *)
Definition UpSampling2D (x : tensor) : result tensor :=
  match x with
  | [b; h; w; c] => Ok [b; deconv_length 2 h; deconv_length 2 w; c]
  | _ => Raise ValueError
  end.

(** One position of [_Merge._compute_elemwise_op_output_shape]. *)
Definition elemwise_dim (i j : dim) : result dim :=
  match i, j with
  | None, _ | _, None => Ok None
  | Some a, Some b =>
      if a =? 1 then Ok (Some b)
      else if b =? 1 then Ok (Some a)
      else if negb (a =? b) then Raise ValueError
      else Ok (Some a)
  end.

Fixpoint elemwise_zip (s1 s2 : list dim) : result (list dim) :=
  match s1, s2 with
  | i :: s1', j :: s2' =>
      let* d := elemwise_dim i j in
      let* r := elemwise_zip s1' s2' in
      Ok (d :: r)
  | _, _ => Ok []
  end.

(** [_compute_elemwise_op_output_shape]: the shorter shape is aligned to
    the right of the longer one. *)
Definition elemwise_op_output_shape (shape1 shape2 : list dim)
  : result (list dim) :=
  let (l, s) := if (length shape1 <? length shape2)%nat
                then (shape2, shape1) else (shape1, shape2) in
  let k := (length l - length s)%nat in
  let* r := elemwise_zip (skipn k l) s in
  Ok (firstn k l ++ r).

(** The batch sizes of the inputs of a merge layer must agree. *)
Definition merge_batch (b1 b2 : dim) : result dim :=
  match b1, b2 with
  | None, b | b, None => Ok b
  | Some a, Some b => if a =? b then Ok (Some a) else Raise ValueError
  end.

(** [Add()([x1, x2])]. *)
Definition Add (x1 x2 : tensor) : result tensor :=
  match x1, x2 with
  | b1 :: s1, b2 :: s2 =>
      let* b := merge_batch b1 b2 in
      let* s := elemwise_op_output_shape s1 s2 in
      Ok (b :: s)
  | _, _ => Raise ValueError
  end.

(** [K.int_shape(x)[3]]. *)
Definition int_shape_3 (x : tensor) : result dim :=
  match nth_error x 3 with
  | Some c => Ok c
  | None => Raise IndexError
  end.

(** Python's [a // b] on integers: the floor of the quotient. *)
Definition floordiv (a b : Z) : result Z :=
  if b =? 0 then Raise ZeroDivisionError else Ok (a / b).

Definition dim_eqb (a b : dim) : bool :=
  match a, b with
  | None, None => true
  | Some x, Some y => x =? y
  | _, _ => false
  end.

End Keras.

Module Models.
Import Keras.

Definition leap (img_size : list dim) (output_channels filters kernel_size : Z)
  : result model :=
  let x_in := Input img_size in
  let* x1 := Conv2D filters kernel_size x_in in
  let* x1 := Conv2D filters kernel_size x1 in
  let* x1 := Conv2D filters kernel_size x1 in
  let* x1_pool := MaxPooling2D x1 in
  let* x2 := Conv2D (filters * 2) kernel_size x1_pool in
  let* x2 := Conv2D (filters * 2) kernel_size x2 in
  let* x2 := Conv2D (filters * 2) kernel_size x2 in
  let* x2_pool := MaxPooling2D x2 in
  let* x3 := Conv2D (filters * 4) kernel_size x2_pool in
  let* x3 := Conv2D (filters * 4) kernel_size x3 in
  let* x3 := Conv2D (filters * 4) kernel_size x3 in
  let* x4 := Conv2DTranspose (filters * 2) x3 in
  let* x4 := Conv2D (filters * 2) 3 x4 in
  let* x4 := Conv2D (filters * 2) 3 x4 in
  let* x_out := Conv2DTranspose output_channels x4 in
  Ok (Model [x_in] [x_out] "leap").

Definition residual_bottleneck_module (x_in : tensor)
    (output_filters bottleneck_factor : Z) : result tensor :=
  let* input_filters := int_shape_3 x_in in
  let* bottleneck_filters := floordiv output_filters bottleneck_factor in
  let* x := Conv2D bottleneck_filters 1 x_in in
  let* x := Conv2D bottleneck_filters 3 x in
  let* x := Conv2D output_filters 1 x in
  let* x_in :=
    if negb (dim_eqb (Some output_filters) input_filters)
    then Conv2D output_filters 1 x_in
    else Ok x_in in
  Add x_in x.

(** The decoder step shared by the two branches of
    [if upsampling_layers: ... else: ...]. *)
Definition upsample (upsampling_layers : bool) (filters : Z) (x : tensor)
  : result tensor :=
  if upsampling_layers then UpSampling2D x else Conv2DTranspose filters x.

Definition hourglass (img_size : list dim) (output_channels filters : Z)
    (upsampling_layers : bool) : result model :=
  let img_size :=
    if (length img_size =? 2)%nat then img_size ++ [Some 1] else img_size in
  let x_in := Input img_size in
  let* x1_pre := residual_bottleneck_module x_in filters 2 in
  let* x1 := MaxPooling2D x1_pre in
  let* x2_pre := residual_bottleneck_module x1 filters 2 in
  let* x2 := MaxPooling2D x2_pre in
  let* x3_pre := residual_bottleneck_module x2 filters 2 in
  let* x3 := MaxPooling2D x3_pre in
  let* x4_pre := residual_bottleneck_module x3 filters 2 in
  let* x4 := MaxPooling2D x4_pre in
  let* x5 := residual_bottleneck_module x4 filters 2 in
  let* x6_pre := upsample upsampling_layers filters x5 in
  let* x6_add := Add x4_pre x6_pre in
  let* x6 := residual_bottleneck_module x6_add filters 2 in
  let* x7_pre := upsample upsampling_layers filters x6 in
  let* x7_add := Add x3_pre x7_pre in
  let* x7 := residual_bottleneck_module x7_add filters 2 in
  let* x8_pre := upsample upsampling_layers filters x7 in
  let* x8_add := Add x2_pre x8_pre in
  let* x8 := residual_bottleneck_module x8_add filters 2 in
  let* x9_pre := upsample upsampling_layers filters x8 in
  let* x9_add := Add x1_pre x9_pre in
  let* x9 := residual_bottleneck_module x9_add filters 2 in
  let* x_out := Conv2D output_channels 3 x9 in
  Ok (Model [x_in] [x_out] "hourglass").

Definition stacked_hourglass (img_size : list dim)
    (output_channels filters : Z) (upsampling_layers : bool) : result model :=
  let img_size :=
    if (length img_size =? 2)%nat then img_size ++ [Some 1] else img_size in
  let x_in := Input img_size in
  let* x1_1_pre := residual_bottleneck_module x_in filters 2 in
  let* x1_1 := MaxPooling2D x1_1_pre in
  let* x1_2_pre := residual_bottleneck_module x1_1 filters 2 in
  let* x1_2 := MaxPooling2D x1_2_pre in
  let* x1_3_pre := residual_bottleneck_module x1_2 filters 2 in
  let* x1_3 := MaxPooling2D x1_3_pre in
  let* x1_4_pre := residual_bottleneck_module x1_3 filters 2 in
  let* x1_4 := MaxPooling2D x1_4_pre in
  let* x1_5 := residual_bottleneck_module x1_4 filters 2 in
  let* x1_6_pre := upsample upsampling_layers filters x1_5 in
  let* x1_6_add := Add x1_4_pre x1_6_pre in
  let* x1_6 := residual_bottleneck_module x1_6_add filters 2 in
  let* x1_7_pre := upsample upsampling_layers filters x1_6 in
  let* x1_7_add := Add x1_3_pre x1_7_pre in
  let* x1_7 := residual_bottleneck_module x1_7_add filters 2 in
  let* x1_8_pre := upsample upsampling_layers filters x1_7 in
  let* x1_8_add := Add x1_2_pre x1_8_pre in
  let* x1_8 := residual_bottleneck_module x1_8_add filters 2 in
  let* x1_9_pre := upsample upsampling_layers filters x1_8 in
  let* x1_9_add := Add x1_1_pre x1_9_pre in
  let* x1_9 := residual_bottleneck_module x1_9_add filters 2 in
  (* second hourglass *)
  let* x2_1_pre := residual_bottleneck_module x1_9 filters 2 in
  let* x2_1 := MaxPooling2D x2_1_pre in
  let* x2_2_pre := residual_bottleneck_module x2_1 filters 2 in
  let* x2_2 := MaxPooling2D x2_2_pre in
  let* x2_3_pre := residual_bottleneck_module x2_2 filters 2 in
  let* x2_3 := MaxPooling2D x2_3_pre in
  let* x2_4_pre := residual_bottleneck_module x2_3 filters 2 in
  let* x2_4 := MaxPooling2D x2_4_pre in
  let* x2_5 := residual_bottleneck_module x2_4 filters 2 in
  let* x2_6_pre := upsample upsampling_layers filters x2_5 in
  let* x2_6_add := Add x2_4_pre x2_6_pre in
  let* x2_6 := residual_bottleneck_module x2_6_add filters 2 in
  let* x2_7_pre := upsample upsampling_layers filters x2_6 in
  let* x2_7_add := Add x2_3_pre x2_7_pre in
  let* x2_7 := residual_bottleneck_module x2_7_add filters 2 in
  let* x2_8_pre := upsample upsampling_layers filters x2_7 in
  let* x2_8_add := Add x2_2_pre x2_8_pre in
  let* x2_8 := residual_bottleneck_module x2_8_add filters 2 in
  let* x2_9_pre := upsample upsampling_layers filters x2_8 in
  let* x2_9_add := Add x2_1_pre x2_9_pre in
  let* x2_9 := residual_bottleneck_module x2_9_add filters 2 in
  (* outputs *)
  let* x_out1 := residual_bottleneck_module x1_9 output_channels 1 in
  let* x_out2 := residual_bottleneck_module x2_9 output_channels 1 in
  Ok (Model [x_in] [x_out1; x_out2] "stacked_hourglass").

(** The channel dimension of a tensor is [n]. *)
Definition has_channels (n : Z) (t : tensor) : Prop :=
  nth_error t 3 = Some (Some n).

(** The (height, width) pair of a rank-4 tensor. *)
Definition spatial (t : tensor) : option (dim * dim) :=
  match t with
  | [_; h; w; _] => Some (h, w)
  | _ => None
  end.

End Models.

(** ** numpy: the calls made by utils.py *)

Module Numpy.
Local Open Scope Q_scope.

(** [y[-1] = v] on a Python list or 1-D array (nothing to set when it
    is empty). *)
Definition set_last {A : Type} (y : list A) (v : A) : list A :=
  <[Nat.pred (length y) := v]> y.

(** A float64 operation returns its exact result rounded to a
    representable value: [rnd] is that rounding, applied below wherever
    numpy computes on floats. [unrounded] is arithmetic on the exact
    values. *)
Definition unrounded (q : Q) : Q := q.

(** Rounding to the nearest integer, a tie going to the even one. *)
Definition round_half_even (q : Q) : Z :=
  let f := Qfloor q in
  match Qcompare (q - inject_Z f) (1 # 2) with
  | Lt => f
  | Gt => f + 1
  | Eq => if Z.even f then f else (f + 1)%Z
  end.

Definition pow2 (e : Z) : Q :=
  if (0 <=? e)%Z then inject_Z (2 ^ e) else / inject_Z (2 ^ (- e)).

(** Rounding to the nearest number with a significand of 53 bits, a
    tie going to the even significand: float64 rounding away from its
    overflow and underflow thresholds. *)
Definition round64 (q : Q) : Q :=
  if Qeq_bool q 0 then 0
  else
    let a := Qabs q in
    let e0 := (Z.log2 (Qnum a) - Z.log2 (Zpos (Qden a)))%Z in
    let e := if Qle_bool (pow2 e0) a then e0 else (e0 - 1)%Z in
    let ulp := pow2 (e - 52) in
    let v := inject_Z (round_half_even (a / ulp)) * ulp in
    if Qle_bool 0 q then v else - v.

Section Rounded.
Variable rnd : Q -> Q.

(** [np.linspace(start, stop, num)] with the default [endpoint=True],
    following numpy's own steps: the end points and [arange(0, num)]
    are converted to floats, then [delta = stop - start],
    [step = delta / div], [y = y * step] (or [y /= div; y = y * delta]
    when the step is zero), [y += start] and [y[-1] = stop]. *)
Definition linspace (start stop : Q) (num : Z) : result (list Q) :=
  if (num <? 0)%Z then Raise ValueError
  else
    let div := (num - 1)%Z in
    let start := rnd start in
    let stop := rnd stop in
    let y :=
      map (fun i : nat => rnd (inject_Z (Z.of_nat i))) (seq 0 (Z.to_nat num)) in
    let delta := rnd (stop - start) in
    let y :=
      if (1 <? num)%Z then
        let step := rnd (delta / rnd (inject_Z div)) in
        if Qeq_bool step 0
        then map (fun v => rnd (rnd (v / rnd (inject_Z div)) * delta)) y
        else map (fun v => rnd (v * step)) y
      else map (fun v => rnd (v * delta)) y in
    let y := map (fun v => rnd (v + start)) y in
    let y := if (1 <? num)%Z then set_last y stop else y in
    Ok y.

End Rounded.

(** [np.floor(y).astype(np.int)]. *)
Definition floor_int (y : list Q) : list Z := map Qfloor y.

(** [a[i]] for one integer index into a sequence of length [len a]:
    negative indices count from the end. *)
Definition index1 {A : Type} (a : list A) (i : Z) : result A :=
  let n := Z.of_nat (length a) in
  if ((i <? - n) || (n <=? i))%Z then Raise IndexError
  else
    match a !! Z.to_nat (if (i <? 0)%Z then i + n else i)%Z with
    | Some x => Ok x
    | None => Raise IndexError
    end.

(** [list(np.asarray(a)[idx])] for a list of integer indices. *)
Fixpoint take {A : Type} (a : list A) (idx : list Z) : result (list A) :=
  match idx with
  | [] => Ok []
  | i :: idx' =>
      let* x := index1 a i in
      let* xs := take a idx' in
      Ok (x :: xs)
  end.

End Numpy.

(** ** cells_kitchen/region_proposal/utils.py: get_frames *)

Module Frames.
Import Numpy.

(** The file system as [glob] sees it, with POSIX paths. [scandir d]
    lists the entries of the directory at path [d] in the order the
    operating system gives them (the current directory for the empty
    path), and nothing when [d] is no readable directory.
    [iglob_dirs pat] lists the directories matched by a path [pat] that
    contains pattern characters: the recursive step of [glob] on the
    directory part of its pattern. *)
Record filesystem : Type := FileSystem {
  scandir : string -> list string;
  iglob_dirs : string -> list string
}.

Definition ends_with (suffix s : string) : bool :=
  let n := String.length suffix in
  let m := String.length s in
  (n <=? m)%nat && String.eqb (String.substring (m - n) n s) suffix.

(** [fnmatch] against ["*.tif"]; [glob] leaves out hidden entries. *)
Definition matches_tif (entry : string) : bool :=
  ends_with ".tif" entry && negb (String.prefix "." entry).

(** [glob.has_magic]: the path contains one of the characters
    [*], [?] and [[]. *)
Fixpoint has_magic (s : string) : bool :=
  match s with
  | EmptyString => false
  | String c s' =>
      Ascii.eqb c "*"%char || Ascii.eqb c "?"%char || Ascii.eqb c "["%char
      || has_magic s'
  end.

(** [s.rstrip('/')]. *)
Fixpoint rstrip_slash (s : string) : string :=
  match s with
  | EmptyString => EmptyString
  | String c s' =>
      match rstrip_slash s' with
      | EmptyString =>
          if Ascii.eqb c "/"%char then EmptyString else String c EmptyString
      | r => String c r
      end
  end.

(** The directory part [os.path.split] finds in
    [os.path.join(folder, '*.tif')]: the folder path without its
    trailing slashes, unless it consists of slashes only. *)
Definition dirname (folder : string) : string :=
  match rstrip_slash folder with
  | EmptyString => folder
  | r => r
  end.

(** [os.path.join(d, name)] for an entry name. *)
Definition path_join (d name : string) : string :=
  if String.eqb d "" || ends_with "/" d then d ++ name
  else d ++ "/" ++ name.

(** The directories [glob] lists for [os.path.join(folder, '*.tif')]:
    the folder itself, or whatever its path matches when it contains
    pattern characters. *)
Definition glob_dirs (fs : filesystem) (folder : string) : list string :=
  let d := dirname folder in
  if has_magic d then iglob_dirs fs d else [d].

(** [glob.glob(os.path.join(folder, '*.tif'))]. *)
Definition glob_tif (fs : filesystem) (folder : string) : list string :=
  flat_map (fun d => map (path_join d) (filter matches_tif (scandir fs d)))
           (glob_dirs fs folder).

(** The [frame_numbers] argument: [None], a list of integers, or an
    integer. *)
Inductive frame_numbers : Type :=
| FNone
| FList (l : list Z)
| FInt (n : Z).

Section GetFrames.
(** [tifffile.imread] on a list of paths, returning the stack. *)
Context {stack : Type}.
Variable rnd : Q -> Q.
Variable imread : list string -> result stack.

(** The indices chosen for an integer [frame_numbers]:
    [np.floor(np.linspace(0, len(files) - 1, frame_numbers)).astype(np.int)]. *)
Definition frame_indices (n_files : nat) (n : Z) : result (list Z) :=
  let* y := linspace rnd 0 (inject_Z (Z.of_nat n_files - 1)) n in
  Ok (floor_int y).

(** "Determine which to keep". *)
Definition load_files (files : list string) (fn : frame_numbers)
  : result (list string) :=
  match fn with
  | FNone => Ok files
  | FList l => take files l
  | FInt n =>
      let* indices := frame_indices (length files) n in
      take files indices
  end.

Definition get_frames (fs : filesystem) (folder : string)
    (fn : frame_numbers) : result stack :=
  let files := glob_tif fs folder in
  if (length files =? 0)%nat then Raise IOError
  else
    let* load_files := load_files files fn in
    imread load_files.
End GetFrames.

(** A stand-in for [tifffile.imread] on readable frames of one size: the
    stack lists the paths read; an empty list of paths is refused with
    "no files found". *)
Definition imread_paths (files : list string) : result (list string) :=
  match files with
  | [] => Raise ValueError
  | _ => Ok files
  end.

(** A file system with one directory, at a path matched by no
    pattern. *)
Definition one_folder (path : string) (entries : list string) : filesystem :=
  {| scandir := fun d => if String.eqb d path then entries else [];
     iglob_dirs := fun _ => [] |}.

End Frames.


(** ** Python objects: a store of arrays addressed by reference *)

Module Store.

(** References are numbered; the store maps the live ones to the
    contents of the array they denote. *)
Abbreviation loc := nat (only parsing).
Abbreviation heap arr := (gmap nat arr) (only parsing).

Section WithArrays.
Context {arr : Type}.

(** A computation reads and updates the store and may raise; the
    store it leaves behind is kept in both cases. *)
Definition M (A : Type) : Type := heap arr -> result A * heap arr.

Definition ret {A : Type} (a : A) : M A := fun h => (Ok a, h).

Definition raise {A : Type} (e : exn) : M A := fun h => (Raise e, h).

Definition bindM {A B : Type} (m : M A) (k : A -> M B) : M B :=
  fun h =>
    match m h with
    | (Ok a, h') => k a h'
    | (Raise e, h') => (Raise e, h')
    end.

Definition lift {A : Type} (r : result A) : M A := fun h => (r, h).

(** A new object. *)
Definition alloc (v : arr) : M loc :=
  fun h => let l := fresh (dom h) in (Ok l, <[l := v]> h).

Definition load (l : loc) : M arr :=
  fun h =>
    match h !! l with
    | Some v => (Ok v, h)
    | None => (Raise ValueError, h)
    end.

(** Overwriting the contents of an existing object. *)
Definition store (l : loc) (v : arr) : M unit :=
  fun h => (Ok tt, <[l := v]> h).

End WithArrays.

Arguments M arr A : clear implicits.

End Store.

Notation "'do*' x ':=' m 'in' k" := (Store.bindM m (fun x => k))
  (at level 10, x pattern, m at level 100, k at level 200).

(** ** cells_kitchen/region_proposal/utils.py: get_correlation_image *)

Module Correlation.
Import Store.

Section WithNumpy.
(** The contents of an [ndarray], and the numpy and scipy functions
    the source calls on them. Each may raise (a wrong rank, a cast
    that an in-place operation refuses). *)
Context {arr : Type}.
Variable np_ones_3_3 : arr.
Variable set_1_1_zero : arr -> result arr.
Variable np_ones_frame : arr -> result arr.
Variable scipy_convolve : arr -> arr -> result arr.
Variable np_mean_0 : arr -> result arr.
Variable np_std_0 : arr -> result arr.
Variable set_zeros_to_inf : arr -> result arr.
Variable newaxis : arr -> result arr.
Variable subtract : arr -> arr -> result arr.
Variable divide : arr -> arr -> result arr.
Variable multiply : arr -> arr -> result arr.

(** [y = f(x)]: a new object holding the result. *)
Definition unop (f : arr -> result arr) (x : loc) : M arr loc :=
  do* vx := load x in
  do* r := lift (f vx) in
  alloc r.

(** [z = f(x, y)]: a new object holding the result. *)
Definition binop (f : arr -> arr -> result arr) (x y : loc) : M arr loc :=
  do* vx := load x in
  do* vy := load y in
  do* r := lift (f vx vy) in
  alloc r.

(** [x[...] = ...]: the object [x] itself is updated. *)
Definition inplace1 (f : arr -> result arr) (x : loc) : M arr unit :=
  do* vx := load x in
  do* r := lift (f vx) in
  store x r.

(** [x -= y], [x /= y]: the object [x] itself is updated. *)
Definition inplace2 (f : arr -> arr -> result arr) (x y : loc)
  : M arr unit :=
  do* vx := load x in
  do* vy := load y in
  do* r := lift (f vx vy) in
  store x r.

(** [x.copy()]. *)
Definition copy (x : loc) : M arr loc :=
  do* vx := load x in
  alloc vx.

Definition get_correlation_image (imgs : loc) : M arr loc :=
  do* imgs := copy imgs in
  do* kernel := alloc np_ones_3_3 in
  do* _ := inplace1 set_1_1_zero kernel in
  do* ones := unop np_ones_frame imgs in
  do* mask := binop scipy_convolve ones kernel in
  do* mean := unop np_mean_0 imgs in
  do* _ := inplace2 subtract imgs mean in
  do* imgs_std := unop np_std_0 imgs in
  do* _ := inplace1 set_zeros_to_inf imgs_std in
  do* _ := inplace2 divide imgs imgs_std in
  do* kernel3 := unop newaxis kernel in
  do* conv := binop scipy_convolve imgs kernel3 in
  do* img_corr := binop divide conv mask in
  do* img_corr := binop multiply imgs img_corr in
  do* img_corr := unop np_mean_0 img_corr in
  ret img_corr.

End WithNumpy.

End Correlation.


(** One-pixel arrays, to run [get_correlation_image]: a dtype (float or
    integer) and a value. An in-place operation on an integer array
    refuses a float operand, as numpy's same-kind casting rule does. *)

Module OnePixel.

Record pixel : Type := Pixel { is_float : bool; value : Z }.

Definition as_float (a : pixel) : result pixel := Ok (Pixel true (value a)).

Definition zero (a : pixel) : result pixel := Ok (Pixel true 0).

Definition one (a : pixel) : result pixel := Ok (Pixel true 1).

Definition same (a : pixel) : result pixel := Ok a.

Definition no_neighbours (a k : pixel) : result pixel := Ok (Pixel true 0).

Definition inplace (f : Z -> Z -> Z) (a b : pixel) : result pixel :=
  if negb (is_float a) && is_float b then Raise TypeError
  else Ok (Pixel (is_float a) (f (value a) (value b))).

Definition times (a b : pixel) : result pixel :=
  Ok (Pixel (is_float a || is_float b) (value a * value b)).

Definition get_correlation_image :=
  Correlation.get_correlation_image (Pixel true 1) same one no_neighbours
    as_float zero one same (inplace Z.sub) (inplace Z.quot) times.

End OnePixel.

(** ** numpy arrays: a shape and the element at each multi-index *)

Module Ndarray.

Record ndarray (A : Type) : Type := Array {
  shape : list Z;
  item : list Z -> A
}.
Arguments Array {A} shape item.
Arguments shape {A} _.
Arguments item {A} _ _.

(** [np.zeros(shape)]: a negative dimension is refused. *)
Definition zeros {A : Type} (zero : A) (sh : list Z) : result (ndarray A) :=
  if forallb (fun d => 0 <=? d) sh then Ok (Array sh (fun _ => zero))
  else Raise ValueError.

(** [a.astype(...)], element by element. *)
Definition astype {A B : Type} (f : A -> B) (a : ndarray A) : ndarray B :=
  Array (shape a) (fun idx => f (item a idx)).

(** An integer index along an axis of length [n]; negative indices
    count from the end. *)
Definition norm_index (n i : Z) : result Z :=
  if (i <? - n) || (n <=? i) then Raise IndexError
  else Ok (if i <? 0 then i + n else i).

(** [a[i]] for an index [i] already within the first axis. *)
Definition sub {A : Type} (a : ndarray A) (i : Z) : ndarray A :=
  Array (tail (shape a)) (fun idx => item a (i :: idx)).

(** [a[i] = v]: the shapes must agree. *)
Definition assign_sub {A : Type} (a : ndarray A) (i : Z) (v : ndarray A)
  : result (ndarray A) :=
  if decide (tail (shape a) = shape v) then
    Ok (Array (shape a)
          (fun idx =>
             match idx with
             | j :: rest => if j =? i then item v rest else item a idx
             | [] => item a idx
             end))
  else Raise ValueError.

(** [a[idx] = v] for one full multi-index. *)
Definition set_item {A : Type} (a : ndarray A) (idx : list Z) (v : A)
  : ndarray A :=
  Array (shape a) (fun idx' => if decide (idx' = idx) then v else item a idx').

(** [np.max(a, 0)] on booleans: an empty first axis has no maximum. *)
Definition max_axis0 (a : ndarray bool) : result (ndarray bool) :=
  match shape a with
  | n :: rest =>
      if n =? 0 then Raise ValueError
      else Ok (Array rest
                 (fun idx =>
                    existsb (fun i => item a (Z.of_nat i :: idx))
                            (seq 0 (Z.to_nat n))))
  | [] => Raise ValueError
  end.

Definition bool_to_uint8 (b : bool) : Z := if b then 1 else 0.
Definition to_bool (z : Z) : bool := negb (z =? 0).

End Ndarray.

(** ** cells_kitchen/region_proposal/utils.py: get_targets *)

Module Targets.
Import Ndarray.

(** What [get_targets] reads from a label folder: the [dimensions] entry
    of [info.json] and, for each region of
    [regions/consensus_regions.json], its [coordinates], a list of
    (row, column) pairs. *)
Record label_folder : Type := LabelFolder {
  info_dimensions : list Z;
  regions : list (list (Z * Z))
}.

Record masks : Type := Masks {
  somas : ndarray bool;
  borders : ndarray bool;
  centroids : ndarray bool
}.

(** A Python slice [l[lo:hi]] with non-negative bounds. *)
Definition slice {A : Type} (lo hi : nat) (l : list A) : list A :=
  firstn (hi - lo) (skipn lo l).

(** [l[i]] on a Python list, for a non-negative literal index. *)
Definition getitem {A : Type} (l : list A) (i : nat) : result A :=
  match l !! i with
  | Some x => Ok x
  | None => Raise IndexError
  end.

(** [masks_soma[i, cell[:, 0], cell[:, 1]] = True]. An empty coordinate
    list is a 1-D array, which [cell[:, 0]] refuses. *)
Fixpoint set_pixels (a : ndarray bool) (i : Z) (d0 d1 : Z)
    (cell : list (Z * Z)) : result (ndarray bool) :=
  match cell with
  | [] => Ok a
  | (r, c) :: cell' =>
      let* r' := norm_index d0 r in
      let* c' := norm_index d1 c in
      set_pixels (set_item a [i; r'; c'] true) i d0 d1 cell'
  end.

Definition set_cell (a : ndarray bool) (i : Z) (d0 d1 : Z)
    (cell : list (Z * Z)) : result (ndarray bool) :=
  match cell with
  | [] => Raise IndexError
  | _ => set_pixels a i d0 d1 cell
  end.

Definition sum_Z (l : list Z) : Z := fold_right Z.add 0 l.

(** [np.mean(cell, 0).astype('int')]: the mean of each column,
    truncated toward zero. *)
Definition mean_int (cell : list (Z * Z)) : Z * Z :=
  let n := Z.of_nat (length cell) in
  (Z.quot (sum_Z (map fst cell)) n, Z.quot (sum_Z (map snd cell)) n).

Section WithOpenCV.
(** The OpenCV calls: contour extraction, contour drawing and the
    filled circle, on images with integer pixel values. *)
Context {contour : Type}.
Variable findContours : ndarray Z -> list contour.
Variable drawContours :
  ndarray Z -> list contour -> Z -> Z -> Z -> result (ndarray Z).
Variable circle :
  ndarray Z -> Z * Z -> Z -> Z -> Z -> result (ndarray Z).

(** The body of [for i, cell in enumerate(cell_masks)]. *)
Definition process_cell (dimensions : list Z) (d0 d1 : Z)
    (centroid_radius border_thickness : Z)
    (i : Z) (cell : list (Z * Z)) (m : masks) : result masks :=
  let* masks_soma := set_cell (somas m) i d0 d1 cell in
  let contour := findContours (astype bool_to_uint8 (sub masks_soma i)) in
  let* blank := zeros 0 dimensions in
  let* border := drawContours blank contour 0 1 border_thickness in
  let* masks_border := assign_sub (borders m) i (astype to_bool border) in
  let center := mean_int cell in
  let* disk :=
    circle (astype bool_to_uint8 (sub (centroids m) i))
           (snd center, fst center) centroid_radius 1 (-1) in
  let* masks_centroids :=
    assign_sub (centroids m) i (astype to_bool disk) in
  Ok (Masks masks_soma masks_border masks_centroids).

Fixpoint process_cells (dimensions : list Z) (d0 d1 : Z)
    (centroid_radius border_thickness : Z)
    (i : Z) (cell_masks : list (list (Z * Z))) (m : masks) : result masks :=
  match cell_masks with
  | [] => Ok m
  | cell :: rest =>
      let* m' := process_cell dimensions d0 d1 centroid_radius
                   border_thickness i cell m in
      process_cells dimensions d0 d1 centroid_radius border_thickness
        (i + 1) rest m'
  end.

Definition get_targets (folder : label_folder) (collapse_masks : bool)
    (centroid_radius border_thickness : Z) : result masks :=
  let dimensions := slice 1 3 (info_dimensions folder) in
  let cell_masks := regions folder in
  let* d0 := getitem dimensions 0 in
  let* d1 := getitem dimensions 1 in
  let* z := zeros false [Z.of_nat (length cell_masks); d0; d1] in
  let* m := process_cells dimensions d0 d1 centroid_radius
              border_thickness 0 cell_masks (Masks z z z) in
  if collapse_masks then
    let* s := max_axis0 (somas m) in
    let* b := max_axis0 (borders m) in
    let* c := max_axis0 (centroids m) in
    Ok (Masks s b c)
  else Ok m.

End WithOpenCV.

End Targets.


(** A small stand-in for the three OpenCV calls, used to run
    [get_targets] on concrete folders: the only contour of a mask is the
    mask itself, drawing a contour paints its foreground, and the filled
    circle is the Euclidean disk. *)

Module OpenCVStandIn.
Import Ndarray.

Definition findContours (img : ndarray Z) : list (ndarray Z) := [img].

Definition drawContours (img : ndarray Z) (contours : list (ndarray Z))
    (contourIdx color thickness : Z) : result (ndarray Z) :=
  if (contourIdx <? 0) || (32767 <? thickness) then Raise ValueError
  else
    match contours !! Z.to_nat contourIdx with
    | Some c =>
        Ok (Array (shape img)
              (fun p => if item c p =? 0 then item img p else color))
    | None => Raise ValueError
    end.

Definition circle (img : ndarray Z) (center : Z * Z)
    (radius color thickness : Z) : result (ndarray Z) :=
  if radius <? 0 then Raise ValueError
  else
    Ok (Array (shape img)
          (fun p =>
             match p with
             | [y; x] =>
                 if (x - fst center) * (x - fst center)
                    + (y - snd center) * (y - snd center)
                    <=? radius * radius
                 then color else item img p
             | _ => item img p
             end)).

End OpenCVStandIn.


(** ** cells_kitchen/region_proposal/utils.py: enhance_contrast *)

Module Contrast.
Local Open Scope Q_scope.

(** A float64 value: a finite number, an infinity or NaN.  The two
    signed zeros are not told apart. *)
Inductive npfloat : Type :=
| Finite (q : Q)
| PosInf
| NegInf
| NaN.

(** The comparison [a <= b] of two floats; NaN compares with nothing. *)
Definition fleb (a b : npfloat) : bool :=
  match a, b with
  | NaN, _ | _, NaN => false
  | NegInf, _ => true
  | _, PosInf => true
  | Finite x, Finite y => Qle_bool x y
  | _, _ => false
  end.

(** [np.maximum] and [np.minimum]: NaN propagates. *)
Definition maximum (a b : npfloat) : npfloat :=
  match a, b with
  | NaN, _ | _, NaN => NaN
  | _, _ => if fleb a b then b else a
  end.

Definition minimum (a b : npfloat) : npfloat :=
  match a, b with
  | NaN, _ | _, NaN => NaN
  | _, _ => if fleb a b then a else b
  end.

(** [np.clip(x, a_min, a_max)] is [minimum(maximum(x, a_min), a_max)]. *)
Definition clip (x a_min a_max : npfloat) : npfloat :=
  minimum (maximum x a_min) a_max.

Section Float.

(** The float64 result of an operation whose exact result is the given
    rational: the rounded value, or an infinity on overflow. *)
Variable fl : Q -> npfloat.

Definition subtract (a b : npfloat) : npfloat :=
  match a, b with
  | NaN, _ | _, NaN => NaN
  | Finite x, Finite y => fl (x - y)
  | PosInf, PosInf | NegInf, NegInf => NaN
  | PosInf, _ | _, NegInf => PosInf
  | NegInf, _ | _, PosInf => NegInf
  end.

(** Float division: [0/0] and [inf/inf] are NaN, [x/0] an infinity,
    [x/inf] zero. *)
Definition true_divide (a b : npfloat) : npfloat :=
  match a, b with
  | NaN, _ | _, NaN => NaN
  | Finite x, Finite y =>
      if Qeq_bool y 0 then
        if Qeq_bool x 0 then NaN
        else if Qle_bool 0 x then PosInf else NegInf
      else fl (x / y)
  | Finite _, _ => Finite 0
  | PosInf, Finite y => if Qle_bool 0 y then PosInf else NegInf
  | NegInf, Finite y => if Qle_bool 0 y then NegInf else PosInf
  | _, _ => NaN
  end.

(** [np.ptp(limits)] for the two limits: the larger minus the smaller. *)
Definition ptp2 (l0 l1 : npfloat) : npfloat :=
  subtract (maximum l0 l1) (minimum l0 l1).

(** [np.percentile(a, percentiles)] on the flattened image, for a pair
    of percentiles: the two limits, or the exception numpy raises. *)
Variable np_percentile : list Q -> Q * Q -> result (npfloat * npfloat).

(** The value of one pixel [x] of [img] in
    [np.clip(img-limits[0], 0, limits[1]-limits[0]) / np.ptp(limits)]. *)
Definition rescale (limits0 limits1 : npfloat) (x : Q) : npfloat :=
  true_divide
    (clip (subtract (Finite x) limits0) (Finite 0) (subtract limits1 limits0))
    (ptp2 limits0 limits1).

(** The image is a float64 array of finite values.
[[
    limits = np.percentile(img.flatten(), percentiles)
    img = np.clip(img-limits[0], 0, limits[1]-limits[0]) / np.ptp(limits)
]] *)
Definition enhance_contrast (img : list (list Q)) (percentiles : Q * Q)
  : result (list (list npfloat)) :=
  let* limits := np_percentile (concat img) percentiles in
  Ok (map (map (rescale (fst limits) (snd limits))) img).

End Float.

(** *** Stand-ins: arithmetic without rounding, with and without
    overflow, and linear interpolation between the closest ranks *)

Definition exact (q : Q) : npfloat := Finite q.

(** Every result beyond [fmax] in size becomes an infinity. *)
Definition overflowing (fmax : Q) (q : Q) : npfloat :=
  if Qle_bool q fmax then
    if Qle_bool (- fmax) q then Finite q else NegInf
  else PosInf.

Fixpoint insert_sorted (x : Q) (l : list Q) : list Q :=
  match l with
  | [] => [x]
  | y :: l' => if Qle_bool x y then x :: l else y :: insert_sorted x l'
  end.

Definition sort (l : list Q) : list Q := fold_right insert_sorted [] l.

(** One percentile [q] in [0, 100] of a non-empty [a]: linear
    interpolation between the two closest ranks. *)
Definition percentile (a : list Q) (q : Q) : Q :=
  let s := sort a in
  let n := Z.of_nat (length s) in
  let index := q / 100 * inject_Z (n - 1) in
  let lo := Qfloor index in
  let hi := Z.min (lo + 1) (n - 1) in
  let frac := index - inject_Z lo in
  let below := nth (Z.to_nat lo) s 0 in
  let above := nth (Z.to_nat hi) s 0 in
  below + frac * (above - below).

Definition valid_percentile (q : Q) : bool :=
  Qle_bool 0 q && Qle_bool q 100.

(** numpy checks the percentiles first and then indexes the sorted
    values, which fails on an array without values. *)
Definition exact_percentile (a : list Q) (percentiles : Q * Q)
  : result (npfloat * npfloat) :=
  if negb (valid_percentile (fst percentiles)
           && valid_percentile (snd percentiles))
  then Raise ValueError
  else
    match a with
    | [] => Raise IndexError
    | _ => Ok (Finite (percentile a (fst percentiles)),
               Finite (percentile a (snd percentiles)))
    end.

(** A value in the closed interval [0, 1]. *)
Definition in_unit_interval (v : npfloat) : Prop :=
  match v with
  | Finite q => 0 <= q /\ q <= 1
  | _ => False
  end.

End Contrast.


(** ** Keras: the fit loop and the two callbacks train.py installs *)

Module KerasFit.

(** [np.less(current, best)], where [best] starts at infinity. *)
Definition lt_best (current : Q) (best : option Q) : bool :=
  match best with
  | None => true
  | Some b => negb (Qle_bool b current)
  end.

(** [EarlyStopping(patience=...)], monitoring [val_loss] with
    [min_delta=0]. *)
Record EarlyStopping : Type := {
  patience : Z;
  wait : Z;
  es_best : option Q
}.

Definition es_on_train_begin (patience : Z) : EarlyStopping :=
  {| patience := patience; wait := 0; es_best := None |}.

(** [EarlyStopping.on_epoch_end]: the new state and whether
    [model.stop_training] is set. *)
Definition es_on_epoch_end (cb : EarlyStopping) (current : Q)
  : EarlyStopping * bool :=
  if lt_best current (es_best cb) then
    ({| patience := patience cb; wait := 0; es_best := Some current |}, false)
  else
    let w := wait cb + 1 in
    ({| patience := patience cb; wait := w; es_best := es_best cb |},
     patience cb <=? w).

(** [ModelCheckpoint(filepath, save_best_only=True)]: [saved] records
    the checkpoints written, oldest first, with their [val_loss]. *)
Record ModelCheckpoint : Type := {
  mc_best : option Q;
  saved : list (string * Q)
}.

Definition mc_on_train_begin : ModelCheckpoint :=
  {| mc_best := None; saved := [] |}.

(** [model.save(path, overwrite=True)] and the other writes into the
    model folder: the folder lists its file names, oldest first. *)
Definition write_file (path : string) (files : list string) : list string :=
  if bool_decide (path ∈ files) then files else files ++ [path].

Definition mc_on_epoch_end (filepath : nat -> Q -> string)
    (cb : ModelCheckpoint) (epoch : nat) (current : Q) (files : list string)
  : ModelCheckpoint * list string :=
  let path := filepath (epoch + 1)%nat current in
  if lt_best current (mc_best cb) then
    ({| mc_best := Some current; saved := saved cb ++ [(path, current)] |},
     write_file path files)
  else (cb, files).

Record fit_state : Type := {
  es : EarlyStopping;
  mc : ModelCheckpoint;
  stop_training : bool;
  files : list string;
  history : list Q
}.

Section Fit.
(** The validation loss measured at the end of each epoch (counted
    from 0), the checkpoint path template, and what the optional
    [LambdaCallback] writes. *)
Variable val_loss : nat -> Q.
Variable filepath : nat -> Q -> string.
Variable extra_files : list string.

(** [callbacks.on_epoch_end(epoch, logs)], in list order. *)
Definition on_epoch_end (epoch : nat) (st : fit_state) : fit_state :=
  let current := val_loss epoch in
  let (es', stop) := es_on_epoch_end (es st) current in
  let (mc', files') := mc_on_epoch_end filepath (mc st) epoch current
                         (files st) in
  {| es := es'; mc := mc';
     stop_training := stop_training st || stop;
     files := fold_right write_file files' (rev extra_files);
     history := history st ++ [current] |}.

(** [while epoch < epochs: ...; if stop_training: break]. *)
Fixpoint fit_loop (remaining epoch : nat) (st : fit_state) : fit_state :=
  match remaining with
  | O => st
  | S remaining' =>
      let st' := on_epoch_end epoch st in
      if stop_training st' then st'
      else fit_loop remaining' (S epoch) st'
  end.

Definition fit_generator (epochs : nat) (patience : Z)
    (files : list string) : fit_state :=
  fit_loop epochs 0%nat
    {| es := es_on_train_begin patience; mc := mc_on_train_begin;
       stop_training := false; files := files; history := [] |}.

(** [val_loss] at [epoch] is lower than at every earlier epoch. *)
Definition improves (epoch : nat) : bool :=
  forallb (fun e => negb (Qle_bool (val_loss e) (val_loss epoch)))
          (seq 0 epoch).

(** The number of consecutive epochs, up to and including [epoch],
    at which [val_loss] failed to improve. *)
Fixpoint stale (epoch : nat) : nat :=
  if improves epoch then O
  else S (match epoch with O => O | S e => stale e end).

End Fit.

End KerasFit.

(** ** cells_kitchen/region_proposal/train.py *)

Module Train.
Import KerasFit.

(** The entries of [config] the script uses after the model is built. *)
Record config : Type := {
  early_stopping : Z;
  training_epochs : nat;
  save_predictions_during_training : bool;
  batch_size : nat
}.

Definition pad_left (width : nat) (s : string) : string :=
  String.concat "" (repeat "0"%string (width - String.length s)) +:+ s.

(** [{epoch:02d}]. *)
Definition format_epoch (epoch : nat) : string := pad_left 2 (pretty epoch).

(** [{val_loss:.6f}] on the exact value of the float: six decimals,
    correctly rounded. *)
Definition format_loss (v : Q) : string :=
  let micro := Numpy.round_half_even (Qabs v * inject_Z 1000000) in
  (if Qle_bool 0 v then "" else "-")
  +:+ pretty (micro / 1000000) +:+ "."
  +:+ pad_left 6 (pretty (micro mod 1000000)).

(** ['%s.{epoch:02d}-{val_loss:.6f}.hdf5' % model.name], formatted. *)
Definition checkpoint_path (model_name : string) (epoch : nat) (v : Q)
  : string :=
  model_name +:+ "." +:+ format_epoch epoch +:+ "-" +:+ format_loss v
  +:+ ".hdf5".

(** The files [save_prediction_imgs] writes. *)
Definition prediction_files (batch : nat) : list string :=
  map (fun i => "prediction" +:+ pretty i +:+ ".png") (seq 0 batch).

(** [fnmatch] against ["*" + suffix]; [glob] leaves out hidden files. *)
Definition matches (suffix entry : string) : bool :=
  Frames.ends_with suffix entry && negb (String.prefix "." entry).

Section Script.
(** The order in which the operating system lists a folder, the
    validation losses the run produces, and [model.name]. *)
Variable listdir : list string -> list string.
Variable val_loss : nat -> Q.
Variable model_name : string.

(** [glob(os.path.join(model_path, '*' + suffix))]. *)
Definition glob (suffix : string) (files : list string) : list string :=
  filter (fun f => matches suffix f) (listdir files).

(** [os.remove(mod)] for each path of the list. *)
Definition remove_all (paths files : list string) : list string :=
  filter (fun f => negb (bool_decide (f ∈ paths))) files.

(** Lines 49 to 72 of the script: the final contents of the model
    folder, the state of the fit, and the checkpoint loaded. *)
(** Lines 53 to 61: the callbacks and the call of [fit_generator],
    in a model folder just created. *)
Definition fit (cfg : config) : fit_state :=
  let extra :=
    if save_predictions_during_training cfg
    then prediction_files (batch_size cfg) else [] in
  fit_generator val_loss (checkpoint_path model_name) extra
    (training_epochs cfg) (early_stopping cfg) [].

Definition train (cfg : config) : result (list string * fit_state * string) :=
  let st := fit cfg in
  let files := write_file "training_history" (files st) in
  let models_to_delete := removelast (glob "hdf5" files) in
  let files := remove_all models_to_delete files in
  match glob ".hdf5" files with
  | [] => Raise IndexError
  | best :: _ =>
      let files :=
        fold_right write_file files (rev (prediction_files (batch_size cfg))) in
      Ok (files, st, best)
  end.

End Script.

(** Two ways a folder can be listed: by name, and newest first. *)
Fixpoint insert_by_name (s : string) (l : list string) : list string :=
  match l with
  | [] => [s]
  | x :: l' => if String.leb s x then s :: l else x :: insert_by_name s l'
  end.

Definition listdir_by_name (files : list string) : list string :=
  fold_right insert_by_name [] files.

Definition listdir_newest_first (files : list string) : list string :=
  rev files.

(** The best-scoring checkpoint among those saved: the lowest
    [val_loss], the earliest one on a tie. *)
Fixpoint best_scoring (saved : list (string * Q)) : option (string * Q) :=
  match saved with
  | [] => None
  | (p, v) :: rest =>
      match best_scoring rest with
      | Some (p', v') => if Qle_bool v v' then Some (p, v) else Some (p', v')
      | None => Some (p, v)
      end
  end.

End Train.


(** ** Vocabulary of the properties *)

Module KerasSpec.
Import Keras.

Definition down (d : dim) : dim := conv_output_length 2 d.
Definition up (d : dim) : dim := deconv_length 2 d.

(** One spatial dimension through an hourglass: four poolings, then
    four upsamplings, each merged with the matching encoder stage. *)
Definition hg_dim (d1 : dim) : result dim :=
  let d2 := down d1 in
  let d3 := down d2 in
  let d4 := down d3 in
  let d5 := down d4 in
  let* a6 := elemwise_dim d4 (up d5) in
  let* a7 := elemwise_dim d3 (up a6) in
  let* a8 := elemwise_dim d2 (up a7) in
  elemwise_dim d1 (up a8).

Definition down4 (d : dim) : dim := down (down (down (down d))).
Definition up4 (d : dim) : dim := up (up (up (up d))).

(** Sizes that survive the four poolings and upsamplings unchanged. *)
Definition div16 (d : dim) : Prop :=
  match d with
  | None => True
  | Some n => (16 | n)
  end.

(** The accepted forms of [img_size]. *)
Definition img_size_of (img_size : list dim) (h w : dim) (c : Z) : Prop :=
  img_size = [h; w; Some c] \/ (img_size = [h; w] /\ c = 1).

(** The counts [hourglass] and [stacked_hourglass] pass to their
    layers are positive: the bottleneck count [filters // 2] and
    [output_channels]. *)
Definition counts_ok (output_channels filters : Z) : bool :=
  (2 <=? filters) && (0 <? output_channels).

(** The counts and the kernel size [leap] passes to its layers are
    positive. *)
Definition leap_counts_ok (output_channels filters kernel_size : Z) : bool :=
  (0 <? filters) && (0 <? kernel_size) && (0 <? output_channels).

End KerasSpec.

Module FramesSpec.
Import Frames.

(** The selected indices, in closed form. *)
Definition even_index (n_files : nat) (n : Z) (i : nat) : Z :=
  (Z.of_nat i * (Z.of_nat n_files - 1) / (n - 1))%Z.

(** The unit roundoff of binary64. *)
Definition u : Q := 1 # (2 ^ 53).

(** What is used of IEEE 754 binary64 arithmetic in its default
    rounding mode, to nearest: rounding is monotone, leaves a
    representable value alone, represents the integers up to [2 ^ 53]
    exactly, and on the normal range has a relative error of at most
    the unit roundoff. *)
Record binary64_rounding (rnd : Q -> Q) : Prop := {
  rnd_monotone : forall x y, (x <= y)%Q -> (rnd x <= rnd y)%Q;
  rnd_idempotent : forall x, (rnd (rnd x) == rnd x)%Q;
  rnd_integer :
    forall z : Z, (Z.abs z <= 2 ^ 53)%Z -> (rnd (inject_Z z) == inject_Z z)%Q;
  rnd_error :
    forall x, (1 # (2 ^ 1022) <= x)%Q -> (x <= inject_Z (2 ^ 1023))%Q ->
              (x * (1 - u) <= rnd x /\ rnd x <= x * (1 + u))%Q
}.

(** Requests that [get_frames] can serve from [k] files: all frames, a
    non-empty list of indices within [-k, k), or a count of at least
    one. *)
Definition servable (k : nat) (fn : frame_numbers) : Prop :=
  match fn with
  | FNone => True
  | FList l =>
      l <> [] /\ Forall (fun i => - Z.of_nat k <= i < Z.of_nat k)%Z l
  | FInt n => (1 <= n)%Z
  end.

End FramesSpec.

Module StoreSpec.
Import Store.

Section Frame.
Context {arr : Type}.

(** While a call runs from the store [h0]: every object of [h0] is
    still there with its contents, and the objects in [N], created
    since, are none of them. *)
Definition inv (h0 : heap arr) (N : gset loc) (h : heap arr) : Prop :=
  h0 ⊆ h /\ N ## dom h0.

(** [m] keeps the invariant, may create objects, and on normal
    return gives a value satisfying [post]. *)
Definition safe {A : Type} (h0 : heap arr) (N : gset loc) (m : M arr A)
    (post : A -> gset loc -> Prop) : Prop :=
  forall h, inv h0 N h ->
    exists N', N ⊆ N' /\ inv h0 N' (m h).2 /\
               forall a, (m h).1 = Ok a -> post a N'.

End Frame.

End StoreSpec.

Module TargetsSpec.
Import Ndarray Targets.

(** A (row, column) pair that numpy accepts as an index into an image
    of [d0] rows and [d1] columns. *)
Definition indexable (d0 d1 : Z) (p : Z * Z) : Prop :=
  - d0 <= fst p < d0 /\ - d1 <= snd p < d1.

(** A (row, column) pair inside the image. *)
Definition inside (d0 d1 : Z) (p : Z * Z) : Prop :=
  0 <= fst p < d0 /\ 0 <= snd p < d1.

(** A label folder that [get_targets] can process: [info.json] gives at
    least three dimensions, of which the code keeps the second and the
    third as [dimensions], and every region lists at least one pixel,
    all of them valid indices. *)
Definition valid_label_folder (f : label_folder) (d0 d1 : Z) : Prop :=
  slice 1 3 (info_dimensions f) = [d0; d1] /\
  0 <= d0 /\ 0 <= d1 /\
  Forall (fun cell => cell <> [] /\ Forall (indexable d0 d1) cell)
         (regions f).

(** The shape of each returned stack. *)
Definition shapes_are (sh : list Z) (m : masks) : Prop :=
  shape (somas m) = sh /\ shape (borders m) = sh /\ shape (centroids m) = sh.

(** A 4 x 5 image with two cells. *)
Definition sample_folder : label_folder :=
  LabelFolder [100; 4; 5] [[(1, 1); (1, 2); (2, 1)]; [(3, 4)]].

End TargetsSpec.

Module FitSpec.
Import KerasFit Train.
Local Open Scope Q_scope.

Section Fit.
Variable val_loss : nat -> Q.
Variable p : Z.

(** [best] is the lowest loss of the epochs before [epoch]. *)
Definition best_before (best : option Q) (epoch : nat) : Prop :=
  forall x, lt_best x best = true <->
            forall e, (e < epoch)%nat -> x < val_loss e.

(** The state of the loop before epoch [epoch] is run. *)
Definition loop_inv (epoch : nat) (st : fit_state) : Prop :=
  stop_training st = false /\
  patience (es st) = p /\
  wait (es st) = Z.of_nat (match epoch with O => O | S e => stale val_loss e end) /\
  best_before (es_best (es st)) epoch /\
  history st = map val_loss (seq 0 epoch).

End Fit.

(** A run of 100 epochs whose validation loss improves at every epoch,
    so that a checkpoint is saved at each. *)
Definition falling_loss (e : nat) : Q := (200 - Z.of_nat e) # 100.

Definition cfg_100 : config :=
  {| early_stopping := 3; training_epochs := 100;
     save_predictions_during_training := false; batch_size := 1 |}.

End FitSpec.

Module ShapeSpec.
Import Keras KerasSpec.

(** A height or width an hourglass accepts: unknown, 1 (which the merge
    layers broadcast), or a multiple of 16. *)
Definition hg_size_ok (d : dim) : Prop :=
  match d with
  | None => True
  | Some n => n = 1 \/ (16 | n)
  end.

(** An image size of the form (height, width, channels) with the channel
    count defined. *)
Definition has_channel_axis (img_size : list dim) : Prop :=
  exists h w c, img_size = [h; w; Some c].

(** The two poolings and two transposed convolutions of [leap]. *)
Definition leap_dim (d : dim) : dim := up (up (down (down d))).

(** A rank-4 tensor whose channel count is defined. *)
Definition conv_input (x : tensor) : Prop :=
  exists b h w c, x = [b; h; w; Some c].

End ShapeSpec.


Module SelectionSpec.

(** An index numpy accepts for a sequence of [k] items. *)
Definition in_bounds (k : nat) (i : Z) : Prop :=
  - Z.of_nat k <= i < Z.of_nat k.

(** The position an accepted index denotes: negative indices count from
    the end. *)
Definition position (k : nat) (i : Z) : nat := Z.to_nat (i mod Z.of_nat k).

(** No index is selected twice, and the order of the files is kept. *)
Definition strictly_increasing (idx : list Z) : Prop :=
  forall i j x y, (i < j)%nat ->
    idx !! i = Some x -> idx !! j = Some y -> x < y.

(** Each of [k] files is selected. *)
Definition selects_all (k : nat) (idx : list Z) : Prop :=
  forall t, 0 <= t < Z.of_nat k -> exists j, idx !! j = Some t.

End SelectionSpec.


Module CheckpointSpec.
Import KerasFit.

(** The checkpoints [ModelCheckpoint] has written after [n] epochs: one
    for each epoch at which the validation loss improved, oldest
    first. *)
Definition checkpoints_of (val_loss : nat -> Q) (filepath : nat -> Q -> string)
    (n : nat) : list (string * Q) :=
  map (fun e => (filepath (e + 1)%nat (val_loss e), val_loss e))
      (filter (fun e => improves val_loss e) (seq 0 n)).

(** The two callbacks agree on the best loss so far, and the checkpoints
    written are those of the improving epochs. *)
Definition mc_inv (val_loss : nat -> Q) (filepath : nat -> Q -> string)
    (n : nat) (st : fit_state) : Prop :=
  mc_best (mc st) = es_best (es st) /\
  saved (mc st) = checkpoints_of val_loss filepath n.

(** Each loss is lower than every loss before it in the list. *)
Fixpoint falling (l : list (string * Q)) : Prop :=
  match l with
  | [] => True
  | (_, v) :: rest => Forall (fun pv => (snd pv < v)%Q) rest /\ falling rest
  end.

End CheckpointSpec.


(** ** utils.scale_img *)

Module Scale.
Import Contrast.
Local Open Scope Q_scope.

Definition smaller (a b : Q) : Q := if Qle_bool a b then a else b.
Definition larger (a b : Q) : Q := if Qle_bool a b then b else a.

(** [np.min] and [np.max] over all the values of a float64 array of
    finite values; on an array without values numpy raises
    [ValueError]. *)
Definition amin (a : list Q) : result Q :=
  match a with
  | [] => Raise ValueError
  | x :: l => Ok (fold_left smaller l x)
  end.

Definition amax (a : list Q) : result Q :=
  match a with
  | [] => Raise ValueError
  | x :: l => Ok (fold_left larger l x)
  end.

(** The truth value of a float: only zero is falsy. *)
Definition truthy (v : npfloat) : bool :=
  match v with
  | Finite q => negb (Qeq_bool q 0)
  | _ => true
  end.

Section Float.

Variable fl : Q -> npfloat.

(** [np.ptp]: the maximum minus the minimum, a float subtraction. *)
Definition ptp (a : list Q) : result npfloat :=
  let* hi := amax a in
  let* lo := amin a in
  Ok (fl (hi - lo)).

(** [[
    if np.ptp(img):
        return (img - np.min(img)) / np.ptp(img)
    else:
        return img
]] *)
Definition scale_img (img : list (list Q)) : result (list (list npfloat)) :=
  let* range := ptp (concat img) in
  if truthy range then
    let* lo := amin (concat img) in
    let* range := ptp (concat img) in
    Ok (map (map (fun x => true_divide fl (subtract fl (Finite x) (Finite lo))
                                       range))
            img)
  else Ok (map (map Finite) img).

End Float.

End Scale.

Module ScaleSpec.
Local Open Scope Q_scope.

(** All the pixels have the same value. *)
Definition constant (img : list (list Q)) : Prop :=
  forall x y, In x (concat img) -> In y (concat img) -> x == y.

(** Two arrays of rows with the same row lengths. *)
Definition same_shape {A B : Type} (a : list (list A)) (b : list (list B))
  : Prop :=
  map length a = map length b.

End ScaleSpec.


Module ContrastSpec.
Import Contrast.
Local Open Scope Q_scope.

(** A finite float of the given value. *)
Definition finite_value (q : Q) (v : npfloat) : Prop :=
  exists q', v = Finite q' /\ q' == q.

(** The order of the floats; NaN is related to nothing. *)
Definition fle (a b : npfloat) : Prop := fleb a b = true.

(** The same float: the same infinity, NaN twice, or finite floats of
    equal value. *)
Definition same_float (a b : npfloat) : Prop :=
  match a, b with
  | Finite x, Finite y => x == y
  | PosInf, PosInf | NegInf, NegInf | NaN, NaN => True
  | _, _ => False
  end.

(** What the properties use of IEEE-754 rounding: it keeps the order,
    overflowing to the infinity of the right sign, and 0 and 1 are
    floats. *)
Record float_rounding (fl : Q -> npfloat) : Prop := {
  fl_monotone : forall x y, x <= y -> fle (fl x) (fl y);
  fl_zero : finite_value 0 (fl 0);
  fl_one : finite_value 1 (fl 1)
}.

Definition valid_percentiles (p0 p1 : Q) : Prop :=
  (0 <= p0 /\ p0 <= 100) /\ (0 <= p1 /\ p1 <= 100).

(** [np.percentile] on an array with at least one value raises exactly
    for a percentile outside [0, 100], and then [ValueError]. *)
Definition percentile_raises
    (np_percentile : list Q -> Q * Q -> result (npfloat * npfloat)) : Prop :=
  forall a p0 p1 e,
    a <> [] ->
    (np_percentile a (p0, p1) = Raise e <->
     e = ValueError /\ ~ valid_percentiles p0 p1).

(** Every percentile of values that are all equal is that value. *)
Definition percentile_of_constant
    (np_percentile : list Q -> Q * Q -> result (npfloat * npfloat)) : Prop :=
  forall a c p0 p1,
    a <> [] -> (forall x, In x a -> x == c) -> valid_percentiles p0 p1 ->
    exists l0 l1,
      np_percentile a (p0, p1) = Ok (l0, l1) /\
      finite_value c l0 /\ finite_value c l1.

End ContrastSpec.


(* ===================================================================== *)
(** * Properties *)
(* ===================================================================== *)

(** ** Generic facts about the error monad *)

Lemma bind_Ok_inv {A B : Type} (m : result A) (k : A -> result B) (b : B) :
  bind m k = Ok b -> exists a, m = Ok a /\ k a = Ok b.
Proof. destruct m as [a|e]; simpl; intros H; [eauto | discriminate]. Qed.

Ltac bind_inv H :=
  let a := fresh "t" in
  let Ha := fresh "E" in
  apply bind_Ok_inv in H; destruct H as (a & Ha & H).

(** ** Keras shape inference *)

Module KerasFacts.
Import Keras KerasSpec.

Lemma conv_output_length_1 (d : dim) : conv_output_length 1 d = d.
Proof.
  destruct d as [n|]; simpl; [|reflexivity].
  f_equal. replace (n + 1 - 1) with n by lia. apply Z.div_1_r.
Qed.

Lemma Conv2D_checks (f k : Z) :
  0 < f -> 0 < k -> (f <=? 0) || (k <=? 0) = false.
Proof.
  intros Hf Hk. destruct (Z.leb_spec f 0); [lia|].
  destruct (Z.leb_spec k 0); [lia|reflexivity].
Qed.

Lemma Conv2D_eq (f k : Z) (b h w : dim) (c : Z) :
  0 < f -> 0 < k -> Conv2D f k [b; h; w; Some c] = Ok [b; h; w; Some f].
Proof.
  intros Hf Hk. unfold Conv2D.
  now rewrite Conv2D_checks, !conv_output_length_1.
Qed.

(** A layer with a filter count or kernel size that is not positive
    cannot be built. *)
Lemma Conv2D_refuses (f k : Z) (x : tensor) :
  f <= 0 \/ k <= 0 -> Conv2D f k x = Raise ValueError.
Proof.
  intros H. unfold Conv2D.
  destruct (Z.leb_spec f 0); [reflexivity|].
  destruct (Z.leb_spec k 0); [reflexivity|lia].
Qed.

Lemma Conv2D_pos (f k : Z) (x y : tensor) :
  Conv2D f k x = Ok y -> 0 < f /\ 0 < k.
Proof.
  unfold Conv2D. destruct (Z.leb_spec f 0); [discriminate|].
  destruct (Z.leb_spec k 0); [discriminate|]. intros _. lia.
Qed.

Lemma Conv2D_inv (f k : Z) (x y : tensor) :
  Conv2D f k x = Ok y ->
  exists b h w c, x = [b; h; w; Some c] /\ y = [b; h; w; Some f].
Proof.
  unfold Conv2D. destruct ((f <=? 0) || (k <=? 0)); [discriminate|].
  destruct x as [|b [|h [|w [|[c|] [|? ?]]]]]; simpl; try discriminate.
  intros [= <-]. exists b, h, w, c. now rewrite !conv_output_length_1.
Qed.

Lemma Conv2D_raises (f k : Z) (x : tensor) (e : exn) :
  Conv2D f k x = Raise e -> e = ValueError.
Proof.
  unfold Conv2D. destruct ((f <=? 0) || (k <=? 0)); [now intros [= <-]|].
  destruct x as [|b [|h [|w [|[c|] [|? ?]]]]]; simpl; congruence.
Qed.

Lemma Conv2DTranspose_eq (f : Z) (b h w : dim) (c : Z) :
  0 < f ->
  Conv2DTranspose f [b; h; w; Some c]
  = Ok [b; deconv_length 2 h; deconv_length 2 w; Some f].
Proof.
  intros Hf. unfold Conv2DTranspose.
  destruct (Z.leb_spec f 0); [lia|reflexivity].
Qed.

Lemma Conv2DTranspose_refuses (f : Z) (x : tensor) :
  f <= 0 -> Conv2DTranspose f x = Raise ValueError.
Proof.
  intros H. unfold Conv2DTranspose.
  destruct (Z.leb_spec f 0); [reflexivity|lia].
Qed.

Lemma Conv2DTranspose_inv (f : Z) (x y : tensor) :
  Conv2DTranspose f x = Ok y ->
  exists b h w c, x = [b; h; w; Some c] /\ y = [b; up h; up w; Some f].
Proof.
  unfold Conv2DTranspose. destruct (f <=? 0); [discriminate|].
  destruct x as [|b [|h [|w [|[c|] [|? ?]]]]]; simpl; try discriminate.
  intros [= <-]. now exists b, h, w, c.
Qed.

Lemma elemwise_dim_same (d : dim) : elemwise_dim d d = Ok d.
Proof.
  destruct d as [n|]; simpl; [|reflexivity].
  destruct (n =? 1) eqn:E; [reflexivity|]. now rewrite Z.eqb_refl.
Qed.

Lemma merge_batch_same (b : dim) : merge_batch b b = Ok b.
Proof. destruct b as [n|]; simpl; [|reflexivity]. now rewrite Z.eqb_refl. Qed.

(** Adding a tensor to one of the same shape keeps the shape. *)
Lemma Add_same (b h w c : dim) :
  Add [b; h; w; c] [b; h; w; c] = Ok [b; h; w; c].
Proof.
  unfold Add, elemwise_op_output_shape. rewrite merge_batch_same. simpl.
  now rewrite !elemwise_dim_same.
Qed.

(** A merge of two rank-4 tensors works dimension by dimension. *)
Lemma Add_rank4 (b1 h1 w1 c1 b2 h2 w2 c2 : dim) :
  Add [b1; h1; w1; c1] [b2; h2; w2; c2] =
  let* b := merge_batch b1 b2 in
  let* h := elemwise_dim h1 h2 in
  let* w := elemwise_dim w1 w2 in
  let* c := elemwise_dim c1 c2 in
  Ok [b; h; w; c].
Proof.
  unfold Add, elemwise_op_output_shape. simpl.
  destruct (merge_batch b1 b2); simpl; [|reflexivity].
  destruct (elemwise_dim h1 h2); simpl; [|reflexivity].
  destruct (elemwise_dim w1 w2); simpl; [|reflexivity].
  destruct (elemwise_dim c1 c2); reflexivity.
Qed.

(** What the decoder's skip connection can produce: the encoder side
    has size [d], the upsampled side has the even size [up e]. *)
Lemma elemwise_dim_up (d e r : dim) :
  (d = None -> e = None) ->
  elemwise_dim d (up e) = Ok r -> r = up e.
Proof.
  intros Hd. destruct d as [a|], e as [n|]; simpl.
  - destruct (a =? 1) eqn:E1; [now intros [= <-]|].
    destruct (n * 2 =? 1) eqn:E2; [lia|].
    destruct (a =? n * 2) eqn:E3; simpl; [|discriminate].
    intros [= <-]. f_equal. lia.
  - now intros [= <-].
  - now specialize (Hd eq_refl).
  - now intros [= <-].
Qed.

Lemma elemwise_dim_double (n : Z) :
  elemwise_dim (Some (2 * n)) (up (Some n)) = Ok (Some (2 * n)).
Proof.
  simpl. replace (n * 2) with (2 * n) by lia.
  destruct (2 * n =? 1) eqn:E; [lia|]. now rewrite Z.eqb_refl.
Qed.

Lemma down_double (n : Z) : down (Some (2 * n)) = Some n.
Proof.
  simpl. f_equal. replace (2 * n + 2 - 1) with (1 + n * 2) by lia.
  rewrite Z.div_add by lia. reflexivity.
Qed.

End KerasFacts.

Module ModelsFacts.
Import Keras Models KerasSpec KerasFacts.

Lemma floordiv_eq (a b : Z) : b <> 0 -> floordiv a b = Ok (a / b).
Proof.
  intros Hb. unfold floordiv. destruct (Z.eqb_spec b 0); [lia|reflexivity].
Qed.

Lemma rbm_eq (b h w : dim) (c output_filters bottleneck_factor : Z) :
  bottleneck_factor <> 0 ->
  0 < output_filters / bottleneck_factor -> 0 < output_filters ->
  residual_bottleneck_module [b; h; w; Some c] output_filters bottleneck_factor
  = Ok [b; h; w; Some output_filters].
Proof.
  intros Hbf Hq Hof. unfold residual_bottleneck_module.
  cbn [int_shape_3 nth_error bind]. rewrite floordiv_eq by exact Hbf.
  cbn [bind]. repeat (rewrite Conv2D_eq by lia; cbn [bind]).
  destruct (negb (dim_eqb (Some output_filters) (Some c))) eqn:E.
  - cbn [bind]. apply Add_same.
  - cbn [bind]. apply negb_false_iff in E. simpl in E.
    apply Z.eqb_eq in E. subst c. apply Add_same.
Qed.

(** The counts a module passes to its convolutions. *)
Lemma rbm_pos (x y : tensor) (output_filters bottleneck_factor : Z) :
  residual_bottleneck_module x output_filters bottleneck_factor = Ok y ->
  bottleneck_factor <> 0 /\
  0 < output_filters / bottleneck_factor /\ 0 < output_filters.
Proof.
  intros H. unfold residual_bottleneck_module in H.
  bind_inv H. bind_inv H. unfold floordiv in E0.
  destruct (Z.eqb_spec bottleneck_factor 0) as [|Hbf]; [discriminate|].
  injection E0 as <-. bind_inv H. bind_inv H. bind_inv H.
  apply Conv2D_pos in E0, E2. lia.
Qed.

Lemma rbm_inv (x y : tensor) (output_filters bottleneck_factor : Z) :
  residual_bottleneck_module x output_filters bottleneck_factor = Ok y ->
  exists b h w c, x = [b; h; w; Some c] /\ y = [b; h; w; Some output_filters].
Proof.
  intros H. destruct (rbm_pos _ _ _ _ H) as (Hbf & Hq & Hof).
  pose proof H as H'. unfold residual_bottleneck_module in H'.
  bind_inv H'. bind_inv H'. bind_inv H'. apply Conv2D_inv in E1.
  destruct E1 as (b & h & w & c & -> & _).
  rewrite rbm_eq in H by assumption. injection H as <-. now exists b, h, w, c.
Qed.

(** A module whose counts are not positive is refused by one of its
    convolutions. *)
Lemma rbm_refuses (b h w : dim) (c output_filters bottleneck_factor : Z) :
  bottleneck_factor <> 0 ->
  output_filters / bottleneck_factor <= 0 \/ output_filters <= 0 ->
  residual_bottleneck_module [b; h; w; Some c] output_filters bottleneck_factor
  = Raise ValueError.
Proof.
  intros Hbf Hno. unfold residual_bottleneck_module.
  cbn [int_shape_3 nth_error bind]. rewrite floordiv_eq by exact Hbf.
  cbn [bind].
  destruct (Z.leb_spec (output_filters / bottleneck_factor) 0) as [Hq|Hq].
  - now rewrite Conv2D_refuses by lia.
  - repeat (rewrite Conv2D_eq by lia; cbn [bind]).
    now rewrite Conv2D_refuses by lia.
Qed.

Lemma upsample_eq (ul : bool) (b h w : dim) (c : Z) :
  0 < c -> upsample ul c [b; h; w; Some c] = Ok [b; up h; up w; Some c].
Proof.
  intros Hc. destruct ul; [reflexivity|]. now apply Conv2DTranspose_eq.
Qed.

Lemma elemwise_dim_cases (i j : dim) :
  elemwise_dim i j = Raise ValueError \/ exists d, elemwise_dim i j = Ok d.
Proof.
  destruct i as [a|], j as [b|]; simpl; eauto.
  destruct (a =? 1); eauto. destruct (b =? 1); eauto.
  destruct (a =? b); simpl; eauto.
Qed.

Lemma half_pos (f : Z) : 2 <= f -> 0 < f / 2.
Proof. intros H. apply Z.div_str_pos. lia. Qed.

Ltac run :=
  repeat first
    [ rewrite rbm_eq by (try apply half_pos; try rewrite Z.div_1_r; lia)
    | rewrite upsample_eq by lia
    | rewrite Conv2D_eq by lia
    | rewrite Conv2D_refuses by lia
    | rewrite rbm_refuses by (try rewrite Z.div_1_r; lia)
    | rewrite Add_rank4
    | rewrite merge_batch_same
    | rewrite elemwise_dim_same
    | progress cbn [bind MaxPooling2D]
    | progress unfold down, up ].

Ltac split_dim :=
  match goal with
  | |- context [bind (elemwise_dim ?a ?b) _] =>
      let E := fresh "E" in
      destruct (elemwise_dim_cases a b) as [E|[? E]];
      rewrite !E; cbn [bind]; try reflexivity
  end.

Lemma counts_ok_spec (output_channels filters : Z) :
  counts_ok output_channels filters = true <->
  2 <= filters /\ 0 < output_channels.
Proof. unfold counts_ok. rewrite andb_true_iff, Z.leb_le, Z.ltb_lt. tauto. Qed.

Lemma half_not_pos (f : Z) : f < 2 -> f / 2 <= 0.
Proof.
  intros H. destruct (Z.le_gt_cases (f / 2) 0) as [|Hq]; [assumption|].
  pose proof (Z.mul_div_le f 2 ltac:(lia)). lia.
Qed.

Lemma hourglass_eq (h w : dim) (c output_channels filters : Z) (ul : bool) :
  hourglass [h; w; Some c] output_channels filters ul =
  if counts_ok output_channels filters then
    let* h' := hg_dim h in
    let* w' := hg_dim w in
    Ok (Model [[None; h; w; Some c]]
              [[None; h'; w'; Some output_channels]] "hourglass")
  else Raise ValueError.
Proof.
  unfold counts_ok.
  destruct (Z.leb_spec 2 filters) as [Hf|Hf]; cbn [andb].
  - destruct (Z.ltb_spec 0 output_channels) as [Ho|Ho].
    + unfold hourglass, hg_dim, Input. cbn [length Nat.eqb].
      run. repeat (split_dim; run; try reflexivity).
    + unfold hourglass, hg_dim, Input. cbn [length Nat.eqb].
      run. repeat (split_dim; run; try reflexivity).
  - unfold hourglass, Input. cbn [length Nat.eqb].
    rewrite rbm_refuses; [reflexivity|lia|left; now apply half_not_pos].
Qed.

Lemma stacked_hourglass_eq (h w : dim) (c output_channels filters : Z)
    (ul : bool) :
  stacked_hourglass [h; w; Some c] output_channels filters ul =
  if counts_ok output_channels filters then
    let* h1 := hg_dim h in
    let* w1 := hg_dim w in
    let* h2 := hg_dim h1 in
    let* w2 := hg_dim w1 in
    Ok (Model [[None; h; w; Some c]]
              [[None; h1; w1; Some output_channels];
               [None; h2; w2; Some output_channels]] "stacked_hourglass")
  else Raise ValueError.
Proof.
  unfold counts_ok.
  destruct (Z.leb_spec 2 filters) as [Hf|Hf]; cbn [andb].
  - destruct (Z.ltb_spec 0 output_channels) as [Ho|Ho].
    + unfold stacked_hourglass, hg_dim, Input. cbn [length Nat.eqb].
      run. repeat (split_dim; run; try reflexivity).
    + unfold stacked_hourglass, hg_dim, Input. cbn [length Nat.eqb].
      run. repeat (split_dim; run; try reflexivity).
  - unfold stacked_hourglass, Input. cbn [length Nat.eqb].
    rewrite rbm_refuses; [reflexivity|lia|left; now apply half_not_pos].
Qed.

Lemma leap_eq (h w : dim) (c output_channels filters kernel_size : Z) :
  leap [h; w; Some c] output_channels filters kernel_size =
  if leap_counts_ok output_channels filters kernel_size then
    Ok (Model [[None; h; w; Some c]]
              [[None; up (up (down (down h))); up (up (down (down w)));
                Some output_channels]] "leap")
  else Raise ValueError.
Proof.
  unfold leap_counts_ok.
  destruct (Z.ltb_spec 0 filters) as [Hf|Hf]; cbn [andb].
  - destruct (Z.ltb_spec 0 kernel_size) as [Hk|Hk]; cbn [andb].
    + unfold leap, Input.
      repeat first [ rewrite Conv2D_eq by lia
                   | rewrite Conv2DTranspose_eq by lia
                   | progress cbn [bind MaxPooling2D] ].
      destruct (Z.ltb_spec 0 output_channels) as [Ho|Ho].
      * rewrite Conv2DTranspose_eq by lia. reflexivity.
      * now rewrite Conv2DTranspose_refuses by lia.
    + unfold leap. now rewrite Conv2D_refuses by lia.
  - unfold leap. now rewrite Conv2D_refuses by lia.
Qed.

(** A builder that succeeds was given (height, width, channels) with the
    channel count defined, or (height, width) where the source supplies
    one channel. *)
Lemma rbm_Input_inv (img_size : list dim) (f k : Z) (y : tensor) :
  residual_bottleneck_module (Input img_size) f k = Ok y ->
  exists h w c, img_size = [h; w; Some c].
Proof.
  intros H. apply rbm_inv in H. destruct H as (b & h & w & c & H & _).
  injection H as _ ->. now exists h, w, c.
Qed.

Lemma hg_dim_None : hg_dim None = Ok None.
Proof. reflexivity. Qed.

Lemma hg_dim_Some_inv (n : Z) (r : dim) :
  hg_dim (Some n) = Ok r -> r = up4 (down4 (Some n)).
Proof.
  unfold hg_dim, up4, down4. intros H.
  bind_inv H. bind_inv H. bind_inv H.
  apply elemwise_dim_up in E; [|discriminate]. subst t.
  apply elemwise_dim_up in E0; [|discriminate]. subst t0.
  apply elemwise_dim_up in E1; [|discriminate]. subst t1.
  apply elemwise_dim_up in H; [|discriminate]. exact H.
Qed.

Lemma hg_dim_inv (d r : dim) : hg_dim d = Ok r -> r = up4 (down4 d).
Proof.
  destruct d as [n|]; [apply hg_dim_Some_inv|]. now intros [= <-].
Qed.

Lemma hg_dim_div16 (d : dim) : div16 d -> hg_dim d = Ok d.
Proof.
  destruct d as [n|]; [|reflexivity]. intros [k ->]. unfold hg_dim.
  replace (k * 16) with (2 * (2 * (2 * (2 * k)))) by lia.
  rewrite !down_double. rewrite elemwise_dim_double. cbn [bind].
  rewrite (elemwise_dim_double (2 * k)). cbn [bind].
  rewrite (elemwise_dim_double (2 * (2 * k))). cbn [bind].
  rewrite (elemwise_dim_double (2 * (2 * (2 * k)))). reflexivity.
Qed.

Lemma up4_down4_div16 (d : dim) : div16 d -> up4 (down4 d) = d.
Proof.
  intros H. pose proof (hg_dim_div16 d H) as E.
  apply hg_dim_inv in E. now symmetry.
Qed.

Lemma div16_up4 (d : dim) : div16 (up4 d).
Proof. destruct d as [n|]; simpl; [|exact I]. exists n. lia. Qed.

Lemma down_up (d : dim) : down (up d) = d.
Proof.
  destruct d as [n|]; simpl; [|reflexivity]. f_equal.
  replace (n * 2 + 2 - 1) with (1 + n * 2) by lia.
  rewrite Z.div_add by lia. reflexivity.
Qed.

Lemma down4_up4 (d : dim) : down4 (up4 d) = d.
Proof. unfold down4, up4. now rewrite !down_up. Qed.

Lemma hourglass_img_size (img_size : list dim) (oc f : Z) (ul : bool)
    (m : model) :
  hourglass img_size oc f ul = Ok m ->
  exists h w c, img_size_of img_size h w c /\
                hourglass [h; w; Some c] oc f ul = Ok m.
Proof.
  intros H. pose proof H as H'. unfold hourglass in H'.
  bind_inv H'. apply rbm_Input_inv in E. destruct E as (h & w & c & E).
  exists h, w, c. destruct (length img_size =? 2)%nat eqn:L.
  - destruct img_size as [|a [|b [|? ?]]]; try discriminate.
    injection E as -> -> <-. split; [right; now split|exact H].
  - subst img_size. split; [now left|exact H].
Qed.

Lemma stacked_hourglass_img_size (img_size : list dim) (oc f : Z) (ul : bool)
    (m : model) :
  stacked_hourglass img_size oc f ul = Ok m ->
  exists h w c, img_size_of img_size h w c /\
                stacked_hourglass [h; w; Some c] oc f ul = Ok m.
Proof.
  intros H. pose proof H as H'. unfold stacked_hourglass in H'.
  bind_inv H'. apply rbm_Input_inv in E. destruct E as (h & w & c & E).
  exists h, w, c. destruct (length img_size =? 2)%nat eqn:L.
  - destruct img_size as [|a [|b [|? ?]]]; try discriminate.
    injection E as -> -> <-. split; [right; now split|exact H].
  - subst img_size. split; [now left|exact H].
Qed.

Lemma leap_img_size (img_size : list dim) (oc f k : Z) (m : model) :
  leap img_size oc f k = Ok m -> exists h w c, img_size = [h; w; Some c].
Proof.
  intros H. unfold leap in H. bind_inv H. apply Conv2D_inv in E.
  destruct E as (b & h & w & c & E & _). injection E as _ ->.
  now exists h, w, c.
Qed.

(** What a returned model looks like, builder by builder. *)
Lemma hourglass_Ok (h w : dim) (c oc f : Z) (ul : bool) (m : model) :
  hourglass [h; w; Some c] oc f ul = Ok m ->
  (2 <= f /\ 0 < oc) /\
  exists h' w', hg_dim h = Ok h' /\ hg_dim w = Ok w' /\
    m = Model [[None; h; w; Some c]] [[None; h'; w'; Some oc]] "hourglass".
Proof.
  rewrite hourglass_eq. destruct (counts_ok oc f) eqn:C; [|discriminate].
  apply counts_ok_spec in C. intros H. split; [exact C|].
  do 2 bind_inv H. injection H as <-. eauto.
Qed.

Lemma stacked_hourglass_Ok (h w : dim) (c oc f : Z) (ul : bool) (m : model) :
  stacked_hourglass [h; w; Some c] oc f ul = Ok m ->
  (2 <= f /\ 0 < oc) /\
  exists h1 w1 h2 w2,
    hg_dim h = Ok h1 /\ hg_dim w = Ok w1 /\
    hg_dim h1 = Ok h2 /\ hg_dim w1 = Ok w2 /\
    m = Model [[None; h; w; Some c]]
              [[None; h1; w1; Some oc]; [None; h2; w2; Some oc]]
              "stacked_hourglass".
Proof.
  rewrite stacked_hourglass_eq.
  destruct (counts_ok oc f) eqn:C; [|discriminate].
  apply counts_ok_spec in C. intros H. split; [exact C|].
  do 4 bind_inv H. injection H as <-. eexists _, _, _, _. eauto.
Qed.

Lemma hourglass_div16 (h w : dim) (c oc f : Z) (ul : bool) :
  2 <= f -> 0 < oc -> div16 h -> div16 w ->
  hourglass [h; w; Some c] oc f ul
  = Ok (Model [[None; h; w; Some c]] [[None; h; w; Some oc]] "hourglass").
Proof.
  intros Hf Ho Hh Hw. rewrite hourglass_eq.
  rewrite (proj2 (counts_ok_spec oc f)) by now split.
  now rewrite !hg_dim_div16 by assumption.
Qed.

Lemma stacked_hourglass_div16 (h w : dim) (c oc f : Z) (ul : bool) :
  2 <= f -> 0 < oc -> div16 h -> div16 w ->
  stacked_hourglass [h; w; Some c] oc f ul
  = Ok (Model [[None; h; w; Some c]]
              [[None; h; w; Some oc]; [None; h; w; Some oc]]
              "stacked_hourglass").
Proof.
  intros Hf Ho Hh Hw. rewrite stacked_hourglass_eq.
  rewrite (proj2 (counts_ok_spec oc f)) by now split.
  repeat (rewrite hg_dim_div16 by assumption; cbn [bind]). reflexivity.
Qed.

(** C4, amended. Every model returned by [leap], [hourglass] or
    [stacked_hourglass] has outputs, one for the first two builders and
    two for the third, and each of them has [output_channels] channels.
    For positive [output_channels], [leap] returns a model on every
    (height, width, channels) with the channels defined when [filters]
    and [kernel_size] are positive; [hourglass] and [stacked_hourglass]
    return one when [filters >= 2] and height and width are unknown or
    multiples of 16. *)
Theorem builders_output_channels (output_channels filters : Z) :
  0 < filters -> 0 < output_channels ->
  (forall img_size kernel_size m,
      leap img_size output_channels filters kernel_size = Ok m ->
      exists o, outputs m = [o] /\ has_channels output_channels o) /\
  (forall img_size ul m,
      hourglass img_size output_channels filters ul = Ok m ->
      exists o, outputs m = [o] /\ has_channels output_channels o) /\
  (forall img_size ul m,
      stacked_hourglass img_size output_channels filters ul = Ok m ->
      exists o1 o2, outputs m = [o1; o2] /\
                    has_channels output_channels o1 /\
                    has_channels output_channels o2) /\
  (forall h w c kernel_size,
      0 < kernel_size ->
      exists m, leap [h; w; Some c] output_channels filters kernel_size
                = Ok m) /\
  (forall h w c ul,
      2 <= filters -> div16 h -> div16 w ->
      (exists m, hourglass [h; w; Some c] output_channels filters ul = Ok m) /\
      (exists m, stacked_hourglass [h; w; Some c] output_channels filters ul
                 = Ok m)).
Proof.
  intros Hf Ho. split; [|split; [|split; [|split]]].
  - intros img_size k m H.
    destruct (leap_img_size _ _ _ _ _ H) as (h & w & c & ->).
    rewrite leap_eq in H. destruct (leap_counts_ok _ _ _); [|discriminate].
    injection H as <-. eexists. split; reflexivity.
  - intros img_size ul m H.
    apply hourglass_img_size in H. destruct H as (h & w & c & _ & H).
    apply hourglass_Ok in H. destruct H as (_ & h' & w' & _ & _ & ->).
    eexists. split; reflexivity.
  - intros img_size ul m H.
    apply stacked_hourglass_img_size in H.
    destruct H as (h & w & c & _ & H).
    apply stacked_hourglass_Ok in H.
    destruct H as (_ & h1 & w1 & h2 & w2 & _ & _ & _ & _ & ->).
    eexists _, _. repeat split; reflexivity.
  - intros h w c k Hk. rewrite leap_eq. unfold leap_counts_ok.
    destruct (Z.ltb_spec 0 filters); [|lia].
    destruct (Z.ltb_spec 0 k); [|lia].
    destruct (Z.ltb_spec 0 output_channels); [|lia]. cbn [andb]. eauto.
  - intros h w c ul Hf2 Hh Hw. split.
    + rewrite hourglass_div16 by assumption. eauto.
    + rewrite stacked_hourglass_div16 by assumption. eauto.
Qed.

(** C4 as stated fails for [filters = 1], a positive count: the first
    bottleneck module asks for [1 // 2 = 0] filters, which [Conv2D]
    refuses, so neither hourglass builder returns a model. *)
Lemma hourglass_refuses_one_filter :
  hourglass [Some 16; Some 16; Some 3] 5 1 false = Raise ValueError /\
  stacked_hourglass [Some 16; Some 16; Some 3] 5 1 false = Raise ValueError.
Proof. split; reflexivity. Qed.

(** C5, amended. A model returned by [stacked_hourglass] has exactly
    two output tensors, each of height and width equal to the input's
    after four halvings (rounded up) and four doublings; for
    [filters >= 2] and positive [output_channels], when height and width
    are multiples of 16 (or unknown) the builder returns a model and
    that is exactly the input height and width. *)
Theorem stacked_hourglass_two_outputs :
  (forall img_size output_channels filters ul m,
      stacked_hourglass img_size output_channels filters ul = Ok m ->
      exists h w c o1 o2,
        img_size_of img_size h w c /\
        outputs m = [o1; o2] /\
        spatial o1 = Some (up4 (down4 h), up4 (down4 w)) /\
        spatial o2 = Some (up4 (down4 h), up4 (down4 w))) /\
  (forall h w c output_channels filters ul,
      2 <= filters -> 0 < output_channels ->
      div16 h -> div16 w ->
      exists m o1 o2,
        stacked_hourglass [h; w; Some c] output_channels filters ul = Ok m /\
        outputs m = [o1; o2] /\
        spatial o1 = Some (h, w) /\ spatial o2 = Some (h, w)).
Proof.
  split.
  - intros img_size oc f ul m H.
    apply stacked_hourglass_img_size in H.
    destruct H as (h & w & c & Hi & H). exists h, w, c.
    apply stacked_hourglass_Ok in H.
    destruct H as (_ & h1 & w1 & h2 & w2 & E & E0 & E1 & E2 & ->).
    cbn [outputs].
    apply hg_dim_inv in E, E0. subst h1 w1.
    apply hg_dim_inv in E1, E2. subst h2 w2.
    rewrite !down4_up4.
    eexists _, _. repeat split; [exact Hi|reflexivity..].
  - intros h w c oc f ul Hf Ho Hh Hw.
    rewrite stacked_hourglass_div16 by assumption.
    eexists _, _, _. repeat split; reflexivity.
Qed.

(** C5 as stated fails for [filters = 1]: on the valid input shape
    (64, 48, 3) no model is returned. *)
Lemma stacked_hourglass_refuses_one_filter :
  stacked_hourglass [Some 64; Some 48; Some 3] 5 1 false = Raise ValueError.
Proof. reflexivity. Qed.

(** A 64 x 48 RGB image through the stacked hourglass. *)
Lemma stacked_hourglass_two_outputs_witness :
  exists m o1 o2,
    stacked_hourglass [Some 64; Some 48; Some 3] 5 16 false = Ok m /\
    outputs m = [o1; o2] /\
    spatial o1 = Some (Some 64, Some 48) /\
    spatial o2 = Some (Some 64, Some 48).
Proof.
  apply (proj2 stacked_hourglass_two_outputs).
  - lia.
  - lia.
  - now exists 4.
  - now exists 3.
Defined.

(** The three builders on a 64 x 48 RGB image. *)
Lemma builders_output_channels_witness :
  (exists o, outputs (Model [[None; Some 64; Some 48; Some 3]]
                            [[None; Some 64; Some 48; Some 5]] "leap") = [o] /\
             has_channels 5 o) /\
  (exists m, stacked_hourglass [Some 64; Some 48; Some 3] 5 16 false = Ok m).
Proof.
  pose proof (builders_output_channels 5 16 ltac:(lia) ltac:(lia))
    as (Hl & _ & _ & _ & Hex).
  split.
  - exact (Hl [Some 64; Some 48; Some 3] 3 _ eq_refl).
  - refine (proj2 (Hex (Some 64) (Some 48) 3 false _ _ _)).
    + lia.
    + now exists 4.
    + now exists 3.
Defined.

End ModelsFacts.

(** ** get_frames: frame selection *)

Module FramesFacts.
Import Numpy Frames FramesSpec.

Lemma set_last_snoc {A : Type} (l : list A) (x v : A) :
  set_last (l ++ [x]) v = l ++ [v].
Proof.
  unfold set_last. rewrite length_app, Nat.add_1_r. simpl.
  induction l as [|a l IH]; simpl; [reflexivity|].
  destruct l; simpl in *; [reflexivity|]. now f_equal.
Qed.

Lemma Qfloor_step (i K D : Z) :
  (0 < D)%Z ->
  Qfloor (inject_Z i * ((inject_Z K - 0) / inject_Z D) + 0) = (i * K / D)%Z.
Proof.
  intros HD. rewrite Zdiv_Qdiv. apply Qfloor_comp.
  rewrite inject_Z_mult. field.
  intros E. apply (Qeq_bool_neq (inject_Z D) 0); [|exact E].
  unfold Qeq_bool; simpl. apply Z.eqb_neq. lia.
Qed.

Lemma Qfloor_step_denormal (i K D : Z) :
  (0 < D)%Z ->
  Qfloor (inject_Z i / inject_Z D * (inject_Z K - 0) + 0) = (i * K / D)%Z.
Proof.
  intros HD. rewrite Zdiv_Qdiv. apply Qfloor_comp.
  rewrite inject_Z_mult. field.
  intros E. apply (Qeq_bool_neq (inject_Z D) 0); [|exact E].
  unfold Qeq_bool; simpl. apply Z.eqb_neq. lia.
Qed.

Lemma frame_indices_eq (k m : nat) :
  frame_indices unrounded k (Z.of_nat (S (S m))) =
  Ok (map (even_index k (Z.of_nat (S (S m)))) (seq 0 (S m))
        ++ [(Z.of_nat k - 1)%Z]).
Proof.
  unfold frame_indices, linspace, unrounded.
  destruct (Z.ltb_spec (Z.of_nat (S (S m))) 0) as [?|_]; [lia|].
  destruct (Z.ltb_spec 1 (Z.of_nat (S (S m)))) as [_|?]; [|lia].
  rewrite Nat2Z.id. cbn [bind]. f_equal. unfold floor_int.
  rewrite (seq_S (S m) 0), Nat.add_0_l.
  set (D := (Z.of_nat (S (S m)) - 1)%Z).
  assert (HD : (0 < D)%Z) by (unfold D; lia).
  destruct (Qeq_bool _ 0);
    rewrite !map_app; cbn [map]; rewrite set_last_snoc, map_app;
    cbn [map]; rewrite Qfloor_Z; f_equal; rewrite !map_map;
    apply map_ext; intros i; unfold even_index; fold D.
  - now apply Qfloor_step_denormal.
  - now apply Qfloor_step.
Qed.

Lemma frame_indices_one (k : nat) : frame_indices unrounded k 1 = Ok [0%Z].
Proof.
  unfold frame_indices, linspace, unrounded.
  change (1 <? 0)%Z with false. change (1 <? 1)%Z with false.
  reflexivity.
Qed.

Lemma even_index_last (k m : nat) :
  even_index k (Z.of_nat (S (S m))) (S m) = (Z.of_nat k - 1)%Z.
Proof.
  unfold even_index.
  replace (Z.of_nat (S (S m)) - 1)%Z with (Z.of_nat (S m)) by lia.
  rewrite Z.mul_comm. apply Z.div_mul. lia.
Qed.

(** For two or more frames the selection is [floor(i * (k-1) / (n-1))]
    for [i = 0 .. n-1]. *)
Lemma frame_indices_closed (k : nat) (n : Z) :
  (2 <= n)%Z ->
  frame_indices unrounded k n
  = Ok (map (even_index k n) (seq 0 (Z.to_nat n))).
Proof.
  intros Hn. destruct (Z.to_nat n) as [|[|m]] eqn:E; [lia|lia|].
  replace n with (Z.of_nat (S (S m))) by lia.
  rewrite frame_indices_eq, (seq_S (S m) 0), map_app, Nat.add_0_l.
  cbn [map]. now rewrite even_index_last.
Qed.

Lemma lookup_map_seq {A : Type} (f : nat -> A) (n j : nat) (x : A) :
  map f (seq 0 n) !! j = Some x <-> (j < n)%nat /\ x = f j.
Proof.
  change (map f (seq 0 n)) with (f <$> seq 0 n).
  rewrite list_lookup_fmap, fmap_Some. split.
  - intros (i & Hi & ->). apply lookup_seq in Hi. now destruct Hi as [-> ?].
  - intros [Hj ->]. exists j. split; [|reflexivity]. now apply lookup_seq.
Qed.

Lemma even_index_mono (k : nat) (n : Z) (i j : nat) :
  (1 <= k)%nat -> (2 <= n)%Z -> (i <= j)%nat ->
  (even_index k n i <= even_index k n j)%Z.
Proof.
  intros Hk Hn Hij. unfold even_index. apply Z.div_le_mono; [lia|nia].
Qed.

Lemma even_index_range (k : nat) (n : Z) (i : nat) :
  (1 <= k)%nat -> (2 <= n)%Z -> (Z.of_nat i <= n - 1)%Z ->
  (0 <= even_index k n i <= Z.of_nat k - 1)%Z.
Proof.
  intros Hk Hn Hi. unfold even_index. split.
  - apply Z.div_pos; nia.
  - apply Z.div_le_upper_bound; nia.
Qed.

Lemma div_add_gap (a b D : Z) :
  (0 < D)%Z -> (b / D <= (a + b) / D - a / D <= b / D + 1)%Z.
Proof.
  intros HD.
  pose proof (Z.div_mod a D ltac:(lia)) as Ha.
  pose proof (Z.div_mod b D ltac:(lia)) as Hb.
  pose proof (Z.div_mod (a + b) D ltac:(lia)) as Hab.
  pose proof (Z.mod_pos_bound a D HD).
  pose proof (Z.mod_pos_bound b D HD).
  pose proof (Z.mod_pos_bound (a + b) D HD).
  set (qa := (a / D)%Z) in *. set (qb := (b / D)%Z) in *.
  set (qc := ((a + b) / D)%Z) in *.
  set (ra := (a mod D)%Z) in *. set (rb := (b mod D)%Z) in *.
  set (rc := ((a + b) mod D)%Z) in *.
  clearbody qa qb qc ra rb rc.
  assert (D * (qc - qa - qb) = ra + rb - rc)%Z as Hd by lia.
  assert (- 1 < qc - qa - qb < 2)%Z by nia.
  lia.
Qed.

Lemma even_index_gap (k : nat) (n : Z) (i : nat) :
  (2 <= n)%Z ->
  let q := ((Z.of_nat k - 1) / (n - 1))%Z in
  (q <= even_index k n (S i) - even_index k n i <= q + 1)%Z.
Proof.
  intros Hn q. unfold even_index. subst q.
  replace (Z.of_nat (S i) * (Z.of_nat k - 1))%Z
    with (Z.of_nat i * (Z.of_nat k - 1) + (Z.of_nat k - 1))%Z by lia.
  apply div_add_gap. lia.
Qed.

Lemma take_in_range {A : Type} (a : list A) (idx : list Z) :
  Forall (fun i => 0 <= i < Z.of_nat (length a))%Z idx ->
  exists xs, take a idx = Ok xs /\ length xs = length idx /\
             forall j i, idx !! j = Some i -> xs !! j = a !! Z.to_nat i.
Proof.
  induction 1 as [|i idx Hi _ (xs & E & L & P)]; simpl.
  - exists []. repeat split. intros j i Hj. now rewrite lookup_nil in Hj.
  - unfold index1.
    destruct (Z.ltb_spec i (- Z.of_nat (length a))); [lia|].
    destruct (Z.leb_spec (Z.of_nat (length a)) i); [lia|]. cbn [orb].
    destruct (Z.ltb_spec i 0); [lia|].
    destruct (a !! Z.to_nat i) as [x|] eqn:Ex.
    + rewrite E. cbn [bind]. exists (x :: xs). repeat split.
      * simpl. now f_equal.
      * intros [|j] i' Hj; simpl in *; [now injection Hj as <-|now apply P].
    + apply lookup_ge_None in Ex. lia.
Qed.

(** The selection for [n >= 1] frames out of [k >= 1] files, position
    by position. *)
Lemma frame_indices_lookup (k : nat) (n : Z) :
  (1 <= n)%Z ->
  exists idx,
    frame_indices unrounded k n = Ok idx /\
    forall j x, idx !! j = Some x <->
                (j < Z.to_nat n)%nat /\
                x = if (n =? 1)%Z then 0%Z else even_index k n j.
Proof.
  intros Hn. destruct (Z.eqb_spec n 1) as [->|Hne].
  - exists [0%Z]. split; [apply frame_indices_one|].
    intros [|j] x; simpl; [|rewrite lookup_nil]; split.
    + intros [= <-]. split; [lia|reflexivity].
    + now intros [_ ->].
    + discriminate.
    + intros [? _]. lia.
  - eexists. split; [apply frame_indices_closed; lia|].
    intros j x. apply lookup_map_seq.
Qed.

Lemma length_from_lookup {A : Type} (l : list A) (N : nat) :
  (forall j, is_Some (l !! j) <-> (j < N)%nat) -> length l = N.
Proof.
  intros H. pose proof (H (length l)) as H1. pose proof (H N) as H2.
  rewrite lookup_lt_is_Some in H1, H2. lia.
Qed.

(** *** Float arithmetic *)

Section Rounding.
Local Open Scope Q_scope.

Lemma u_bounds : 0 < u /\ u < 1.
Proof. split; reflexivity. Qed.

(** Arithmetic on the exact values has the four properties. *)
Lemma unrounded_binary64 : binary64_rounding unrounded.
Proof.
  split; unfold unrounded.
  - now intros x y H.
  - reflexivity.
  - reflexivity.
  - intros x H0 H1. destruct u_bounds as [Hu _].
    assert (0 <= x) by (eapply Qle_trans; [|exact H0]; discriminate).
    split; nra.
Qed.

Section Rounded.
Variable rnd : Q -> Q.
Hypothesis Hr : binary64_rounding rnd.

Lemma rnd_proper (x y : Q) : x == y -> rnd x == rnd y.
Proof.
  intros E. apply Qle_antisym; apply (rnd_monotone rnd Hr); rewrite E; apply Qle_refl.
Qed.

#[local] Instance rnd_Proper : Proper (Qeq ==> Qeq) rnd.
Proof. exact rnd_proper. Qed.

Lemma rnd_0 : rnd 0 == 0.
Proof. apply (rnd_integer rnd Hr 0). simpl. lia. Qed.

Lemma rnd_nonneg (x : Q) : 0 <= x -> 0 <= rnd x.
Proof. intros H. rewrite <- rnd_0. now apply (rnd_monotone rnd Hr). Qed.

(** Two roundings of a quantity [e] in the range where the relative
    error bound applies. *)
Lemma small_pow : 1 # (2 ^ 1022) <= 1 # (2 ^ 52).
Proof. vm_compute. intros H. discriminate H. Qed.

Lemma big_pow : inject_Z (2 ^ 52) <= inject_Z (2 ^ 1023).
Proof. vm_compute. intros H. discriminate H. Qed.

Lemma rnd_error_mid (x : Q) :
  1 # (2 ^ 52) <= x -> x <= inject_Z (2 ^ 52) ->
  x * (1 - u) <= rnd x /\ rnd x <= x * (1 + u).
Proof.
  intros H0 H1. apply (rnd_error rnd Hr).
  - eapply Qle_trans; [apply small_pow|exact H0].
  - eapply Qle_trans; [exact H1|apply big_pow].
Qed.

Lemma Qfloor_below (v : Q) (z : Z) :
  v < inject_Z (z + 1) -> (Qfloor v <= z)%Z.
Proof.
  intros H. pose proof (Qfloor_le v) as Hf.
  assert (inject_Z (Qfloor v) < inject_Z (z + 1)) as Hlt
    by (eapply Qle_lt_trans; eassumption).
  rewrite <- Zlt_Qlt in Hlt. lia.
Qed.

Lemma Qfloor_above (v : Q) (z : Z) : inject_Z z <= v -> (z <= Qfloor v)%Z.
Proof.
  intros H. rewrite <- (Qfloor_Z z). now apply Qfloor_resp_le.
Qed.

Lemma inject_Z_pos (z : Z) : (0 < z)%Z -> 0 < inject_Z z.
Proof. intros H. change 0 with (inject_Z 0). now rewrite <- Zlt_Qlt. Qed.

Lemma inject_Z_nonneg (z : Z) : (0 <= z)%Z -> 0 <= inject_Z z.
Proof. intros H. change 0 with (inject_Z 0). now rewrite <- Zle_Qle. Qed.

Lemma u_value : u = 1 # 9007199254740992.
Proof. reflexivity. Qed.

Lemma P50_value : inject_Z (2 ^ 50) = 1125899906842624.
Proof. reflexivity. Qed.

Lemma Qinv_facts (b : Z) :
  (1 <= b)%Z -> (b <= 2 ^ 50)%Z ->
  let d := / inject_Z b in
  0 < d /\ d <= 1 /\ 1 <= 1125899906842624 * d /\ inject_Z b * d == 1.
Proof.
  intros Hb Hb50 d.
  assert (HB : 1 <= inject_Z b).
  { change 1 with (inject_Z 1). rewrite <- Zle_Qle. lia. }
  assert (HB50 : inject_Z b <= 1125899906842624).
  { rewrite <- P50_value, <- Zle_Qle. exact Hb50. }
  assert (Hd : 0 < d) by (apply Qinv_lt_0_compat; lra).
  assert (Hdb : inject_Z b * d == 1).
  { unfold d. apply Qmult_inv_r. lra. }
  repeat split; [exact Hd| | |exact Hdb]; nra.
Qed.

(** The value numpy computes at position [i >= 1]: the step is the
    rounded quotient and the product is rounded again. *)
Lemma two_roundings (i a b : Z) :
  (1 <= i)%Z -> (1 <= a)%Z -> (1 <= b)%Z ->
  (i * a <= 2 ^ 50)%Z -> (b <= 2 ^ 50)%Z ->
  let e := inject_Z (i * a) / inject_Z b in
  let v := rnd (inject_Z i * rnd (inject_Z a / inject_Z b)) in
  e * (1 - u) * (1 - u) <= v /\ v <= e * (1 + u) * (1 + u).
Proof.
  intros Hi Ha Hb Hia Hb50 e v.
  destruct (Qinv_facts b Hb Hb50) as (Hd & Hd1 & HdP & Hdb).
  assert (HA1 : 1 <= inject_Z a).
  { change 1 with (inject_Z 1). rewrite <- Zle_Qle. lia. }
  assert (HI1 : 1 <= inject_Z i).
  { change 1 with (inject_Z 1). rewrite <- Zle_Qle. lia. }
  assert (HIA : inject_Z i * inject_Z a <= 1125899906842624).
  { rewrite <- P50_value, <- inject_Z_mult, <- Zle_Qle. exact Hia. }
  assert (He : e == inject_Z i * inject_Z a * / inject_Z b).
  { unfold e. now rewrite inject_Z_mult. }
  unfold Qdiv in v. set (d := / inject_Z b) in *.
  set (A := inject_Z a) in *. set (I := inject_Z i) in *.
  assert (HAd : A * d <= A) by nra.
  assert (HAI : A <= I * A) by nra.
  destruct (rnd_error_mid (A * d)) as [Hs0 Hs1].
  { change (1 # 2 ^ 52) with (1 # 4503599627370496). nra. }
  { change (inject_Z (2 ^ 52)) with 4503599627370496. lra. }
  set (s := rnd (A * d)) in *.
  rewrite u_value in *.
  assert (Hs_lo : A * d * (1 # 2) <= s) by nra.
  assert (Hs_hi : s <= A * d * 2) by nra.
  assert (HIs_lo : s <= I * s) by nra.
  assert (HIs_hi : I * s <= I * (A * d * 2)) by nra.
  assert (HIAd : I * (A * d) <= 1125899906842624) by nra.
  destruct (rnd_error_mid (I * s)) as [Hv0 Hv1].
  { change (1 # 2 ^ 52) with (1 # 4503599627370496). nra. }
  { change (inject_Z (2 ^ 52)) with 4503599627370496. lra. }
  fold v in Hv0, Hv1. rewrite u_value in Hv0, Hv1.
  assert (H1 : I * (A * d * (1 - (1 # 9007199254740992))) <= I * s) by nra.
  assert (H2 : I * s <= I * (A * d * (1 + (1 # 9007199254740992)))) by nra.
  rewrite He. split; nra.
Qed.

(** Its floor is the floor of the exact value, or one less when the
    exact value is an integer. *)
Lemma floor_two_roundings (i a b : Z) (v : Q) :
  (1 <= i)%Z -> (1 <= a)%Z -> (1 <= b)%Z ->
  (i * a <= 2 ^ 50)%Z -> (b <= 2 ^ 50)%Z ->
  let e := inject_Z (i * a) / inject_Z b in
  e * (1 - u) * (1 - u) <= v -> v <= e * (1 + u) * (1 + u) ->
  ((i * a) / b - 1 <= Qfloor v <= (i * a) / b)%Z /\
  (((i * a) mod b <> 0)%Z -> Qfloor v = ((i * a) / b)%Z).
Proof.
  intros Hi Ha Hb Hia Hb50 e Hlo Hhi.
  destruct (Qinv_facts b Hb Hb50) as (Hd & Hd1 & HdP & Hdb).
  pose proof (Z.div_mod (i * a) b ltac:(lia)) as Hdm.
  pose proof (Z.mod_pos_bound (i * a) b ltac:(lia)) as Hrm.
  set (q := ((i * a) / b)%Z) in *. set (r := ((i * a) mod b)%Z) in *.
  set (d := / inject_Z b) in *.
  assert (He : e == inject_Z q + inject_Z r * d).
  { unfold e. rewrite Hdm, inject_Z_plus, inject_Z_mult. unfold Qdiv. fold d.
    assert (Hx : (inject_Z b * inject_Z q + inject_Z r) * d
                 == inject_Z q * (inject_Z b * d) + inject_Z r * d) by ring.
    rewrite Hx, Hdb. ring. }
  assert (Hr0 : 0 <= inject_Z r) by (apply inject_Z_nonneg; lia).
  assert (Hrb : inject_Z r <= inject_Z b - 1).
  { assert (Hx : inject_Z b - 1 == inject_Z (b - 1)).
    { unfold Zminus. rewrite inject_Z_plus. reflexivity. }
    rewrite Hx, <- Zle_Qle. lia. }
  assert (Hrd : inject_Z r * d <= 1 - d) by nra.
  assert (Hrd0 : 0 <= inject_Z r * d) by nra.
  assert (Hrd1 : 1 <= inject_Z r -> d <= inject_Z r * d) by (intros; nra).
  assert (HeP : e <= 1125899906842624 * d).
  { unfold e, Qdiv. fold d.
    assert (inject_Z (i * a) <= 1125899906842624)
      by (rewrite <- P50_value, <- Zle_Qle; exact Hia).
    nra. }
  assert (He0 : 0 <= e).
  { rewrite He. assert (0 <= inject_Z q); [|lra].
    apply inject_Z_nonneg. apply Z.div_pos; nia. }
  rewrite u_value in Hlo, Hhi.
  set (rd := inject_Z r * d) in *.
  assert (Hlo' : e - (1 # 4503599627370496) * e <= v).
  { eapply Qle_trans; [|exact Hlo]. clear - He0. nra. }
  assert (Hhi' : v <= e + (3 # 9007199254740992) * e).
  { eapply Qle_trans; [exact Hhi|]. clear - He0. nra. }
  clear Hlo Hhi. clearbody e rd.
  assert (Hone : (r <> 0)%Z -> 1 <= inject_Z r).
  { intros Hne. change 1 with (inject_Z 1). rewrite <- Zle_Qle. lia. }
  split; [split|].
  - apply Qfloor_above. unfold Zminus.
    rewrite inject_Z_plus, inject_Z_opp. change (inject_Z 1) with 1.
    generalize dependent (inject_Z q). intros qQ; intros. lra.
  - apply Qfloor_below. rewrite inject_Z_plus. change (inject_Z 1) with 1.
    generalize dependent (inject_Z q). intros qQ; intros. lra.
  - intros Hne. specialize (Hone Hne). apply Z.le_antisymm.
    + apply Qfloor_below. rewrite inject_Z_plus. change (inject_Z 1) with 1.
      generalize dependent (inject_Z q). intros qQ; intros. lra.
    + apply Qfloor_above.
      generalize dependent (inject_Z q). intros qQ; intros. lra.
Qed.

Lemma rnd_small_integer (z : Z) :
  (0 <= z <= 2 ^ 50)%Z -> rnd (inject_Z z) == inject_Z z.
Proof.
  intros H. apply (rnd_integer rnd Hr). rewrite Z.abs_eq by lia.
  change (2 ^ 50)%Z with 1125899906842624%Z in H.
  change (2 ^ 53)%Z with 9007199254740992%Z. lia.
Qed.

(** The indices read off a list of values whose last one is replaced
    by the end point. *)
Lemma lookup_floor_set_last (g : nat -> Q) (N : nat) (v : Q) (j : nat)
    (x : Z) :
  floor_int (set_last (map g (seq 0 N)) v) !! j = Some x <->
  (j < N)%nat /\ x = if (S j =? N)%nat then Qfloor v else Qfloor (g j).
Proof.
  unfold floor_int, set_last. rewrite length_map, length_seq.
  change (map Qfloor ?l) with (Qfloor <$> l).
  rewrite list_lookup_fmap, fmap_Some. split.
  - intros (y & Hy & ->). apply list_lookup_insert_Some in Hy.
    destruct Hy as [(Hj & <- & Hlen)|(Hne & Hy)].
    + rewrite length_map, length_seq in Hlen. split; [exact Hlen|].
      destruct (Nat.eqb_spec (S j) N); [reflexivity|lia].
    + apply lookup_map_seq in Hy. destruct Hy as [Hj ->].
      split; [exact Hj|]. destruct (Nat.eqb_spec (S j) N); [lia|reflexivity].
  - intros [Hj ->]. destruct (Nat.eqb_spec (S j) N) as [E|E].
    + exists v. split; [|reflexivity]. apply list_lookup_insert_Some.
      left. rewrite length_map, length_seq. repeat split; lia.
    + exists (g j). split; [|reflexivity]. apply list_lookup_insert_Some.
      right. split; [lia|]. now apply lookup_map_seq.
Qed.

Section Indices.
Variable k : nat.
Variable n : Z.
Hypothesis Hk : (1 <= k)%nat.
Hypothesis Hn : (2 <= n)%Z.
Hypothesis Hsize : (Z.of_nat k * n <= 2 ^ 50)%Z.

Let a : Z := (Z.of_nat k - 1)%Z.
Let b : Z := (n - 1)%Z.

(** The value at position [j], the two roundings left after the exact
    steps are simplified. *)
Let W (j : nat) : Q :=
  if (a =? 0)%Z then 0
  else rnd (inject_Z (Z.of_nat j) * rnd (inject_Z a / inject_Z b)).

Lemma size_facts :
  (0 <= a)%Z /\ (1 <= b)%Z /\ (a <= 2 ^ 50)%Z /\ (b <= 2 ^ 50)%Z /\
  (n <= 2 ^ 50)%Z /\
  forall j : nat, (Z.of_nat j <= b)%Z -> (Z.of_nat j * a <= 2 ^ 50)%Z.
Proof.
  unfold a, b. change (2 ^ 50)%Z with 1125899906842624%Z in *.
  repeat split; try nia.
Qed.

Lemma step_positive : (1 <= a)%Z -> 0 < rnd (inject_Z a / inject_Z b).
Proof.
  intros Ha. destruct size_facts as (_ & Hb & Ha50 & Hb50 & _).
  destruct (Qinv_facts b Hb Hb50) as (Hd & Hd1 & HdP & Hdb).
  assert (HA1 : 1 <= inject_Z a).
  { change 1 with (inject_Z 1). rewrite <- Zle_Qle. lia. }
  assert (HA50 : inject_Z a <= 1125899906842624).
  { rewrite <- P50_value, <- Zle_Qle. exact Ha50. }
  unfold Qdiv. set (d := / inject_Z b) in *.
  destruct (rnd_error_mid (inject_Z a * d)) as [Hs0 _].
  { change (1 # 2 ^ 52) with (1 # 4503599627370496). nra. }
  { change (inject_Z (2 ^ 52)) with 4503599627370496. nra. }
  rewrite u_value in Hs0. nra.
Qed.

Lemma W_floor (j : nat) :
  (Z.of_nat j <= b)%Z ->
  (even_index k n j - 1 <= Qfloor (W j) <= even_index k n j)%Z /\
  (((Z.of_nat j * a) mod b <> 0)%Z -> Qfloor (W j) = even_index k n j).
Proof.
  intros Hj. destruct size_facts as (Ha0 & Hb & Ha50 & Hb50 & _ & Hja).
  unfold W, even_index. fold a b.
  destruct (Z.eqb_spec a 0) as [E|E].
  - rewrite E, Z.mul_0_r, Z.div_0_l, Z.mod_0_l by lia.
    change (Qfloor 0) with 0%Z. split; [lia|]. intros H. now elim H.
  - destruct (Z.eq_dec (Z.of_nat j) 0%Z) as [E0|E0].
    + rewrite E0, Z.mul_0_l, Z.div_0_l, Z.mod_0_l by lia.
      assert (rnd (inject_Z 0 * rnd (inject_Z a / inject_Z b)) == 0) as ->.
      { rewrite Qmult_0_l. exact rnd_0. }
      change (Qfloor 0) with 0%Z. split; [lia|]. intros H. now elim H.
    + destruct (two_roundings (Z.of_nat j) a b) as [Hlo Hhi];
        [lia|lia|lia|now apply Hja|lia|].
      apply floor_two_roundings; try assumption; try lia. now apply Hja.
Qed.

Lemma W_monotone (i j : nat) : (i <= j)%nat -> W i <= W j.
Proof.
  intros Hij. unfold W. destruct (a =? 0)%Z; [apply Qle_refl|].
  apply (rnd_monotone rnd Hr).
  assert (0 <= rnd (inject_Z a / inject_Z b)) as Hs.
  { apply rnd_nonneg. destruct size_facts as (Ha0 & Hb & _).
    apply Qle_shift_div_l; [apply inject_Z_pos; lia|].
    rewrite Qmult_0_l. apply inject_Z_nonneg. lia. }
  assert (inject_Z (Z.of_nat i) <= inject_Z (Z.of_nat j))
    by (rewrite <- Zle_Qle; lia).
  nra.
Qed.

(** What [linspace] computes at each position equals [W] there. *)
Lemma linspace_values :
  exists V : nat -> Q,
    linspace rnd 0 (inject_Z a) n
    = Ok (set_last (map V (seq 0 (Z.to_nat n))) (rnd (inject_Z a))) /\
    forall j, (Z.of_nat j <= b)%Z -> V j == W j.
Proof.
  destruct size_facts as (Ha0 & Hb & Ha50 & Hb50 & Hn50 & _).
  unfold linspace.
  destruct (Z.ltb_spec n 0) as [?|_]; [lia|].
  destruct (Z.ltb_spec 1 n) as [_|?]; [|lia].
  fold b.
  assert (Estart : rnd 0 == 0) by exact rnd_0.
  assert (Estop : rnd (inject_Z a) == inject_Z a)
    by (apply rnd_small_integer; lia).
  assert (Ediv : rnd (inject_Z b) == inject_Z b)
    by (apply rnd_small_integer; lia).
  assert (Edelta : rnd (rnd (inject_Z a) - rnd 0) == inject_Z a).
  { rewrite Estart, Estop.
    assert (inject_Z a - 0 == inject_Z a) as -> by ring. exact Estop. }
  set (step := rnd (rnd (rnd (inject_Z a) - rnd 0) / rnd (inject_Z b))).
  assert (Estep : step == rnd (inject_Z a / inject_Z b)).
  { unfold step. now rewrite Edelta, Ediv. }
  assert (Epos : forall j : nat, (Z.of_nat j <= b)%Z ->
                   rnd (inject_Z (Z.of_nat j)) == inject_Z (Z.of_nat j)).
  { intros j Hj. apply rnd_small_integer. lia. }
  destruct (Qeq_bool step 0) eqn:Ez.
  - apply Qeq_bool_iff in Ez.
    assert (a = 0)%Z as Ea.
    { destruct (Z.eq_dec a 0%Z) as [|Hne]; [assumption|]. exfalso.
      pose proof (step_positive ltac:(lia)) as Hp.
      rewrite <- Estep, Ez in Hp. now apply Qlt_irrefl in Hp. }
    eexists. split.
    + rewrite !map_map. reflexivity.
    + intros j Hj. cbv beta. rewrite Edelta. unfold W. rewrite Ea.
      cbn [Z.eqb]. change (inject_Z 0) with 0.
      rewrite Qmult_0_r, !Estart. reflexivity.
  - assert (a <> 0)%Z as Ea.
    { intros Ea. apply Qeq_bool_neq in Ez. apply Ez. rewrite Estep, Ea.
      change (inject_Z 0) with 0. unfold Qdiv. rewrite Qmult_0_l.
      exact rnd_0. }
    eexists. split.
    + rewrite !map_map. reflexivity.
    + intros j Hj. cbv beta. unfold W.
      destruct (Z.eqb_spec a 0) as [|_]; [contradiction|].
      rewrite Estart, (Epos j Hj), Estep, Qplus_0_r.
      apply (rnd_idempotent rnd Hr).
Qed.

(** The indices for two or more frames. *)
Lemma frame_indices_rounded :
  exists idx,
    frame_indices rnd k n = Ok idx /\
    length idx = Z.to_nat n /\
    (forall j x, idx !! j = Some x ->
       (even_index k n j - 1 <= x <= even_index k n j)%Z /\
       (((Z.of_nat j * (Z.of_nat k - 1)) mod (n - 1) <> 0)%Z ->
        x = even_index k n j)) /\
    idx !! 0%nat = Some 0%Z /\
    last idx = Some (Z.of_nat k - 1)%Z /\
    (forall i j x y, (i <= j)%nat ->
       idx !! i = Some x -> idx !! j = Some y -> (x <= y)%Z).
Proof.
  destruct size_facts as (Ha0 & Hb & Ha50 & Hb50 & Hn50 & Hja).
  destruct linspace_values as (V & E & HV).
  assert (Estop : Qfloor (rnd (inject_Z a)) = a).
  { rewrite (Qfloor_comp _ (inject_Z a)) by (apply rnd_small_integer; lia).
    apply Qfloor_Z. }
  assert (Hlook : forall j x,
             floor_int (set_last (map V (seq 0 (Z.to_nat n)))
                          (rnd (inject_Z a))) !! j = Some x <->
             (j < Z.to_nat n)%nat /\
             x = if (S j =? Z.to_nat n)%nat then a else Qfloor (W j)).
  { intros j x. rewrite lookup_floor_set_last, Estop.
    split; intros [Hj ->]; (split; [exact Hj|]);
      destruct (S j =? Z.to_nat n)%nat; try reflexivity;
      [apply Qfloor_comp|symmetry; apply Qfloor_comp]; apply HV; unfold b; lia. }
  assert (Hlast : even_index k n (Z.to_nat n - 1) = a).
  { unfold even_index. fold a b.
    replace (Z.of_nat (Z.to_nat n - 1)) with b by (unfold b; lia).
    rewrite Z.mul_comm. apply Z.div_mul. lia. }
  assert (Hval : forall j x,
             (j < Z.to_nat n)%nat ->
             x = (if (S j =? Z.to_nat n)%nat then a else Qfloor (W j)) ->
             (even_index k n j - 1 <= x <= even_index k n j)%Z /\
             (((Z.of_nat j * a) mod b <> 0)%Z -> x = even_index k n j)).
  { intros j x Hj ->. destruct (Nat.eqb_spec (S j) (Z.to_nat n)) as [Ej|Ej].
    - replace j with (Z.to_nat n - 1)%nat by lia. rewrite Hlast.
      split; [lia|reflexivity].
    - apply W_floor. unfold b. lia. }
  eexists. split; [unfold frame_indices; fold a; rewrite E; reflexivity|].
  split; [|split; [|split; [|split]]].
  - unfold floor_int, set_last.
    now rewrite length_map, length_insert, length_map, length_seq.
  - intros j x Hx. apply Hlook in Hx. destruct Hx as [Hj Hx].
    now apply Hval.
  - apply Hlook. split; [lia|].
    destruct (Nat.eqb_spec 1 (Z.to_nat n)); [lia|].
    destruct (W_floor 0 ltac:(lia)) as [_ H0].
    unfold W. destruct (Z.eqb_spec a 0); [reflexivity|].
    rewrite (Qfloor_comp _ 0); [reflexivity|].
    change (inject_Z (Z.of_nat 0)) with 0. rewrite Qmult_0_l. exact rnd_0.
  - rewrite last_lookup. apply Hlook.
    assert (length (floor_int (set_last (map V (seq 0 (Z.to_nat n)))
                                 (rnd (inject_Z a)))) = Z.to_nat n) as ->.
    { unfold floor_int, set_last.
      now rewrite length_map, length_insert, length_map, length_seq. }
    split; [lia|]. destruct (Nat.eqb_spec (S (Nat.pred (Z.to_nat n))) (Z.to_nat n));
      [reflexivity|lia].
  - intros i j x y Hij Hx Hy. apply Hlook in Hx, Hy.
    destruct Hx as [Hi ->], Hy as [Hj ->].
    destruct (Nat.eqb_spec (S j) (Z.to_nat n)) as [Ej|Ej].
    + destruct (Nat.eqb_spec (S i) (Z.to_nat n)) as [Ei|Ei]; [lia|].
      destruct (W_floor i ltac:(unfold b; lia)) as [[_ Hle] _].
      etransitivity; [exact Hle|]. unfold even_index. fold a b.
      apply Z.div_le_upper_bound; [lia|]. 
      assert (Z.of_nat i <= b)%Z by (unfold b; lia). nia.
    + destruct (Nat.eqb_spec (S i) (Z.to_nat n)) as [Ei|Ei]; [lia|].
      apply Qfloor_resp_le. now apply W_monotone.
Qed.

(** With as many frames as files the step is exactly 1, and position
    [j] holds [j]. *)
Lemma frame_indices_same :
  Z.of_nat k = n -> frame_indices rnd k n = Ok (map Z.of_nat (seq 0 k)).
Proof.
  intros Hkn.
  destruct size_facts as (Ha0 & Hb & Ha50 & Hb50 & Hn50 & Hja).
  destruct linspace_values as (V & E & HV).
  assert (Hab : a = b) by (unfold a, b; lia).
  assert (HW : forall j : nat,
             (Z.of_nat j <= b)%Z -> Qfloor (V j) = Z.of_nat j).
  { intros j Hj.
    rewrite (Qfloor_comp _ (inject_Z (Z.of_nat j))); [apply Qfloor_Z|].
    rewrite (HV j Hj). unfold W.
    destruct (Z.eqb_spec a 0) as [?|_]; [lia|]. rewrite Hab.
    assert (Hone : inject_Z b / inject_Z b == 1).
    { field. intros H0. pose proof (inject_Z_pos b ltac:(lia)) as Hp.
      rewrite H0 in Hp. now apply Qlt_irrefl in Hp. }
    rewrite Hone.
    assert (Hr1 : rnd 1 == 1) by (apply (rnd_small_integer 1); lia).
    rewrite Hr1, Qmult_1_r. apply rnd_small_integer. lia. }
  unfold frame_indices. fold a. rewrite E. cbn [bind]. f_equal.
  apply list_eq. intros j.
  destruct (floor_int (set_last (map V (seq 0 (Z.to_nat n)))
                         (rnd (inject_Z a))) !! j) as [x|] eqn:L1.
  - apply lookup_floor_set_last in L1. destruct L1 as [Hj ->].
    symmetry. apply lookup_map_seq. split; [lia|].
    destruct (Nat.eqb_spec (S j) (Z.to_nat n)) as [Ej|Ej].
    + rewrite (Qfloor_comp _ (inject_Z a)) by (apply rnd_small_integer; lia).
      rewrite Qfloor_Z. unfold a. lia.
    + apply HW. unfold b. lia.
  - symmetry. apply lookup_ge_None. apply lookup_ge_None in L1.
    unfold floor_int, set_last in L1.
    rewrite length_map, length_insert, length_map, length_seq in L1.
    rewrite length_map, length_seq. lia.
Qed.

End Indices.

End Rounded.

End Rounding.

(** A single frame: the index is 0 however the arithmetic rounds. *)
Lemma frame_indices_single (rnd : Q -> Q) (k : nat) :
  binary64_rounding rnd -> frame_indices rnd k 1 = Ok [0%Z].
Proof.
  intros Hr. unfold frame_indices, linspace.
  change (1 <? 0)%Z with false. change (1 <? 1)%Z with false.
  change (Z.to_nat 1) with 1%nat. cbn [seq map bind floor_int].
  rewrite (Qfloor_comp _ 0%Q); [reflexivity|].
  pose proof (rnd_0 rnd Hr) as E0.
  assert (P : Proper (Qeq ==> Qeq) rnd) by exact (rnd_proper rnd Hr).
  change (inject_Z (Z.of_nat 0)) with 0%Q.
  rewrite E0, Qmult_0_l, E0, Qplus_0_l. exact E0.
Qed.

(** What an integer [frame_numbers = n >= 1] selects out of [k >= 1]
    files, in float arithmetic: the indices, the files at those indices,
    and where each index lies. *)
Lemma frame_selection (rnd : Q -> Q) (files : list string) (n : Z) :
  binary64_rounding rnd ->
  (1 <= length files)%nat -> (1 <= n)%Z ->
  (Z.of_nat (length files) * n <= 2 ^ 50)%Z ->
  exists idx fl,
    frame_indices rnd (length files) n = Ok idx /\
    load_files rnd files (FInt n) = Ok fl /\
    length idx = Z.to_nat n /\
    length fl = length idx /\
    (forall j i, idx !! j = Some i -> fl !! j = files !! Z.to_nat i) /\
    (n = 1 -> idx = [0]) /\
    (2 <= n -> forall j x, idx !! j = Some x ->
       even_index (length files) n j - 1 <= x
                                         <= even_index (length files) n j /\
       ((Z.of_nat j * (Z.of_nat (length files) - 1)) mod (n - 1) <> 0 ->
        x = even_index (length files) n j)) /\
    head idx = Some 0 /\
    (2 <= n -> last idx = Some (Z.of_nat (length files) - 1)) /\
    (forall i j x y, (i <= j)%nat ->
       idx !! i = Some x -> idx !! j = Some y -> x <= y) /\
    (forall j x, idx !! j = Some x ->
       0 <= x <= Z.of_nat (length files) - 1).
Proof.
  intros Hr Hk Hn Hsize. set (k := length files) in *.
  assert (exists idx,
    frame_indices rnd k n = Ok idx /\
    length idx = Z.to_nat n /\
    (n = 1 -> idx = [0]) /\
    (2 <= n -> forall j x, idx !! j = Some x ->
       even_index k n j - 1 <= x <= even_index k n j /\
       ((Z.of_nat j * (Z.of_nat k - 1)) mod (n - 1) <> 0 ->
        x = even_index k n j)) /\
    head idx = Some 0 /\
    (2 <= n -> last idx = Some (Z.of_nat k - 1)) /\
    (forall i j x y, (i <= j)%nat ->
       idx !! i = Some x -> idx !! j = Some y -> x <= y) /\
    (forall j x, idx !! j = Some x -> 0 <= x <= Z.of_nat k - 1))
    as (idx & E & L & H1 & H2 & Hhead & Hlast & Hmono & Hrange).
  { destruct (Z.eq_dec n 1) as [->|Hn1].
    - exists [0]. split; [now apply frame_indices_single|].
      split; [reflexivity|]. split; [reflexivity|]. split; [lia|].
      split; [reflexivity|]. split; [lia|]. split.
      + intros [|i] [|j] x y _ Hx Hy; simpl in *; try discriminate.
        injection Hx as <-. injection Hy as <-. lia.
      + intros [|j] x Hx; simpl in *; [|discriminate].
        injection Hx as <-. lia.
    - destruct (frame_indices_rounded rnd Hr k n Hk ltac:(lia) Hsize)
        as (idx & E & L & Hb & H0 & Hl & Hm).
      exists idx. split; [exact E|]. split; [exact L|].
      split; [lia|]. split; [intros _; exact Hb|].
      split; [now rewrite head_lookup|]. split; [intros _; exact Hl|].
      split; [exact Hm|].
      intros j x Hx. rewrite last_lookup in Hl.
      assert (j <= Nat.pred (length idx))%nat.
      { apply lookup_lt_Some in Hx. lia. }
      split.
      + apply (Hm 0%nat j 0 x); [lia|exact H0|exact Hx].
      + apply (Hm j (Nat.pred (length idx)) x _); [lia|exact Hx|exact Hl]. }
  destruct (take_in_range files idx) as (fl & Efl & Lfl & Pfl).
  { apply Forall_lookup. intros j x Hx. apply Hrange in Hx. fold k. lia. }
  exists idx, fl. split; [exact E|]. split.
  { unfold load_files. fold k. rewrite E. exact Efl. }
  repeat (split; [assumption|]). assumption.
Qed.

(** C8, amended. In float arithmetic that rounds to nearest, for a
    folder with [k >= 1] [.tif] files and an integer
    [frame_numbers = n >= 1] with [k * n <= 2 ^ 50], [get_frames]
    selects exactly [n] files, at the indices
    [floor(linspace(0, k-1, n))]. For [n = 1] the single index is 0. For
    [n >= 2] the index at position [i] is [floor(i * (k-1) / (n-1))],
    or one less, which can only happen where [i * (k-1) / (n-1)] is an
    integer and the two roundings of [linspace] fall short of it. The
    first index is 0; the last is [k-1] when [n >= 2]; the indices are
    non-decreasing and lie in [0, k-1]. *)
Theorem get_frames_even_spacing (rnd : Q -> Q) (fs : filesystem)
    (folder : string) (n : Z) :
  binary64_rounding rnd ->
  let files := glob_tif fs folder in
  let k := length files in
  (1 <= k)%nat -> (1 <= n)%Z -> (Z.of_nat k * n <= 2 ^ 50)%Z ->
  exists idx fl,
    frame_indices rnd k n = Ok idx /\
    load_files rnd files (FInt n) = Ok fl /\
    Z.of_nat (length idx) = n /\
    length fl = length idx /\
    (forall j i, idx !! j = Some i -> fl !! j = files !! Z.to_nat i) /\
    (n = 1 -> idx = [0]) /\
    (2 <= n -> forall j x, idx !! j = Some x ->
       even_index k n j - 1 <= x <= even_index k n j /\
       ((Z.of_nat j * (Z.of_nat k - 1)) mod (n - 1) <> 0 ->
        x = even_index k n j)) /\
    head idx = Some 0 /\
    (2 <= n -> last idx = Some (Z.of_nat k - 1)) /\
    (forall i j x y, (i <= j)%nat ->
       idx !! i = Some x -> idx !! j = Some y -> x <= y) /\
    (forall j x, idx !! j = Some x -> 0 <= x <= Z.of_nat k - 1).
Proof.
  intros Hr files k Hk Hn Hsize.
  destruct (frame_selection rnd files n Hr Hk Hn Hsize)
    as (idx & fl & E & Efl & L & Lfl & Pfl & H).
  exists idx, fl. split; [exact E|]. split; [exact Efl|].
  split; [lia|]. split; [exact Lfl|]. split; [exact Pfl|exact H].
Qed.

(** Three files, five frames requested, in exact arithmetic: the
    first index is 0 and the last is 2. *)
Lemma get_frames_even_spacing_witness :
  exists idx fl,
    frame_indices unrounded 3 5 = Ok idx /\
    load_files unrounded ["data/a.tif"; "data/b.tif"; "data/c.tif"]%string
               (FInt 5) = Ok fl /\
    Z.of_nat (length idx) = 5 /\ head idx = Some 0 /\ last idx = Some 2.
Proof.
  destruct (get_frames_even_spacing unrounded
              (one_folder "data" ["a.tif"; "notes.txt"; "b.tif"; "c.tif"])
              "data" 5 unrounded_binary64)
    as (idx & fl & H1 & H2 & H3 & _ & _ & _ & _ & H8 & H9 & _).
  - simpl. lia.
  - lia.
  - vm_compute. intros H. discriminate H.
  - exists idx, fl. repeat split; try assumption. apply H9. lia.
Defined.

(** C8 as stated fails for a single requested frame: with three files
    and [frame_numbers = 1] the only index selected is 0, so the last
    selected index is not [k - 1 = 2]. *)
Lemma get_frames_single_frame_last :
  frame_indices unrounded 3 1 = Ok [0%Z] /\
  last [0%Z] <> Some (Z.of_nat 3 - 1)%Z.
Proof. split; [reflexivity|discriminate]. Qed.

(** Float rounding is visible: with 31 files and 23 frames the value
    of [linspace] at position 11 is 14.999999999999998 in float64, and
    the code selects file 14 where the exact quotient 11 * 30 / 22 is
    15. *)
Example get_frames_rounded_down :
  exists idx,
    frame_indices round64 31 23 = Ok idx /\
    idx !! 11%nat = Some 14%Z /\
    even_index 31 23 11 = 15%Z.
Proof. eexists. split; [vm_compute; reflexivity|]. split; reflexivity. Qed.

Lemma index1_ok {A : Type} (a : list A) (i : Z) :
  (- Z.of_nat (length a) <= i < Z.of_nat (length a))%Z ->
  exists x, index1 a i = Ok x.
Proof.
  intros Hi. unfold index1.
  destruct (Z.ltb_spec i (- Z.of_nat (length a))); [lia|].
  destruct (Z.leb_spec (Z.of_nat (length a)) i); [lia|]. cbn [orb].
  destruct (a !! _) as [x|] eqn:Ex; [now exists x|].
  apply lookup_ge_None in Ex. destruct (Z.ltb_spec i 0); lia.
Qed.

Lemma take_ok {A : Type} (a : list A) (idx : list Z) :
  Forall (fun i => - Z.of_nat (length a) <= i < Z.of_nat (length a))%Z idx ->
  exists xs, take a idx = Ok xs /\ length xs = length idx.
Proof.
  induction 1 as [|i idx Hi _ (xs & E & L)]; simpl.
  - now exists [].
  - destruct (index1_ok a i Hi) as (x & ->). rewrite E. cbn [bind].
    exists (x :: xs). simpl. now rewrite L.
Qed.

Lemma index1_not_IOError {A : Type} (a : list A) (i : Z) :
  index1 a i <> Raise IOError.
Proof.
  unfold index1. destruct (_ || _); [discriminate|].
  destruct (a !! _); discriminate.
Qed.

Lemma take_not_IOError {A : Type} (a : list A) (idx : list Z) :
  take a idx <> Raise IOError.
Proof.
  induction idx as [|i idx IH]; simpl; [discriminate|].
  pose proof (index1_not_IOError a i).
  destruct (index1 a i) as [x|e]; simpl; [|congruence].
  destruct (take a idx) as [xs|e]; simpl; [discriminate|congruence].
Qed.

Lemma load_files_not_IOError (rnd : Q -> Q) (files : list string)
    (fn : frame_numbers) :
  load_files rnd files fn <> Raise IOError.
Proof.
  destruct fn as [|l|n]; simpl; [discriminate|apply take_not_IOError|].
  unfold frame_indices, linspace. destruct (n <? 0)%Z; [discriminate|].
  cbn [bind]. apply take_not_IOError.
Qed.

Lemma has_magic_rstrip (s : string) :
  has_magic (rstrip_slash s) = has_magic s.
Proof.
  induction s as [|c s IH]; [reflexivity|]. cbn [rstrip_slash has_magic].
  destruct (rstrip_slash s) as [|c' r] eqn:E.
  - rewrite <- IH. cbn [has_magic]. rewrite orb_false_r.
    destruct (Ascii.eqb_spec c "/"%char) as [->|_]; [reflexivity|].
    cbn [has_magic]. now rewrite orb_false_r.
  - cbn [has_magic]. cbn [has_magic] in IH. now rewrite IH.
Qed.

Lemma has_magic_dirname (folder : string) :
  has_magic (dirname folder) = has_magic folder.
Proof.
  unfold dirname. pose proof (has_magic_rstrip folder) as H.
  destruct (rstrip_slash folder); [reflexivity|exact H].
Qed.

(** For a folder path without pattern characters [glob] lists the
    folder itself. *)
Lemma glob_tif_plain (fs : filesystem) (folder : string) :
  has_magic folder = false ->
  glob_tif fs folder
  = map (path_join (dirname folder))
        (filter matches_tif (scandir fs (dirname folder))).
Proof.
  intros H. unfold glob_tif, glob_dirs. rewrite has_magic_dirname, H.
  cbn [flat_map]. apply app_nil_r.
Qed.

Lemma filter_nil_iff {A : Type} (f : A -> bool) (l : list A) :
  filter f l = [] <-> Forall (fun x => f x = false) l.
Proof.
  induction l as [|x l IH]; [split; [constructor|reflexivity]|].
  rewrite filter_cons. destruct (f x) eqn:E.
  - destruct (decide (Is_true true)) as [_|H]; [|now elim H]. split.
    + discriminate.
    + intros H. apply Forall_cons in H. destruct H as [H _]. congruence.
  - destruct (decide (Is_true false)) as [H|_]; [now elim H|].
    rewrite IH. split.
    + intros H. now constructor.
    + intros H. apply Forall_cons in H. tauto.
Qed.

Section ReadableFrames.
Context {stack : Type}.
Variable rnd : Q -> Q.
Variable imread : list string -> result stack.

(** Float arithmetic rounds to nearest. [tifffile.imread] refuses an
    empty list of paths with "no files found", and the matched files
    are readable frames of one size. *)
Hypothesis rounding : binary64_rounding rnd.
Hypothesis imread_empty : imread [] = Raise ValueError.
Hypothesis imread_reads : forall fl, fl <> [] -> exists s, imread fl = Ok s.

Lemma imread_not_IOError (fl : list string) : imread fl <> Raise IOError.
Proof.
  destruct fl as [|f fl]; [rewrite imread_empty; discriminate|].
  destruct (imread_reads (f :: fl)) as (s & ->); discriminate.
Qed.

(** C9, amended. [get_frames] raises [IOError] exactly when [glob]
    finds no path; for a folder path without the pattern characters
    [*], [?] and [[], that is exactly when no entry of the folder
    matches [*.tif]. When some path is found and [frame_numbers] is
    [None], a non-empty list of indices within [-k, k), or an integer
    [n >= 1] with [k * n <= 2 ^ 50], it returns the stack that was
    read. *)
Theorem get_frames_IOError_iff (fs : filesystem) (folder : string)
    (fn : frame_numbers) :
  let k := length (glob_tif fs folder) in
  (get_frames rnd imread fs folder fn = Raise IOError <->
   glob_tif fs folder = []) /\
  (has_magic folder = false ->
   (glob_tif fs folder = [] <->
    Forall (fun entry => matches_tif entry = false)
           (scandir fs (dirname folder)))) /\
  (glob_tif fs folder <> [] -> servable k fn ->
   (forall n, fn = FInt n -> Z.of_nat k * n <= 2 ^ 50) ->
   exists s, get_frames rnd imread fs folder fn = Ok s).
Proof.
  intros k. subst k. unfold get_frames. split; [split|split].
  - destruct (glob_tif fs folder) as [|f files] eqn:G; [reflexivity|].
    cbn [length Nat.eqb]. intros H. exfalso.
    pose proof (load_files_not_IOError rnd (f :: files) fn) as NL.
    destruct (load_files rnd (f :: files) fn) as [lf|e]; simpl in H;
      [now apply imread_not_IOError in H|congruence].
  - now intros ->.
  - intros Hm. rewrite (glob_tif_plain fs folder Hm), <- filter_nil_iff.
    split; [|now intros ->].
    intros H. now apply map_eq_nil in H.
  - intros G Hs Hsize.
    destruct (glob_tif fs folder) as [|f files] eqn:Gf; [easy|].
    cbn [length Nat.eqb]. set (fl := f :: files) in *.
    assert (exists lf, load_files rnd fl fn = Ok lf /\ lf <> [])
      as (lf & -> & N).
    { destruct fn as [|l|n]; simpl in Hs.
      - now exists fl.
      - destruct Hs as [Hl HF].
        destruct (take_ok fl l HF) as (xs & E & L). exists xs.
        split; [exact E|]. destruct xs, l; simpl in *; congruence.
      - destruct (frame_selection rnd fl n rounding) as
          (idx & lf & _ & E & Li & Lf & _);
          [simpl; lia|lia|now apply Hsize|].
        exists lf. split; [exact E|].
        destruct lf, idx; simpl in *; try congruence; lia. }
    cbn [bind]. now apply imread_reads.
Qed.
End ReadableFrames.

Lemma imread_paths_empty : imread_paths [] = Raise ValueError.
Proof. reflexivity. Qed.

Lemma imread_paths_reads (fl : list string) :
  fl <> [] -> exists s, imread_paths fl = Ok s.
Proof. destruct fl; [easy|]. intros _. now eexists. Qed.

(** Two frames among other entries, the last one requested by a
    negative index. *)
Lemma get_frames_IOError_iff_witness :
  (get_frames unrounded imread_paths
     (one_folder "data" ["a.tif"; "info.json"; "b.tif"]) "data"
     (FList [(-1)%Z])
   = Raise IOError <->
   glob_tif (one_folder "data" ["a.tif"; "info.json"; "b.tif"]) "data" = []) /\
  get_frames unrounded imread_paths
    (one_folder "data" ["a.tif"; "info.json"; "b.tif"]) "data"
    (FList [(-1)%Z]) = Ok ["data/b.tif"%string].
Proof.
  destruct (get_frames_IOError_iff unrounded imread_paths unrounded_binary64
              imread_paths_empty imread_paths_reads
              (one_folder "data" ["a.tif"; "info.json"; "b.tif"]) "data"
              (FList [(-1)%Z])) as (H1 & _ & H2).
  split; [exact H1|].
  destruct H2 as (s & Hs).
  - discriminate.
  - split; [discriminate|]. repeat constructor; simpl; lia.
  - discriminate.
  - rewrite Hs. revert Hs. vm_compute. now intros [= <-].
Defined.

(** C9 as stated fails: a folder with one [.tif] file and the index
    list [[1]] raises [IndexError]. *)
Lemma get_frames_raises_with_tif_present :
  glob_tif (one_folder "data" ["a.tif"]) "data" <> [] /\
  get_frames unrounded imread_paths (one_folder "data" ["a.tif"]) "data"
             (FList [1%Z]) = Raise IndexError.
Proof. split; [discriminate|reflexivity]. Qed.

(** It fails in the other direction too: the folder path is part of
    the pattern, so a folder named [run[1]] that holds a [.tif] file is
    searched under the name [run1], and [IOError] is raised. *)
Lemma get_frames_pattern_in_folder_name :
  scandir (one_folder "run[1]" ["a.tif"]) "run[1]" = ["a.tif"%string] /\
  get_frames unrounded imread_paths (one_folder "run[1]" ["a.tif"]) "run[1]"
             FNone = Raise IOError.
Proof. split; reflexivity. Qed.

End FramesFacts.

(** ** get_correlation_image: the caller's array is left alone *)

Module CorrelationFacts.
Import Store Correlation StoreSpec.

Section Frame.
Context {arr : Type}.
Implicit Types (h : heap arr) (N : gset loc).

Lemma safe_ret {A : Type} h0 N (a : A) (post : A -> gset loc -> Prop) :
  post a N -> safe h0 N (ret a) post.
Proof. intros P h I. exists N. simpl. split_and!; [done|done|]. now intros ? [= <-]. Qed.

Lemma safe_bind {A B : Type} h0 N (m : M arr A) (k : A -> M arr B)
    (mid : A -> gset loc -> Prop) (post : B -> gset loc -> Prop) :
  safe h0 N m mid ->
  (forall a N', N ⊆ N' -> mid a N' -> safe h0 N' (k a) post) ->
  safe h0 N (bindM m k) post.
Proof.
  intros Hm Hk h I. destruct (Hm h I) as (N1 & S1 & I1 & P1).
  unfold bindM. destruct (m h) as [[a|e] h1]; simpl in *.
  - destruct (Hk a N1 S1 (P1 a eq_refl) h1 I1) as (N2 & S2 & I2 & P2).
    exists N2. split_and!; [set_solver|done|done].
  - exists N1. split_and!; [done|done|discriminate].
Qed.

Lemma safe_lift {A : Type} h0 N (r : result A) :
  safe h0 N (lift r) (fun _ _ => True).
Proof. intros h I. exists N. simpl. done. Qed.

Lemma safe_load h0 N (l : loc) : safe h0 N (load l) (fun _ _ => True).
Proof.
  intros h I. exists N. unfold load. destruct (h !! l); simpl; done.
Qed.

Lemma safe_alloc h0 N (v : arr) :
  safe h0 N (alloc v) (fun l N' => l ∈ N').
Proof.
  intros h [Hsub Hdis]. exists (N ∪ {[fresh (dom h)]}). simpl.
  pose proof (is_fresh (dom h)) as Hf.
  assert (fresh (dom h) ∉ dom h0) as Hf0.
  { intros Hin. apply Hf. apply subseteq_dom in Hsub. set_solver. }
  split_and!.
  - set_solver.
  - split.
    + apply insert_subseteq_r; [|exact Hsub]. now apply not_elem_of_dom.
    + apply disjoint_union_l. split; [exact Hdis|].
      now apply disjoint_singleton_l.
  - intros a [= <-]. apply elem_of_union_r, elem_of_singleton_2.
    reflexivity.
Qed.

Lemma safe_store h0 N (l : loc) (v : arr) :
  l ∈ N -> safe h0 N (store l v) (fun _ _ => True).
Proof.
  intros Hl h [Hsub Hdis]. exists N. simpl. split_and!; [done| |done].
  split; [|done]. apply insert_subseteq_r; [|done].
  apply not_elem_of_dom. set_solver.
Qed.

Lemma safe_unop h0 N (f : arr -> result arr) (x : loc) :
  safe h0 N (unop f x) (fun l N' => l ∈ N').
Proof.
  unfold unop. eapply safe_bind; [apply safe_load|]. intros vx N1 S1 _.
  eapply safe_bind; [apply safe_lift|]. intros r N2 S2 _.
  apply safe_alloc.
Qed.

Lemma safe_binop h0 N (f : arr -> arr -> result arr) (x y : loc) :
  safe h0 N (binop f x y) (fun l N' => l ∈ N').
Proof.
  unfold binop. eapply safe_bind; [apply safe_load|]. intros vx N1 S1 _.
  eapply safe_bind; [apply safe_load|]. intros vy N2 S2 _.
  eapply safe_bind; [apply safe_lift|]. intros r N3 S3 _.
  apply safe_alloc.
Qed.

Lemma safe_copy h0 N (x : loc) :
  safe h0 N (copy x) (fun l N' => l ∈ N').
Proof.
  unfold copy. eapply safe_bind; [apply safe_load|]. intros vx N1 S1 _.
  apply safe_alloc.
Qed.

Lemma safe_inplace1 h0 N (f : arr -> result arr) (x : loc) :
  x ∈ N -> safe h0 N (inplace1 f x) (fun _ _ => True).
Proof.
  intros Hx. unfold inplace1.
  eapply safe_bind; [apply safe_load|]. intros vx N1 S1 _.
  eapply safe_bind; [apply safe_lift|]. intros r N2 S2 _.
  apply safe_store. set_solver.
Qed.

Lemma safe_inplace2 h0 N (f : arr -> arr -> result arr) (x y : loc) :
  x ∈ N -> safe h0 N (inplace2 f x y) (fun _ _ => True).
Proof.
  intros Hx. unfold inplace2.
  eapply safe_bind; [apply safe_load|]. intros vx N1 S1 _.
  eapply safe_bind; [apply safe_load|]. intros vy N2 S2 _.
  eapply safe_bind; [apply safe_lift|]. intros r N3 S3 _.
  apply safe_store. set_solver.
Qed.

Variable np_ones_3_3 : arr.
Variables set_1_1_zero np_ones_frame np_mean_0 np_std_0 : arr -> result arr.
Variables set_zeros_to_inf newaxis : arr -> result arr.
Variables scipy_convolve subtract divide multiply : arr -> arr -> result arr.

Local Abbreviation run :=
  (get_correlation_image np_ones_3_3 set_1_1_zero np_ones_frame
     scipy_convolve np_mean_0 np_std_0 set_zeros_to_inf newaxis
     subtract divide multiply).

Lemma safe_get_correlation_image h0 (imgs : loc) :
  safe h0 ∅ (run imgs) (fun _ _ => True).
Proof.
  unfold get_correlation_image.
  eapply safe_bind; [apply safe_copy|]. intros imgs' N1 S1 Hi.
  eapply safe_bind; [apply safe_alloc|]. intros kernel N2 S2 Hk.
  eapply safe_bind; [apply safe_inplace1; set_solver|]. intros _ N3 S3 _.
  eapply safe_bind; [apply safe_unop|]. intros ones N4 S4 _.
  eapply safe_bind; [apply safe_binop|]. intros mask N5 S5 _.
  eapply safe_bind; [apply safe_unop|]. intros mean N6 S6 _.
  eapply safe_bind; [apply safe_inplace2; set_solver|]. intros _ N7 S7 _.
  eapply safe_bind; [apply safe_unop|]. intros imgs_std N8 S8 Hs.
  eapply safe_bind; [apply safe_inplace1; set_solver|]. intros _ N9 S9 _.
  eapply safe_bind; [apply safe_inplace2; set_solver|]. intros _ N10 S10 _.
  eapply safe_bind; [apply safe_unop|]. intros kernel3 N11 S11 _.
  eapply safe_bind; [apply safe_binop|]. intros conv N12 S12 _.
  eapply safe_bind; [apply safe_binop|]. intros c1 N13 S13 _.
  eapply safe_bind; [apply safe_binop|]. intros c2 N14 S14 _.
  eapply safe_bind; [apply safe_unop|]. intros c3 N15 S15 _.
  now apply safe_ret.
Qed.

(** C10. [get_correlation_image] never modifies its input: whatever
    the store and the array passed, and whether the call returns or
    raises, every object that existed before the call, the argument
    among them, has the same contents after it. *)
Theorem get_correlation_image_keeps_input (h : heap arr) (imgs : loc) :
  h ⊆ (get_correlation_image np_ones_3_3 set_1_1_zero np_ones_frame
         scipy_convolve np_mean_0 np_std_0 set_zeros_to_inf newaxis
         subtract divide multiply imgs h).2 /\
  forall v, h !! imgs = Some v ->
    (get_correlation_image np_ones_3_3 set_1_1_zero np_ones_frame
       scipy_convolve np_mean_0 np_std_0 set_zeros_to_inf newaxis
       subtract divide multiply imgs h).2 !! imgs = Some v.
Proof.
  destruct (safe_get_correlation_image h imgs h) as (N & _ & [Hsub _] & _).
  { split; [done|set_solver]. }
  split; [exact Hsub|]. intros v Hv.
  eapply lookup_weaken; [exact Hv|exact Hsub].
Qed.

End Frame.

(** A one-pixel integer array: the in-place subtraction of the float
    mean is refused, and the array passed in still holds 7. *)
Lemma get_correlation_image_keeps_input_witness :
  let h : gmap nat OnePixel.pixel := {[ 5%nat := OnePixel.Pixel false 7 ]} in
  (OnePixel.get_correlation_image 5%nat h).1 = Raise TypeError /\
  (OnePixel.get_correlation_image 5%nat h).2 !! 5%nat
  = Some (OnePixel.Pixel false 7).
Proof.
  intros h. split; [vm_compute; reflexivity|].
  apply get_correlation_image_keeps_input. apply lookup_singleton_eq.
Defined.

End CorrelationFacts.

(** ** get_targets: mask shapes and centroids *)

Module TargetsFacts.
Import Ndarray Targets TargetsSpec.

Lemma norm_index_ok (n i : Z) :
  - n <= i < n -> exists i', norm_index n i = Ok i' /\ 0 <= i' < n.
Proof.
  intros H. unfold norm_index.
  destruct (Z.ltb_spec i (- n)); [lia|].
  destruct (Z.leb_spec n i); [lia|]. cbn [orb].
  eexists. split; [reflexivity|]. destruct (Z.ltb_spec i 0); lia.
Qed.

Lemma set_pixels_ok (a : ndarray bool) (i d0 d1 : Z) (cell : list (Z * Z)) :
  Forall (indexable d0 d1) cell ->
  exists a',
    set_pixels a i d0 d1 cell = Ok a' /\ shape a' = shape a /\
    forall idx, item a idx = true -> item a' idx = true.
Proof.
  intros H. revert a.
  induction H as [|[r c] cell [Hr Hc] _ IH]; intros a; simpl.
  - exists a. auto.
  - destruct (norm_index_ok d0 r Hr) as (r' & -> & _).
    destruct (norm_index_ok d1 c Hc) as (c' & -> & _). cbn [bind].
    destruct (IH (set_item a [i; r'; c'] true)) as (a' & E & S & P).
    exists a'. split; [exact E|]. split; [exact S|].
    intros idx Hidx. apply P. simpl. now destruct (decide _).
Qed.

Lemma set_cell_ok (a : ndarray bool) (i d0 d1 : Z) (cell : list (Z * Z)) :
  cell <> [] -> Forall (indexable d0 d1) cell ->
  exists a',
    set_cell a i d0 d1 cell = Ok a' /\ shape a' = shape a /\
    exists r c, 0 <= r < d0 /\ 0 <= c < d1 /\ item a' [i; r; c] = true.
Proof.
  intros Hne H. destruct cell as [|[r c] cell]; [easy|].
  inversion H as [|? ? [Hr Hc] Hrest]; subst. simpl.
  destruct (norm_index_ok d0 r Hr) as (r' & -> & Hr').
  destruct (norm_index_ok d1 c Hc) as (c' & -> & Hc'). cbn [bind].
  destruct (set_pixels_ok (set_item a [i; r'; c'] true) i d0 d1 cell Hrest)
    as (a' & E & S & P).
  exists a'. split; [exact E|]. split; [exact S|].
  exists r', c'. split; [exact Hr'|]. split; [exact Hc'|].
  apply P. simpl. now destruct (decide _).
Qed.

Lemma zeros_ok {A : Type} (z : A) (sh : list Z) :
  Forall (fun d => 0 <= d) sh -> zeros z sh = Ok (Array sh (fun _ => z)).
Proof.
  intros H. unfold zeros.
  replace (forallb _ sh) with true; [reflexivity|].
  symmetry. apply forallb_forall. intros d Hd.
  rewrite Forall_forall in H. apply Z.leb_le, H. now apply list_elem_of_In.
Qed.

Lemma sum_Z_bounds (l : list Z) (d : Z) :
  Forall (fun x => 0 <= x < d) l ->
  0 <= sum_Z l <= Z.of_nat (length l) * (d - 1).
Proof.
  induction 1 as [|x l Hx _ IH]; simpl; [lia|].
  unfold sum_Z in *. simpl. nia.
Qed.

Lemma quot_mean_range (s n d : Z) :
  0 < n -> 0 <= s <= n * (d - 1) -> 0 <= Z.quot s n < d.
Proof.
  intros Hn Hs. rewrite Z.quot_div_nonneg by lia. split.
  - apply Z.div_pos; lia.
  - apply Z.div_lt_upper_bound; nia.
Qed.

(** The truncated mean of pixels inside the image is inside the
    image. *)
Lemma mean_int_inside (d0 d1 : Z) (cell : list (Z * Z)) :
  cell <> [] -> Forall (inside d0 d1) cell -> inside d0 d1 (mean_int cell).
Proof.
  intros Hne H. unfold mean_int, inside. cbn [fst snd].
  assert (0 < Z.of_nat (length cell)) as Hn by (destruct cell; simpl; [easy|lia]).
  split; apply quot_mean_range; try exact Hn.
  - rewrite <- (length_map fst cell). apply sum_Z_bounds.
    apply Forall_map. eapply Forall_impl; [exact H|]. now intros p [? _].
  - rewrite <- (length_map snd cell). apply sum_Z_bounds.
    apply Forall_map. eapply Forall_impl; [exact H|]. now intros p [_ ?].
Qed.

Section WithOpenCV.
Context {contour : Type}.
Variable findContours : ndarray Z -> list contour.
Variable drawContours :
  ndarray Z -> list contour -> Z -> Z -> Z -> result (ndarray Z).
Variable circle :
  ndarray Z -> Z * Z -> Z -> Z -> Z -> result (ndarray Z).

(** What is used of OpenCV. An image with a foreground pixel has a
    contour. Drawing contour 0 of a non-empty contour list, with a
    thickness up to OpenCV's maximum, returns the image, same shape.
    A filled circle of radius at least 0 returns the image, same
    shape, with the centre painted when it lies inside. *)
Hypothesis findContours_nonempty :
  forall (img : ndarray Z) (d0 d1 r c : Z),
    shape img = [d0; d1] -> 0 <= r < d0 -> 0 <= c < d1 ->
    item img [r; c] <> 0 -> findContours img <> [].
Hypothesis drawContours_shape :
  forall (img : ndarray Z) (cs : list contour) (color thickness : Z),
    cs <> [] -> thickness <= 32767 ->
    exists img', drawContours img cs 0 color thickness = Ok img' /\
                 shape img' = shape img.
Hypothesis circle_centre :
  forall (img : ndarray Z) (x y radius color : Z),
    0 <= radius ->
    exists img', circle img (x, y) radius color (-1) = Ok img' /\
                 shape img' = shape img /\
                 forall d0 d1, shape img = [d0; d1] ->
                               0 <= y < d0 -> 0 <= x < d1 ->
                               item img' [y; x] = color.

Local Abbreviation process_cell :=
  (process_cell findContours drawContours circle).
Local Abbreviation process_cells :=
  (process_cells findContours drawContours circle).
Local Abbreviation get_targets :=
  (get_targets findContours drawContours circle).

(** One iteration of the loop: it succeeds, keeps the three shapes,
    leaves the other cells' centroid masks alone, and marks the
    centre of cell [i] when its pixels lie inside the image. *)
Lemma process_cell_ok (n d0 d1 radius thickness i : Z)
    (cell : list (Z * Z)) (m : masks) :
  0 <= d0 -> 0 <= d1 -> 0 <= radius -> thickness <= 32767 ->
  cell <> [] -> Forall (indexable d0 d1) cell ->
  shapes_are [n; d0; d1] m ->
  exists m',
    process_cell [d0; d1] d0 d1 radius thickness i cell m = Ok m' /\
    shapes_are [n; d0; d1] m' /\
    (forall j rest, j <> i ->
       item (centroids m') (j :: rest) = item (centroids m) (j :: rest)) /\
    (Forall (inside d0 d1) cell ->
     exists r c, 0 <= r < d0 /\ 0 <= c < d1 /\
                 item (centroids m') [i; r; c] = true).
Proof.
  intros Hd0 Hd1 Hr Ht Hne Hcell (Ss & Sb & Sc).
  unfold Targets.process_cell.
  destruct (set_cell_ok (somas m) i d0 d1 cell Hne Hcell)
    as (soma & -> & Ssoma & r0 & c0 & Hr0 & Hc0 & Hpix).
  cbn [bind]. rewrite zeros_ok by (repeat constructor; assumption).
  cbn [bind].
  destruct (drawContours_shape (Array [d0; d1] (fun _ => 0))
              (findContours (astype bool_to_uint8 (sub soma i))) 1 thickness)
    as (border & -> & Sborder); [|exact Ht|].
  { apply (findContours_nonempty _ d0 d1 r0 c0); [|exact Hr0|exact Hc0|].
    - simpl. rewrite Ssoma, Ss. reflexivity.
    - simpl. rewrite Hpix. discriminate. }
  cbn [bind]. unfold assign_sub at 1. simpl shape.
  rewrite Sb, Sborder. simpl tail.
  destruct (decide ([d0; d1] = [d0; d1])) as [_|]; [|easy]. cbn [bind].
  destruct (circle_centre (astype bool_to_uint8 (sub (centroids m) i))
              (snd (mean_int cell)) (fst (mean_int cell)) radius 1 Hr)
    as (disk & -> & Sdisk & Hdisk).
  cbn [bind]. unfold assign_sub. simpl shape. rewrite Sc, Sdisk.
  simpl. rewrite Sc. simpl.
  destruct (decide ([d0; d1] = [d0; d1])) as [_|]; [|easy]. cbn [bind].
  eexists. split; [reflexivity|]. split; [|split].
  - unfold shapes_are. simpl. rewrite Ssoma. auto.
  - intros j rest Hj. simpl. destruct (Z.eqb_spec j i); [easy|reflexivity].
  - intros Hin. destruct (mean_int_inside d0 d1 cell Hne Hin) as [Hy Hx].
    exists (fst (mean_int cell)), (snd (mean_int cell)).
    split; [exact Hy|]. split; [exact Hx|].
    assert (item disk [fst (mean_int cell); snd (mean_int cell)] = 1) as Hp.
    { apply (Hdisk d0 d1); [|exact Hy|exact Hx]. simpl. now rewrite Sc. }
    cbn [centroids item astype]. rewrite Z.eqb_refl, Hp. reflexivity.
Qed.

(** The loop, from index [i] on. *)
Lemma process_cells_ok (n d0 d1 radius thickness : Z)
    (cells : list (list (Z * Z))) :
  0 <= d0 -> 0 <= d1 -> 0 <= radius -> thickness <= 32767 ->
  Forall (fun cell => cell <> [] /\ Forall (indexable d0 d1) cell) cells ->
  forall (i : Z) (m : masks),
    shapes_are [n; d0; d1] m ->
    exists m',
      process_cells [d0; d1] d0 d1 radius thickness i cells m = Ok m' /\
      shapes_are [n; d0; d1] m' /\
      (forall j rest, j < i ->
         item (centroids m') (j :: rest) = item (centroids m) (j :: rest)) /\
      (Forall (Forall (inside d0 d1)) cells ->
       forall j, i <= j < i + Z.of_nat (length cells) ->
         exists r c, 0 <= r < d0 /\ 0 <= c < d1 /\
                     item (centroids m') [j; r; c] = true).
Proof.
  intros Hd0 Hd1 Hr Ht Hcells.
  induction Hcells as [|cell cells [Hne Hcell] _ IH]; intros i m Hm.
  - exists m. simpl. split; [reflexivity|]. split; [exact Hm|].
    split; [reflexivity|]. intros _ j Hj. lia.
  - simpl.
    destruct (process_cell_ok n d0 d1 radius thickness i cell m
                Hd0 Hd1 Hr Ht Hne Hcell Hm) as (m1 & -> & Hm1 & K1 & C1).
    cbn [bind].
    destruct (IH (i + 1) m1 Hm1) as (m2 & E2 & Hm2 & K2 & C2).
    exists m2. split; [exact E2|]. split; [exact Hm2|]. split.
    + intros j rest Hj. rewrite K2 by lia. apply K1. lia.
    + intros Hin j Hj. inversion Hin as [|? ? Hin1 Hin2]; subst.
      destruct (Z.eq_dec j i) as [->|Hji].
      * destruct (C1 Hin1) as (r & c & Hrr & Hcc & Hp).
        exists r, c. split; [exact Hrr|]. split; [exact Hcc|].
        rewrite K2 by lia. exact Hp.
      * apply (C2 Hin2). lia.
Qed.

Lemma max_axis0_shape (a : ndarray bool) (n : Z) (rest : list Z) :
  shape a = n :: rest -> n <> 0 ->
  exists a', max_axis0 a = Ok a' /\ shape a' = rest.
Proof.
  intros S Hn. unfold max_axis0. rewrite S.
  destruct (Z.eqb_spec n 0); [easy|]. eexists. split; reflexivity.
Qed.

Lemma get_targets_run (f : label_folder) (d0 d1 radius thickness : Z) :
  valid_label_folder f d0 d1 -> 0 <= radius -> thickness <= 32767 ->
  exists m,
    get_targets f false radius thickness = Ok m /\
    shapes_are [Z.of_nat (length (regions f)); d0; d1] m /\
    (Forall (Forall (inside d0 d1)) (regions f) ->
     forall j, 0 <= j < Z.of_nat (length (regions f)) ->
       exists r c, 0 <= r < d0 /\ 0 <= c < d1 /\
                   item (centroids m) [j; r; c] = true) /\
    forall m', get_targets f true radius thickness = Ok m' <->
               (let* s := max_axis0 (somas m) in
                let* b := max_axis0 (borders m) in
                let* c := max_axis0 (centroids m) in
                Ok (Masks s b c)) = Ok m'.
Proof.
  intros (Hdim & Hd0 & Hd1 & Hcells) Hr Ht.
  unfold Targets.get_targets. rewrite Hdim. cbn [getitem lookup list_lookup bind].
  rewrite zeros_ok by (repeat constructor; [lia|assumption..]).
  cbn [bind].
  set (z := Array [Z.of_nat (length (regions f)); d0; d1] (fun _ => false)).
  destruct (process_cells_ok (Z.of_nat (length (regions f))) d0 d1 radius
              thickness (regions f) Hd0 Hd1 Hr Ht Hcells 0 (Masks z z z))
    as (m & -> & Hm & _ & Hc).
  { now repeat split. }
  cbn [bind]. exists m. split; [reflexivity|]. split; [exact Hm|].
  split; [|reflexivity].
  intros Hin j Hj. apply (Hc Hin). lia.
Qed.

(** C1, amended. On a valid label folder, with a centroid radius of
    at least 0 and a border thickness of at most 32767, [get_targets]
    returns soma, border and centroid masks, each of shape (number of
    cells, [dimensions[0]], [dimensions[1]]), where [dimensions] is the
    slice the code takes of the dimensions declared in [info.json];
    with [collapse_masks=True] the folder must list at least one
    region, and each mask has shape ([dimensions[0]],
    [dimensions[1]]). *)
Theorem get_targets_shapes (f : label_folder) (d0 d1 : Z)
    (collapse_masks : bool) (centroid_radius border_thickness : Z) :
  valid_label_folder f d0 d1 ->
  0 <= centroid_radius -> border_thickness <= 32767 ->
  (collapse_masks = true -> regions f <> []) ->
  exists m,
    get_targets f collapse_masks centroid_radius border_thickness = Ok m /\
    shapes_are (if collapse_masks then [d0; d1]
                else [Z.of_nat (length (regions f)); d0; d1]) m.
Proof.
  intros Hv Hr Ht Hcol.
  destruct (get_targets_run f d0 d1 centroid_radius border_thickness
              Hv Hr Ht) as (m & E & (Ss & Sb & Sc) & _ & Hcollapse).
  destruct collapse_masks; [|exists m; now repeat split].
  assert (Z.of_nat (length (regions f)) <> 0) as Hn.
  { specialize (Hcol eq_refl). destruct (regions f); simpl; [easy|lia]. }
  destruct (max_axis0_shape _ _ _ Ss Hn) as (s & Es & Sh_s).
  destruct (max_axis0_shape _ _ _ Sb Hn) as (b & Eb & Sh_b).
  destruct (max_axis0_shape _ _ _ Sc Hn) as (c & Ec & Sh_c).
  exists (Masks s b c). split; [|now repeat split].
  apply Hcollapse. now rewrite Es, Eb, Ec.
Qed.

(** C2. On a valid label folder whose cells are non-empty and lie
    inside the image, for any [centroid_radius >= 0], the centroid
    mask of every cell has a foreground pixel. *)
Theorem get_targets_centroids (f : label_folder) (d0 d1 : Z)
    (centroid_radius border_thickness : Z) :
  valid_label_folder f d0 d1 ->
  Forall (Forall (inside d0 d1)) (regions f) ->
  0 <= centroid_radius -> border_thickness <= 32767 ->
  exists m,
    get_targets f false centroid_radius border_thickness = Ok m /\
    forall j, 0 <= j < Z.of_nat (length (regions f)) ->
      exists r c, 0 <= r < d0 /\ 0 <= c < d1 /\
                  item (centroids m) [j; r; c] = true.
Proof.
  intros Hv Hin Hr Ht.
  destruct (get_targets_run f d0 d1 centroid_radius border_thickness
              Hv Hr Ht) as (m & E & _ & Hc & _).
  exists m. split; [exact E|]. exact (Hc Hin).
Qed.

End WithOpenCV.

(** The stand-in satisfies what is assumed of OpenCV. *)
Lemma standin_findContours_nonempty (img : ndarray Z) (d0 d1 r c : Z) :
  shape img = [d0; d1] -> 0 <= r < d0 -> 0 <= c < d1 ->
  item img [r; c] <> 0 -> OpenCVStandIn.findContours img <> [].
Proof. discriminate. Qed.

Lemma standin_drawContours_shape (img : ndarray Z) (cs : list (ndarray Z))
    (color thickness : Z) :
  cs <> [] -> thickness <= 32767 ->
  exists img', OpenCVStandIn.drawContours img cs 0 color thickness = Ok img' /\
               shape img' = shape img.
Proof.
  intros Hcs Ht. unfold OpenCVStandIn.drawContours.
  destruct (Z.ltb_spec 32767 thickness); [lia|].
  destruct cs as [|c cs]; [easy|]. simpl. eexists. split; reflexivity.
Qed.

Lemma standin_circle_centre (img : ndarray Z) (x y radius color : Z) :
  0 <= radius ->
  exists img', OpenCVStandIn.circle img (x, y) radius color (-1) = Ok img' /\
               shape img' = shape img /\
               forall d0 d1, shape img = [d0; d1] ->
                             0 <= y < d0 -> 0 <= x < d1 ->
                             item img' [y; x] = color.
Proof.
  intros Hr. unfold OpenCVStandIn.circle.
  destruct (Z.ltb_spec radius 0); [lia|].
  eexists. split; [reflexivity|]. split; [reflexivity|].
  intros d0 d1 _ _ _. simpl.
  destruct (Z.leb_spec ((x - x) * (x - x) + (y - y) * (y - y))
                       (radius * radius)); [reflexivity|nia].
Qed.

Lemma sample_folder_valid : valid_label_folder sample_folder 4 5.
Proof.
  split; [reflexivity|]. split; [lia|]. split; [lia|].
  repeat constructor; simpl; try lia; discriminate.
Qed.

Lemma sample_folder_inside :
  Forall (Forall (inside 4 5)) (regions sample_folder).
Proof. repeat constructor; simpl; lia. Qed.

Lemma get_targets_shapes_witness :
  exists m,
    Targets.get_targets OpenCVStandIn.findContours
      OpenCVStandIn.drawContours OpenCVStandIn.circle
      sample_folder true 2 2 = Ok m /\
    shapes_are [4; 5] m.
Proof.
  apply (get_targets_shapes _ _ _ standin_findContours_nonempty
           standin_drawContours_shape standin_circle_centre
           sample_folder 4 5 true 2 2 sample_folder_valid).
  - lia.
  - lia.
  - discriminate.
Defined.

Lemma get_targets_centroids_witness :
  exists m,
    Targets.get_targets OpenCVStandIn.findContours
      OpenCVStandIn.drawContours OpenCVStandIn.circle
      sample_folder false 0 2 = Ok m /\
    forall j, 0 <= j < 2 ->
      exists r c, 0 <= r < 4 /\ 0 <= c < 5 /\
                  item (centroids m) [j; r; c] = true.
Proof.
  apply (get_targets_centroids _ _ _ standin_findContours_nonempty
           standin_drawContours_shape standin_circle_centre
           sample_folder 4 5 0 2 sample_folder_valid sample_folder_inside).
  - lia.
  - lia.
Defined.

(** C1 as stated fails with [collapse_masks=True] on a valid label
    folder that lists no region: the three stacks have an empty first
    axis, over which [np.max] raises [ValueError]. *)
Lemma get_targets_collapse_without_regions :
  valid_label_folder (LabelFolder [100; 4; 5] []) 4 5 /\
  Targets.get_targets OpenCVStandIn.findContours
    OpenCVStandIn.drawContours OpenCVStandIn.circle
    (LabelFolder [100; 4; 5] []) true 2 2 = Raise ValueError.
Proof.
  split; [|reflexivity].
  split; [reflexivity|]. split; [lia|]. split; [lia|constructor].
Qed.

End TargetsFacts.

(** ** enhance_contrast: the range of the result *)

Module ContrastFacts.
Import Contrast ScaleSpec ContrastSpec.
Local Open Scope Q_scope.

Lemma Qle_bool_false (a b : Q) : Qle_bool a b = false -> b < a.
Proof.
  intros H. apply Qnot_le_lt. intros Hle.
  apply Qle_bool_iff in Hle. congruence.
Qed.

Lemma Qle_bool_true (a b : Q) : a <= b -> Qle_bool a b = true.
Proof. apply Qle_bool_iff. Qed.

Lemma Qle_bool_lt (a b : Q) : b < a -> Qle_bool a b = false.
Proof.
  intros H. destruct (Qle_bool a b) eqn:E; [|reflexivity].
  apply Qle_bool_iff in E. lra.
Qed.

Lemma Qeq_bool_false (a b : Q) : ~ a == b -> Qeq_bool a b = false.
Proof.
  intros H. destruct (Qeq_bool a b) eqn:E; [|reflexivity].
  apply Qeq_bool_iff in E. contradiction.
Qed.

Lemma Qeq_bool_true (a b : Q) : a == b -> Qeq_bool a b = true.
Proof. apply Qeq_bool_iff. Qed.

(** Arithmetic without rounding has the three properties. *)
Lemma exact_rounding : float_rounding exact.
Proof.
  split.
  - intros x y H. now apply Qle_bool_iff.
  - exists 0. split; reflexivity.
  - exists 1. split; reflexivity.
Qed.

Lemma overflowing_rounding (fmax : Q) : 1 <= fmax -> float_rounding (overflowing fmax).
Proof.
  intros Hm. split.
  - intros x y H. unfold fle, overflowing.
    destruct (Qle_bool x fmax) eqn:E1, (Qle_bool (- fmax) x) eqn:E2,
      (Qle_bool y fmax) eqn:E3, (Qle_bool (- fmax) y) eqn:E4;
      try reflexivity; simpl;
      repeat match goal with
        | H : Qle_bool _ _ = true |- _ => apply Qle_bool_iff in H
        | H : Qle_bool _ _ = false |- _ => apply Qle_bool_false in H
        end; try lra.
    now apply Qle_bool_iff.
  - exists 0. unfold overflowing.
    rewrite (Qle_bool_true 0 fmax), (Qle_bool_true (- fmax) 0) by lra.
    split; reflexivity.
  - exists 1. unfold overflowing.
    rewrite (Qle_bool_true 1 fmax), (Qle_bool_true (- fmax) 1) by lra.
    split; reflexivity.
Qed.

Lemma same_shape_map {A B : Type} (f : A -> B) (img : list (list A)) :
  same_shape (map (map f) img) img.
Proof.
  unfold same_shape. induction img as [|r img IH]; simpl; [reflexivity|].
  now rewrite IH, length_map.
Qed.

Lemma Forall_map_map {A B : Type} (f : A -> B) (P : B -> Prop)
    (img : list (list A)) :
  (forall x, In x (concat img) -> P (f x)) ->
  Forall (Forall P) (map (map f) img).
Proof.
  induction img as [|r img IH]; simpl; intros H; constructor.
  - apply Forall_forall. intros v Hv. apply list_elem_of_In, in_map_iff in Hv.
    destruct Hv as (x & <- & Hx). apply H, in_or_app. now left.
  - apply IH. intros x Hx. apply H, in_or_app. now right.
Qed.

Ltac Qbools :=
  repeat match goal with
    | H : Qle_bool _ _ = true |- _ => apply Qle_bool_iff in H
    | H : Qle_bool _ _ = false |- _ => apply Qle_bool_false in H
    | H : Qeq_bool _ _ = true |- _ => apply Qeq_bool_iff in H
    | H : Qeq_bool _ _ = false |- _ => apply Qeq_bool_neq in H
    end.

Ltac clip_case :=
  first [ lra
        | discriminate
        | let H := fresh in intros H; Qbools; lra
        | let r := fresh in
          let E := fresh in
          intros r E ? ?; injection E as <-; lra ].

Section Rounding.

Variable fl : Q -> npfloat.
Hypothesis Hfl : float_rounding fl.

Lemma fl_above (x y d : Q) :
  y <= x -> fl y = Finite d ->
  fl x = PosInf \/ exists q, fl x = Finite q /\ d <= q.
Proof.
  intros H E. pose proof (fl_monotone fl Hfl _ _ H) as M.
  unfold fle in M. rewrite E in M.
  destruct (fl x) as [q| | |]; simpl in M; try discriminate.
  - right. exists q. split; [reflexivity|]. now apply Qle_bool_iff.
  - now left.
Qed.

Lemma fl_below (x y d : Q) :
  x <= y -> fl y = Finite d ->
  fl x = NegInf \/ exists q, fl x = Finite q /\ q <= d.
Proof.
  intros H E. pose proof (fl_monotone fl Hfl _ _ H) as M.
  unfold fle in M. rewrite E in M.
  destruct (fl x) as [q| | |]; simpl in M; try discriminate.
  - right. exists q. split; [reflexivity|]. now apply Qle_bool_iff.
  - now left.
Qed.

Lemma fl_not_NaN (x : Q) : fl x <> NaN.
Proof.
  intros E. pose proof (fl_monotone fl Hfl x x (Qle_refl x)) as M.
  unfold fle in M. rewrite E in M. discriminate.
Qed.

(** Equal exact results give the same float. *)
Lemma fl_same (x y : Q) : x == y -> same_float (fl x) (fl y).
Proof.
  intros H.
  assert (H1 : x <= y) by lra. assert (H2 : y <= x) by lra.
  apply (fl_monotone fl Hfl) in H1, H2. unfold fle in H1, H2.
  destruct (fl x) as [q| | |], (fl y) as [r| | |]; simpl in *;
    try discriminate; try exact I.
  Qbools. lra.
Qed.

Lemma fl_zero_value (x : Q) : x == 0 -> finite_value 0 (fl x).
Proof.
  intros H. destruct (fl_zero fl Hfl) as (z & Ez & Hz).
  pose proof (fl_same x 0 H) as S. rewrite Ez in S.
  destruct (fl x) as [q| | |]; simpl in S; try contradiction.
  exists q. split; [reflexivity|]. lra.
Qed.

Lemma fl_one_value (x : Q) : x == 1 -> finite_value 1 (fl x).
Proof.
  intros H. destruct (fl_one fl Hfl) as (z & Ez & Hz).
  pose proof (fl_same x 1 H) as S. rewrite Ez in S.
  destruct (fl x) as [q| | |]; simpl in S; try contradiction.
  exists q. split; [reflexivity|]. lra.
Qed.

Lemma fl_nonneg (x : Q) :
  0 <= x -> fl x = PosInf \/ exists q, fl x = Finite q /\ 0 <= q.
Proof.
  intros H. destruct (fl_zero fl Hfl) as (z & Ez & Hz).
  destruct (fl_above x 0 z H Ez) as [E|(q & E & Hq)]; [now left|].
  right. exists q. split; [exact E|lra].
Qed.

Lemma fl_nonpos (x : Q) :
  x <= 0 -> fl x = NegInf \/ exists q, fl x = Finite q /\ q <= 0.
Proof.
  intros H. destruct (fl_zero fl Hfl) as (z & Ez & Hz).
  destruct (fl_below x 0 z H Ez) as [E|(q & E & Hq)]; [now left|].
  right. exists q. split; [exact E|lra].
Qed.

Lemma fl_unit (x : Q) : 0 <= x -> x <= 1 -> in_unit_interval (fl x).
Proof.
  intros H0 H1. destruct (fl_one fl Hfl) as (z & Ez & Hz).
  destruct (fl_nonneg x H0) as [E|(q & E & Hq)];
    destruct (fl_below x 1 z H1 Ez) as [E'|(q' & E' & Hq')];
    try congruence.
  rewrite E. rewrite E in E'. injection E' as <-. simpl. lra.
Qed.

(** A finite positive difference of the limits puts them in order. *)
Lemma limits_ordered (l0 l1 d : Q) :
  fl (l1 - l0) = Finite d -> 0 < d -> l0 < l1.
Proof.
  intros E Hd. destruct (Qlt_le_dec l0 l1) as [H|H]; [exact H|]. exfalso.
  destruct (fl_nonpos (l1 - l0) ltac:(lra)) as [E'|(q & E' & Hq)];
    [congruence|].
  rewrite E in E'. injection E' as <-. lra.
Qed.

Lemma ptp2_ordered (l0 l1 : Q) :
  l0 <= l1 -> ptp2 fl (Finite l0) (Finite l1) = fl (l1 - l0).
Proof.
  intros H. unfold ptp2, maximum, minimum, fleb.
  now rewrite (Qle_bool_true l0 l1 H).
Qed.

(** What [np.clip(a, 0, d)] does with a float that is not NaN. *)
Lemma clip_value (a : npfloat) (d : Q) :
  a <> NaN -> 0 < d ->
  exists c,
    clip a (Finite 0) (Finite d) = Finite c /\ 0 <= c /\ c <= d /\
    (fle a (Finite 0) -> c == 0) /\
    (fle (Finite d) a -> c == d) /\
    (forall q, a = Finite q -> 0 <= q -> q <= d -> c == q).
Proof.
  intros Ha Hd. unfold clip, maximum, minimum, fle.
  assert (H0d : Qle_bool 0 d = true) by (apply Qle_bool_true; lra).
  assert (F : forall c,
             0 <= c -> c <= d ->
             (fleb a (Finite 0) = true -> c == 0) ->
             (fleb (Finite d) a = true -> c == d) ->
             (forall q, a = Finite q -> 0 <= q -> q <= d -> c == q) ->
             exists c',
               Finite c = Finite c' /\ 0 <= c' /\ c' <= d /\
               (fleb a (Finite 0) = true -> c' == 0) /\
               (fleb (Finite d) a = true -> c' == d) /\
               (forall q, a = Finite q -> 0 <= q -> q <= d -> c' == q)).
  { intros c; exists c; auto 10. }
  destruct a as [q| | |]; [| | |contradiction]; cbn [fleb] in *.
  - destruct (Qle_bool q 0) eqn:E1; cbn [fleb].
    + rewrite H0d. Qbools. apply F; clip_case.
    + Qbools. destruct (Qle_bool q d) eqn:E2; Qbools; apply F; clip_case.
  - apply F; clip_case.
  - rewrite H0d. apply F; clip_case.
Qed.

Lemma clip_monotone (a b : npfloat) (d : Q) :
  0 < d -> fle a b ->
  fle (clip a (Finite 0) (Finite d)) (clip b (Finite 0) (Finite d)).
Proof.
  intros Hd H. unfold fle in *.
  assert (H0d : Qle_bool 0 d = true) by (apply Qle_bool_true; lra).
  destruct a as [q| | |], b as [r| | |]; try discriminate H;
    unfold clip, maximum, minimum; cbn [fleb] in *; rewrite ?H0d;
    repeat match goal with
      | |- context [Qle_bool ?x ?y] =>
          let E := fresh "E" in destruct (Qle_bool x y) eqn:E; cbn [fleb] in *
      end;
    try reflexivity; try discriminate; Qbools;
    try (apply Qle_bool_true; lra); try (exfalso; lra).
Qed.

(** One pixel between two finite limits whose difference is finite and
    positive. *)
Lemma rescale_clipped (l0 l1 d x : Q) :
  fl (l1 - l0) = Finite d -> 0 < d ->
  exists c,
    rescale fl (Finite l0) (Finite l1) x = fl (c / d) /\
    clip (fl (x - l0)) (Finite 0) (Finite d) = Finite c /\
    0 <= c /\ c <= d.
Proof.
  intros E Hd. pose proof (limits_ordered l0 l1 d E Hd) as Hlt.
  destruct (clip_value (fl (x - l0)) d (fl_not_NaN _) Hd)
    as (c & Ec & Hc0 & Hc1 & _).
  exists c. unfold rescale. rewrite ptp2_ordered by lra.
  cbn [subtract]. rewrite E, Ec. cbn [true_divide].
  rewrite Qeq_bool_false by lra. auto.
Qed.

Lemma rescale_unit (l0 l1 d x : Q) :
  fl (l1 - l0) = Finite d -> 0 < d ->
  in_unit_interval (rescale fl (Finite l0) (Finite l1) x).
Proof.
  intros E Hd. destruct (rescale_clipped l0 l1 d x E Hd)
    as (c & -> & _ & Hc0 & Hc1).
  apply fl_unit.
  - apply Qle_shift_div_l; lra.
  - apply Qle_shift_div_r; lra.
Qed.

Lemma rescale_low (l0 l1 d x : Q) :
  fl (l1 - l0) = Finite d -> 0 < d -> x <= l0 ->
  finite_value 0 (rescale fl (Finite l0) (Finite l1) x).
Proof.
  intros E Hd Hx. destruct (rescale_clipped l0 l1 d x E Hd)
    as (c & -> & Ec & Hc0 & Hc1).
  destruct (clip_value (fl (x - l0)) d (fl_not_NaN _) Hd)
    as (c' & Ec' & _ & _ & Hlow & _).
  rewrite Ec in Ec'. injection Ec' as <-.
  assert (Hc : c == 0).
  { apply Hlow. unfold fle.
    destruct (fl_nonpos (x - l0) ltac:(lra)) as [->|(q & -> & Hq)];
      [reflexivity|]. now apply Qle_bool_true. }
  apply fl_zero_value. unfold Qdiv. nra.
Qed.

Lemma rescale_high (l0 l1 d x : Q) :
  fl (l1 - l0) = Finite d -> 0 < d -> l1 <= x ->
  finite_value 1 (rescale fl (Finite l0) (Finite l1) x).
Proof.
  intros E Hd Hx. destruct (rescale_clipped l0 l1 d x E Hd)
    as (c & -> & Ec & Hc0 & Hc1).
  destruct (clip_value (fl (x - l0)) d (fl_not_NaN _) Hd)
    as (c' & Ec' & _ & _ & _ & Hhigh & _).
  rewrite Ec in Ec'. injection Ec' as <-.
  assert (Hc : c == d).
  { apply Hhigh. unfold fle.
    destruct (fl_above (x - l0) (l1 - l0) d ltac:(lra) E)
      as [->|(q & -> & Hq)]; [reflexivity|]. now apply Qle_bool_true. }
  apply fl_one_value. field_simplify_eq; lra.
Qed.

Lemma rescale_monotone (l0 l1 d x y : Q) :
  fl (l1 - l0) = Finite d -> 0 < d -> x <= y ->
  fle (rescale fl (Finite l0) (Finite l1) x)
      (rescale fl (Finite l0) (Finite l1) y).
Proof.
  intros E Hd Hxy.
  destruct (rescale_clipped l0 l1 d x E Hd) as (c & -> & Ec & Hc0 & Hc1).
  destruct (rescale_clipped l0 l1 d y E Hd) as (c' & -> & Ec' & Hc0' & Hc1').
  assert (M : fle (fl (x - l0)) (fl (y - l0)))
    by (apply (fl_monotone fl Hfl); lra).
  apply (clip_monotone _ _ d Hd) in M. rewrite Ec, Ec' in M.
  unfold fle in M. cbn [fleb] in M. Qbools.
  apply (fl_monotone fl Hfl). unfold Qdiv.
  assert (0 < / d) by now apply Qinv_lt_0_compat. nra.
Qed.

(** Between the limits nothing is clipped. *)
Lemma rescale_between (l0 l1 d x : Q) :
  fl (l1 - l0) = Finite d -> 0 < d -> l0 <= x -> x <= l1 ->
  exists q,
    fl (x - l0) = Finite q /\
    same_float (rescale fl (Finite l0) (Finite l1) x) (fl (q / d)).
Proof.
  intros E Hd H0 H1. destruct (rescale_clipped l0 l1 d x E Hd)
    as (c & -> & Ec & Hc0 & Hc1).
  destruct (clip_value (fl (x - l0)) d (fl_not_NaN _) Hd)
    as (c' & Ec' & _ & _ & _ & _ & Hin).
  rewrite Ec in Ec'. injection Ec' as <-.
  destruct (fl_nonneg (x - l0) ltac:(lra)) as [Ea|(q & Ea & Hq)];
    destruct (fl_below (x - l0) (l1 - l0) d ltac:(lra) E)
      as [Eb|(q' & Eb & Hq')]; try congruence.
  rewrite Ea in Eb. injection Eb as <-.
  exists q. split; [exact Ea|]. apply fl_same.
  assert (Hc : c == q) by now apply Hin.
  unfold Qdiv. nra.
Qed.

End Rounding.

(** C3, amended. For a float image of finite values for which
    [np.percentile] returns two finite limits whose float difference
    [limits[1] - limits[0]] is finite and positive, [enhance_contrast]
    returns an array of the shape of the image whose every value lies
    in [0, 1]; float arithmetic is taken to round monotonically, with
    overflow to the infinities, and to represent 0 and 1. *)
Theorem enhance_contrast_unit_interval
    (fl : Q -> npfloat)
    (np_percentile : list Q -> Q * Q -> result (npfloat * npfloat))
    (img : list (list Q)) (p0 p1 l0 l1 d : Q) :
  float_rounding fl ->
  np_percentile (concat img) (p0, p1) = Ok (Finite l0, Finite l1) ->
  fl (l1 - l0) = Finite d -> 0 < d ->
  exists out,
    enhance_contrast fl np_percentile img (p0, p1) = Ok out /\
    same_shape out img /\
    Forall (Forall in_unit_interval) out.
Proof.
  intros Hfl Ep E Hd. unfold enhance_contrast. rewrite Ep. cbn [bind fst snd].
  eexists. split; [reflexivity|]. split; [apply same_shape_map|].
  apply Forall_map_map. intros x _. now apply (rescale_unit fl Hfl l0 l1 d).
Qed.

(** The image [[0, 1], [2, 3]] with the default percentiles (5, 95). *)
Lemma enhance_contrast_unit_interval_witness :
  exists out,
    enhance_contrast exact exact_percentile [[0; 1]; [2; 3]] (5, 95) = Ok out /\
    same_shape out [[0; 1]; [2; 3]] /\
    Forall (Forall in_unit_interval) out.
Proof.
  apply (enhance_contrast_unit_interval exact exact_percentile
           [[0; 1]; [2; 3]] 5 95
           (percentile [0; 1; 2; 3] 5) (percentile [0; 1; 2; 3] 95)
           (percentile [0; 1; 2; 3] 95 - percentile [0; 1; 2; 3] 5)).
  - exact exact_rounding.
  - reflexivity.
  - reflexivity.
  - reflexivity.
Defined.

(** C3 as stated fails: the finite percentile pair (95, 5) on the image
    [[0, 1]] gives limits 0.95 and 0.05, and both values of the result
    are -1, already in arithmetic without rounding. *)
Lemma enhance_contrast_reversed_percentiles :
  exists a b,
    enhance_contrast exact exact_percentile [[0; 1]] (95, 5)
    = Ok [[Finite a; Finite b]] /\
    a == - (1) /\ b == - (1) /\
    ~ Forall (Forall in_unit_interval) [[Finite a; Finite b]].
Proof.
  eexists _, _. split; [vm_compute; reflexivity|].
  split; [reflexivity|]. split; [reflexivity|].
  intros H. inversion H as [|? ? Hrow _]; subst.
  inversion Hrow as [|? ? Ha _]; subst.
  destruct Ha as [Hneg _]. revert Hneg. apply Qlt_not_le. reflexivity.
Qed.

(** A constant image with the default percentiles: both limits are 3
    and every value of the result is [0/0]. *)
Example enhance_contrast_constant_image :
  enhance_contrast exact exact_percentile [[3; 3]] (5, 95) = Ok [[NaN; NaN]].
Proof. vm_compute. reflexivity. Qed.

(** Limits in increasing order whose difference overflows: with
    results beyond 10 in size turned into infinities, the image
    [[-8, -8, 8, 8]] has limits -8 and 8, and its two upper pixels
    become [inf/inf]. *)
Example enhance_contrast_overflow :
  enhance_contrast (overflowing 10) exact_percentile [[-8; -8; 8; 8]] (5, 95)
  = Ok [[Finite 0; Finite 0; NaN; NaN]].
Proof. vm_compute. reflexivity. Qed.

End ContrastFacts.

(** ** train.py: early stopping *)

Module FitFacts.
Import KerasFit Train FitSpec.
Local Open Scope Q_scope.

Section Fit.
Variable val_loss : nat -> Q.
Variable filepath : nat -> Q -> string.
Variable extra_files : list string.
Variable p : Z.

Local Abbreviation on_epoch_end := (on_epoch_end val_loss filepath extra_files).
Local Abbreviation fit_loop := (fit_loop val_loss filepath extra_files).
Local Abbreviation improves := (improves val_loss).
Local Abbreviation stale := (stale val_loss).
Local Abbreviation best_before := (best_before val_loss).
Local Abbreviation loop_inv := (loop_inv val_loss p).

Lemma improves_iff (epoch : nat) :
  improves epoch = true <->
  forall e, (e < epoch)%nat -> val_loss epoch < val_loss e.
Proof.
  unfold KerasFit.improves. rewrite forallb_forall. split.
  - intros H e He. specialize (H e). rewrite in_seq in H.
    specialize (H ltac:(lia)). apply negb_true_iff in H.
    apply Qnot_le_lt. intros Hle. apply Qle_bool_iff in Hle. congruence.
  - intros H e He. apply in_seq in He. apply negb_true_iff.
    destruct (Qle_bool (val_loss e) (val_loss epoch)) eqn:E; [|reflexivity].
    apply Qle_bool_iff in E. specialize (H e ltac:(lia)).
    exfalso. eapply Qlt_not_le; eassumption.
Qed.

Lemma lt_best_Some (x b : Q) : lt_best x (Some b) = true <-> x < b.
Proof.
  simpl. rewrite negb_true_iff. split.
  - intros E. apply Qnot_le_lt. intros Hle.
    apply Qle_bool_iff in Hle. congruence.
  - intros H. destruct (Qle_bool b x) eqn:E; [|reflexivity].
    apply Qle_bool_iff in E. exfalso. eapply Qlt_not_le; eassumption.
Qed.

Lemma best_before_0 : best_before None 0.
Proof. intros x. simpl. split; [intros _ e He; lia|reflexivity]. Qed.

Lemma best_before_improves (best : option Q) (epoch : nat) :
  best_before best epoch ->
  lt_best (val_loss epoch) best = improves epoch.
Proof.
  intros Hb. apply eq_true_iff_eq. rewrite improves_iff. apply Hb.
Qed.

Lemma best_before_step_improved (best : option Q) (epoch : nat) :
  best_before best epoch -> improves epoch = true ->
  best_before (Some (val_loss epoch)) (S epoch).
Proof.
  intros Hb Hi x. rewrite lt_best_Some. rewrite improves_iff in Hi. split.
  - intros Hx e He. destruct (Nat.eq_dec e epoch) as [->|Hne]; [exact Hx|].
    eapply Qlt_trans; [exact Hx|]. apply Hi. lia.
  - intros H. apply H. lia.
Qed.

Lemma best_before_step_stale (best : option Q) (epoch : nat) :
  best_before best epoch -> improves epoch = false ->
  best_before best (S epoch).
Proof.
  intros Hb Hi x. rewrite (Hb x). split.
  - intros H e He. destruct (Nat.eq_dec e epoch) as [->|Hne];
      [|apply H; lia].
    destruct best as [b|].
    + assert (lt_best x (Some b) = true) as Hx by now apply Hb.
      apply lt_best_Some in Hx.
      assert (lt_best (val_loss epoch) (Some b) = false) as Hc.
      { now rewrite (best_before_improves _ _ Hb). }
      simpl in Hc. apply negb_false_iff, Qle_bool_iff in Hc.
      eapply Qlt_le_trans; eassumption.
    + rewrite <- (best_before_improves _ _ Hb) in Hi. discriminate.
  - intros H e He. apply H. lia.
Qed.

Lemma on_epoch_end_spec (epoch : nat) (st : fit_state) :
  loop_inv epoch st ->
  let st' := on_epoch_end epoch st in
  history st' = map val_loss (seq 0 (S epoch)) /\
  stop_training st' = (p <=? Z.of_nat (stale epoch))%Z && negb (improves epoch) /\
  (stop_training st' = false -> loop_inv (S epoch) st').
Proof.
  intros (Hs & Hp & Hw & Hb & Hh). unfold KerasFit.on_epoch_end.
  unfold es_on_epoch_end. rewrite (best_before_improves _ _ Hb).
  destruct (mc_on_epoch_end _ _ _ _ _) as [mc' files'].
  assert (Hst : stale epoch =
                if improves epoch then O
                else S (match epoch with O => O | S e => stale e end)).
  { destruct epoch; reflexivity. }
  destruct (improves epoch) eqn:Hi; cbn [history stop_training es].
  - rewrite Hs, Hh, seq_S, map_app, andb_false_r. simpl.
    split; [reflexivity|]. split; [reflexivity|]. intros _.
    split; [|split; [|split; [|split]]];
      cbn [stop_training es patience wait es_best history].
    + reflexivity.
    + exact Hp.
    + now rewrite Hst.
    + exact (best_before_step_improved _ _ Hb Hi).
    + rewrite ?Hh, ?seq_S, ?map_app. reflexivity.
  - rewrite Hs, Hh, seq_S, map_app, andb_true_r, Hp, Hw, Hst. simpl orb.
    replace (Z.of_nat (match epoch with O => O | S e => stale e end) + 1)%Z
      with (Z.of_nat (S (match epoch with O => O | S e => stale e end)))
      by lia.
    split; [reflexivity|]. split; [reflexivity|]. intros Hstop.
    split; [|split; [|split; [|split]]];
      cbn [stop_training es patience wait es_best history].
    + exact Hstop.
    + reflexivity.
    + lia.
    + exact (best_before_step_stale _ _ Hb Hi).
    + rewrite ?Hh, ?seq_S, ?map_app. reflexivity.
Qed.

(** The loop from epoch [epoch] on, with [remaining] epochs left. *)
Lemma fit_loop_spec (remaining : nat) :
  forall (epoch : nat) (st : fit_state),
    loop_inv epoch st ->
    (forall e, (e < epoch)%nat -> (Z.of_nat (stale e) < p)%Z) ->
    (1 <= p)%Z ->
    exists n,
      history (fit_loop remaining epoch st) = map val_loss (seq 0 n) /\
      (epoch <= n <= epoch + remaining)%nat /\
      (forall e, (S e < n)%nat -> (Z.of_nat (stale e) < p)%Z) /\
      ((n < epoch + remaining)%nat ->
       (0 < n)%nat /\ (p <= Z.of_nat (stale (n - 1)))%Z).
Proof.
  induction remaining as [|k IH]; intros epoch st Hinv Hprev Hp.
  - exists epoch. simpl. destruct Hinv as (_ & _ & _ & _ & Hh).
    split; [exact Hh|]. split; [lia|]. split; [|lia].
    intros e He. apply Hprev. lia.
  - simpl. destruct (on_epoch_end_spec epoch st Hinv) as (Hh & Hstop & Hnext).
    destruct (stop_training (on_epoch_end epoch st)) eqn:E.
    + exists (S epoch). split; [exact Hh|]. split; [lia|].
      symmetry in Hstop. apply andb_true_iff in Hstop.
      destruct Hstop as [Hge _]. apply Z.leb_le in Hge.
      split.
      * intros e He. apply Hprev. lia.
      * intros _. split; [lia|]. simpl. now rewrite Nat.sub_0_r.
    + symmetry in Hstop. apply andb_false_iff in Hstop.
      assert (Z.of_nat (stale epoch) < p)%Z as Hlt.
      { destruct Hstop as [Hlt|Himp].
        - now apply Z.leb_gt in Hlt.
        - apply negb_false_iff in Himp.
          assert (stale epoch = O) as ->; [|lia].
          destruct epoch; cbn [KerasFit.stale]; now rewrite Himp. }
      destruct (IH (S epoch) _ (Hnext eq_refl)) as (n & Hn & Hr & Hs & Hhalt);
        [|exact Hp|].
      { intros e He. destruct (Nat.eq_dec e epoch) as [->|]; [exact Hlt|].
        apply Hprev. lia. }
      exists n. split; [exact Hn|]. split; [lia|]. split; [exact Hs|].
      intros Hlt'. apply Hhalt. lia.
Qed.

End Fit.

(** C7. With a patience of at least one epoch, the fit launched by
    train.py runs the epochs [0 .. n-1] with [n <= cfg.training_epochs]:
    no epoch at which validation loss had failed to improve for
    [cfg.early_stopping] consecutive epochs is followed by another
    epoch, and when the run ends before [cfg.training_epochs] it ends
    at such an epoch. *)
Theorem early_stopping_halts (val_loss : nat -> Q) (model_name : string)
    (cfg : config) :
  (1 <= early_stopping cfg)%Z ->
  let st := fit val_loss model_name cfg in
  let n := length (history st) in
  history st = map val_loss (seq 0 n) /\
  (n <= training_epochs cfg)%nat /\
  (forall e, (S e < n)%nat ->
     (Z.of_nat (stale val_loss e) < early_stopping cfg)%Z) /\
  ((n < training_epochs cfg)%nat ->
   (0 < n)%nat /\
   (early_stopping cfg <= Z.of_nat (stale val_loss (n - 1)))%Z).
Proof.
  intros Hp st n. subst n st. unfold fit, fit_generator.
  match goal with
  | |- context [KerasFit.fit_loop ?v ?fp ?ex ?r ?e ?s] =>
      destruct (fit_loop_spec v fp ex (early_stopping cfg) r e s)
        as (n & Hh & Hr & Hs & Hhalt)
  end.
  - split; [|split; [|split; [|split]]]; simpl; try reflexivity.
    apply best_before_0.
  - intros e He. lia.
  - exact Hp.
  - rewrite Hh, length_map, length_seq.
    split; [reflexivity|]. split; [lia|]. split; [exact Hs|].
    intros Hlt. apply Hhalt. lia.
Qed.

(** Loss 1.0, then 2.0 for ever, patience 2, ten epochs allowed: three
    epochs are run. *)
Lemma early_stopping_halts_witness :
  let vl := fun e : nat => if (e =? 0)%nat then 1 else 2 in
  let cfg := {| early_stopping := 2; training_epochs := 10;
                save_predictions_during_training := false;
                batch_size := 1 |} in
  length (history (fit vl "unet" cfg)) = 3%nat /\
  (2 <= Z.of_nat (stale vl 2))%Z.
Proof.
  intros vl cfg.
  destruct (early_stopping_halts vl "unet" cfg) as (_ & _ & _ & H).
  - simpl. lia.
  - split; [reflexivity|]. apply H. simpl. lia.
Defined.

End FitFacts.

(** ** train.py: which checkpoint is kept *)

Module CheckpointFacts.
Import KerasFit Train FitSpec.
Local Open Scope Q_scope.

(** C6 at a failing input. With the folder listed by name, the script
    keeps the checkpoint of epoch 99 and deletes that of epoch 100,
    which has the lowest validation loss: ["unet.100-..."] sorts before
    ["unet.11-..."], so the last path of the listing is epoch 99's. *)
Theorem train_keeps_epoch_99_of_100 :
  exists files st,
    train listdir_by_name falling_loss "unet" cfg_100
    = Ok (files, st, "unet.99-1.020000.hdf5"%string) /\
    filter (fun f => matches ".hdf5" f) files
    = ["unet.99-1.020000.hdf5"%string] /\
    length (saved (mc st)) = 100%nat /\
    best_scoring (saved (mc st))
    = Some ("unet.100-1.010000.hdf5"%string, 101 # 100).
Proof.
  eexists _, _. split; [vm_compute; reflexivity|].
  split; [|split]; vm_compute; reflexivity.
Qed.

(** The same with two epochs, losses 0.5 then 0.4, when the folder is
    listed newest first: the checkpoint of epoch 1 is kept and the
    better one of epoch 2 is deleted. *)
Lemma train_keeps_epoch_1_of_2 :
  let vl := fun e : nat => if (e =? 0)%nat then 1 # 2 else 2 # 5 in
  let cfg := {| early_stopping := 3; training_epochs := 2;
                save_predictions_during_training := false;
                batch_size := 1 |} in
  exists files st,
    train listdir_newest_first vl "unet" cfg
    = Ok (files, st, "unet.01-0.500000.hdf5"%string) /\
    filter (fun f => matches ".hdf5" f) files
    = ["unet.01-0.500000.hdf5"%string] /\
    best_scoring (saved (mc st))
    = Some ("unet.02-0.400000.hdf5"%string, 2 # 5).
Proof.
  intros vl cfg. eexists _, _. split; [vm_compute; reflexivity|].
  split; vm_compute; reflexivity.
Qed.

(** Listed by name, fewer than 100 epochs keep the best checkpoint. *)
Lemma train_keeps_epoch_2_of_2 :
  let vl := fun e : nat => if (e =? 0)%nat then 1 # 2 else 2 # 5 in
  let cfg := {| early_stopping := 3; training_epochs := 2;
                save_predictions_during_training := false;
                batch_size := 1 |} in
  exists files st,
    train listdir_by_name vl "unet" cfg
    = Ok (files, st, "unet.02-0.400000.hdf5"%string) /\
    best_scoring (saved (mc st))
    = Some ("unet.02-0.400000.hdf5"%string, 2 # 5).
Proof.
  intros vl cfg. eexists _, _. split; vm_compute; reflexivity.
Qed.

End CheckpointFacts.

(** ** models.py: which image sizes the builders accept *)

Module BuildersFacts.
Import Keras Models KerasSpec ShapeSpec KerasFacts ModelsFacts.



Lemma hg_dim_Some_ok (n : Z) (r : dim) :
  hg_dim (Some n) = Ok r -> n = 1 \/ (16 | n).
Proof.
  intros H. pose proof (hg_dim_Some_inv n r H) as Hr.
  unfold hg_dim in H. do 3 bind_inv H.
  apply elemwise_dim_up in E; [|discriminate]. subst t.
  apply elemwise_dim_up in E0; [|discriminate]. subst t0.
  apply elemwise_dim_up in E1; [|discriminate]. subst t1.
  destruct (down (down (down (down (Some n))))) as [k|] eqn:Ek;
    [|discriminate Ek].
  simpl in H. destruct (Z.eqb_spec n 1) as [->|Hn1]; [now left|].
  destruct (Z.eqb_spec (k * 2 * 2 * 2 * 2) 1) as [Hk|_]; [lia|].
  destruct (Z.eqb_spec n (k * 2 * 2 * 2 * 2)) as [->|]; [|discriminate].
  right. exists k. lia.
Qed.

Lemma hg_dim_ok_iff (d : dim) : (exists r, hg_dim d = Ok r) <-> hg_size_ok d.
Proof.
  destruct d as [n|]; simpl.
  - split.
    + intros (r & H). exact (hg_dim_Some_ok n r H).
    + intros [->|H16]; [now exists (Some 16)|].
      exists (Some n). now apply hg_dim_div16.
  - split; [trivial|]. intros _. now exists None.
Qed.

Lemma hg_dim_error (d : dim) :
  ~ hg_size_ok d -> hg_dim d = Raise ValueError.
Proof.
  intros Hno. destruct (hg_dim d) as [r|e] eqn:E.
  - exfalso. apply Hno, hg_dim_ok_iff. now exists r.
  - unfold hg_dim in E. cbv zeta in E.
    repeat match type of E with
    | context [bind (elemwise_dim ?a ?b) _] =>
        let Hc := fresh "Hc" in
        destruct (elemwise_dim_cases a b) as [Hc|[? Hc]];
        rewrite Hc in E; cbn [bind] in E; [congruence|]
    end.
    match type of E with
    | elemwise_dim ?a ?b = _ =>
        let Hc := fresh "Hc" in
        destruct (elemwise_dim_cases a b) as [Hc|[? Hc]];
        rewrite Hc in E; congruence
    end.
Qed.

(** The result of [hg_dim] is accepted again: the second hourglass of a
    stack never rejects what the first one produced. *)
Lemma hg_dim_twice (d r : dim) : hg_dim d = Ok r -> hg_dim r = Ok r.
Proof.
  intros H. apply hg_dim_inv in H. subst r.
  apply hg_dim_div16, div16_up4.
Qed.

Lemma img_size_of_hourglass (img_size : list dim) (h w : dim) (c oc f : Z)
    (ul : bool) :
  img_size_of img_size h w c ->
  hourglass img_size oc f ul = hourglass [h; w; Some c] oc f ul.
Proof. intros [->|[-> ->]]; reflexivity. Qed.

Lemma img_size_of_stacked (img_size : list dim) (h w : dim) (c oc f : Z)
    (ul : bool) :
  img_size_of img_size h w c ->
  stacked_hourglass img_size oc f ul = stacked_hourglass [h; w; Some c] oc f ul.
Proof. intros [->|[-> ->]]; reflexivity. Qed.

(** X2. [hourglass] returns a model exactly when [filters >= 2],
    [output_channels] is positive, [img_size] is (height, width,
    channels) with the channels defined, or (height, width), and height
    and width are each unknown, 1 or a multiple of 16. On such an
    [img_size] every other choice raises [ValueError], from a
    convolution that is asked for no filters or from a merge layer. *)
Theorem hourglass_accepts (img_size : list dim) (output_channels filters : Z)
    (ul : bool) :
  ((exists m, hourglass img_size output_channels filters ul = Ok m) <->
   2 <= filters /\ 0 < output_channels /\
   exists h w c, img_size_of img_size h w c /\ hg_size_ok h /\ hg_size_ok w) /\
  (forall h w c, img_size_of img_size h w c ->
     ~ (2 <= filters /\ 0 < output_channels /\
        hg_size_ok h /\ hg_size_ok w) ->
     hourglass img_size output_channels filters ul = Raise ValueError).
Proof.
  split; [split|].
  - intros (m & H). apply hourglass_img_size in H.
    destruct H as (h & w & c & Hi & H). apply hourglass_Ok in H.
    destruct H as ((Hf & Ho) & h' & w' & Eh & Ew & _).
    split; [exact Hf|]. split; [exact Ho|]. exists h, w, c.
    split; [exact Hi|]. split; apply hg_dim_ok_iff; eauto.
  - intros (Hf & Ho & h & w & c & Hi & Hh & Hw).
    rewrite (img_size_of_hourglass _ h w c) by exact Hi.
    rewrite hourglass_eq, (proj2 (counts_ok_spec _ _)) by now split.
    apply hg_dim_ok_iff in Hh, Hw. destruct Hh as (h' & ->), Hw as (w' & ->).
    cbn [bind]. eauto.
  - intros h w c Hi Hno.
    rewrite (img_size_of_hourglass _ h w c) by exact Hi.
    rewrite hourglass_eq.
    destruct (counts_ok output_channels filters) eqn:C; [|reflexivity].
    apply counts_ok_spec in C. destruct C as [Hf Ho].
    destruct (hg_dim h) as [h'|e] eqn:Eh.
    + cbn [bind]. rewrite hg_dim_error; [reflexivity|].
      intros Hw. apply Hno. repeat (split; [assumption|]).
      split; [|exact Hw]. apply hg_dim_ok_iff. eauto.
    + rewrite hg_dim_error in Eh; [now injection Eh as <-|].
      intros Hh. apply hg_dim_ok_iff in Hh. destruct Hh as (r & Hr). congruence.
Qed.

Lemma hourglass_accepts_witness :
  hourglass [Some 20; Some 32; Some 3] 5 16 false = Raise ValueError /\
  hourglass [Some 32; Some 32; Some 3] 5 1 false = Raise ValueError.
Proof.
  split.
  - apply (proj2 (hourglass_accepts [Some 20; Some 32; Some 3] 5 16 false)
             (Some 20) (Some 32) 3).
    + now left.
    + intros (_ & _ & [H|[q H]] & _); lia.
  - apply (proj2 (hourglass_accepts [Some 32; Some 32; Some 3] 5 1 false)
             (Some 32) (Some 32) 3).
    + now left.
    + intros (H & _). lia.
Defined.

(** X3. A model returned by [hourglass] has one input, the image size
    behind an unknown batch size, and exactly one output, whose height
    and width are the input's after four halvings (rounded up) and four
    doublings: the input's own when they are multiples of 16. *)
Theorem hourglass_one_output (img_size : list dim)
    (output_channels filters : Z) (ul : bool) (m : model) :
  hourglass img_size output_channels filters ul = Ok m ->
  exists h w c,
    img_size_of img_size h w c /\
    inputs m = [[None; h; w; Some c]] /\
    outputs m = [[None; up4 (down4 h); up4 (down4 w); Some output_channels]] /\
    (div16 h -> div16 w ->
     outputs m = [[None; h; w; Some output_channels]]).
Proof.
  intros H. apply hourglass_img_size in H.
  destruct H as (h & w & c & Hi & H). exists h, w, c.
  apply hourglass_Ok in H. destruct H as (_ & h' & w' & E & E0 & ->).
  apply hg_dim_inv in E, E0. subst h' w'. cbn [inputs outputs].
  split; [exact Hi|]. split; [reflexivity|]. split; [reflexivity|].
  intros Hh Hw. now rewrite !up4_down4_div16.
Qed.

Lemma hourglass_one_output_witness :
  exists h w c,
    img_size_of [Some 32; Some 48] h w c /\
    outputs (Model [[None; Some 32; Some 48; Some 1]]
                   [[None; Some 32; Some 48; Some 5]] "hourglass")
    = [[None; up4 (down4 h); up4 (down4 w); Some 5]].
Proof.
  destruct (hourglass_one_output [Some 32; Some 48] 5 16 true _ eq_refl)
    as (h & w & c & Hi & _ & Ho & _).
  exists h, w, c. split; [exact Hi|exact Ho].
Defined.

(** X4. [stacked_hourglass] accepts exactly the image sizes [hourglass]
    accepts: the second hourglass never rejects what the first one
    produced. *)
Theorem stacked_hourglass_accepts (img_size : list dim)
    (output_channels filters : Z) (ul : bool) :
  (exists m, stacked_hourglass img_size output_channels filters ul = Ok m) <->
  (exists m, hourglass img_size output_channels filters ul = Ok m).
Proof.
  split.
  - intros (m & H). apply stacked_hourglass_img_size in H.
    destruct H as (h & w & c & Hi & H).
    rewrite (img_size_of_hourglass _ h w c) by exact Hi.
    apply stacked_hourglass_Ok in H.
    destruct H as (C & h1 & w1 & h2 & w2 & E & E0 & _).
    rewrite hourglass_eq, (proj2 (counts_ok_spec _ _) C), E, E0.
    cbn [bind]. eauto.
  - intros (m & H). apply hourglass_img_size in H.
    destruct H as (h & w & c & Hi & H).
    rewrite (img_size_of_stacked _ h w c) by exact Hi.
    apply hourglass_Ok in H. destruct H as (C & h' & w' & E & E0 & _).
    rewrite stacked_hourglass_eq, (proj2 (counts_ok_spec _ _) C), E, E0.
    cbn [bind].
    rewrite (hg_dim_twice _ _ E), (hg_dim_twice _ _ E0). cbn [bind]. eauto.
Qed.

Lemma hourglass_raise (img_size : list dim) (oc f : Z) (ul : bool) (e : exn) :
  residual_bottleneck_module
    (Input (if (length img_size =? 2)%nat then img_size ++ [Some 1]
            else img_size)) f 2 = Raise e ->
  hourglass img_size oc f ul = Raise e.
Proof. intros E. unfold hourglass. cbv zeta. rewrite E. reflexivity. Qed.

Lemma stacked_hourglass_raise (img_size : list dim) (oc f : Z) (ul : bool)
    (e : exn) :
  residual_bottleneck_module
    (Input (if (length img_size =? 2)%nat then img_size ++ [Some 1]
            else img_size)) f 2 = Raise e ->
  stacked_hourglass img_size oc f ul = Raise e.
Proof. intros E. unfold stacked_hourglass. cbv zeta. rewrite E. reflexivity. Qed.

Lemma img_size_of_normal (img_size : list dim) (h w : dim) (c : Z) :
  (if (length img_size =? 2)%nat then img_size ++ [Some 1] else img_size)
  = [h; w; Some c] ->
  img_size_of img_size h w c.
Proof.
  intros E. destruct (length img_size =? 2)%nat eqn:L.
  - destruct img_size as [|a [|b0 [|? ?]]]; try discriminate.
    injection E as -> -> <-. right. now split.
  - now left.
Qed.

(** X5. The [upsampling_layers] switch changes the layers used for
    upsampling but not the result of shape inference: both builders
    return the same shapes, or raise the same error, either way. *)
Theorem upsampling_layers_same_shapes (img_size : list dim)
    (output_channels filters : Z) :
  hourglass img_size output_channels filters true
  = hourglass img_size output_channels filters false /\
  stacked_hourglass img_size output_channels filters true
  = stacked_hourglass img_size output_channels filters false.
Proof.
  destruct (residual_bottleneck_module
              (Input (if (length img_size =? 2)%nat
                      then img_size ++ [Some 1] else img_size)) filters 2)
    as [t|e] eqn:E.
  - apply rbm_Input_inv in E. destruct E as (h & w & c & E).
    apply img_size_of_normal in E. split.
    + etransitivity; [apply (img_size_of_hourglass _ h w c _ _ _ E)|].
      etransitivity; [apply hourglass_eq|]. symmetry.
      etransitivity; [apply (img_size_of_hourglass _ h w c _ _ _ E)|].
      apply hourglass_eq.
    + etransitivity; [apply (img_size_of_stacked _ h w c _ _ _ E)|].
      etransitivity; [apply stacked_hourglass_eq|]. symmetry.
      etransitivity; [apply (img_size_of_stacked _ h w c _ _ _ E)|].
      apply stacked_hourglass_eq.
  - split.
    + etransitivity; [apply (hourglass_raise _ _ _ _ _ E)|].
      symmetry. apply (hourglass_raise _ _ _ _ _ E).
    + etransitivity; [apply (stacked_hourglass_raise _ _ _ _ _ E)|].
      symmetry. apply (stacked_hourglass_raise _ _ _ _ _ E).
Qed.

(** X6. For positive [filters], [kernel_size] and [output_channels],
    [leap] returns on every (height, width, channels) with the channels
    defined, with height and width halved twice (rounded up) and doubled
    twice, that is the input's own when they are multiples of 4. On any
    other [img_size], a (height, width) pair included, and for any count
    or kernel size that is not positive, a layer raises [ValueError]. *)
Theorem leap_accepts (img_size : list dim)
    (output_channels filters kernel_size : Z) :
  (forall h w c, img_size = [h; w; Some c] ->
     0 < filters -> 0 < kernel_size -> 0 < output_channels ->
     leap img_size output_channels filters kernel_size
     = Ok (Model [[None; h; w; Some c]]
                 [[None; leap_dim h; leap_dim w; Some output_channels]]
                 "leap")) /\
  (~ (has_channel_axis img_size /\
      0 < filters /\ 0 < kernel_size /\ 0 < output_channels) ->
   leap img_size output_channels filters kernel_size = Raise ValueError) /\
  (forall n, (4 | n) -> leap_dim (Some n) = Some n).
Proof.
  split; [|split].
  - intros h w c -> Hf Hk Ho. rewrite leap_eq. unfold leap_counts_ok.
    destruct (Z.ltb_spec 0 filters); [|lia].
    destruct (Z.ltb_spec 0 kernel_size); [|lia].
    destruct (Z.ltb_spec 0 output_channels); [|lia]. reflexivity.
  - intros Hno.
    destruct (Conv2D filters kernel_size (Input img_size)) as [t|e] eqn:E.
    + apply Conv2D_inv in E. destruct E as (b & h & w & c & E & _).
      injection E as _ ->. rewrite leap_eq.
      destruct (leap_counts_ok _ _ _) eqn:C; [|reflexivity].
      exfalso. apply Hno. unfold leap_counts_ok in C.
      rewrite !andb_true_iff, !Z.ltb_lt in C.
      split; [now exists h, w, c|tauto].
    + unfold leap. rewrite E. cbn [bind]. f_equal.
      now apply Conv2D_raises in E.
  - intros n [k ->]. unfold leap_dim.
    replace (k * 4) with (2 * (2 * k)) by lia.
    rewrite !down_double. simpl. f_equal. lia.
Qed.

Lemma leap_accepts_witness :
  leap [Some 20; Some 12; Some 3] 5 16 3
  = Ok (Model [[None; Some 20; Some 12; Some 3]]
              [[None; Some 20; Some 12; Some 5]] "leap") /\
  leap [Some 20; Some 12] 5 16 3 = Raise ValueError.
Proof.
  destruct (leap_accepts [Some 20; Some 12; Some 3] 5 16 3) as (H1 & _ & H3).
  destruct (leap_accepts [Some 20; Some 12] 5 16 3) as (_ & H2 & _).
  split.
  - rewrite (H1 _ _ _ eq_refl) by lia. unfold leap_dim at 1.
    change (up (up (down (down (Some 20))))) with (leap_dim (Some 20)).
    rewrite (H3 20), (H3 12); [reflexivity|now exists 3|now exists 5].
  - apply H2. intros ((h & w & c & E) & _). discriminate E.
Defined.

End BuildersFacts.

(** ** get_frames: lists of indices, counts and what is read *)

Module SelectionFacts.
Import Numpy Frames FramesSpec SelectionSpec FramesFacts.

Lemma index1_spec {A : Type} (a : list A) (i : Z) :
  (in_bounds (length a) i ->
   exists x, index1 a i = Ok x /\ a !! position (length a) i = Some x) /\
  (~ in_bounds (length a) i -> index1 a i = Raise IndexError).
Proof.
  unfold in_bounds, position, index1. split.
  - intros Hi.
    destruct (Z.ltb_spec i (- Z.of_nat (length a))); [lia|].
    destruct (Z.leb_spec (Z.of_nat (length a)) i); [lia|]. cbn [orb].
    assert (i mod Z.of_nat (length a)
            = if (i <? 0)%Z then i + Z.of_nat (length a) else i)%Z as ->.
    { destruct (Z.ltb_spec i 0).
      - symmetry. apply (Z.mod_unique _ _ (-1)); lia.
      - apply Z.mod_small. lia. }
    destruct (a !! _) as [x|] eqn:Ex; [now exists x|].
    apply lookup_ge_None in Ex. destruct (Z.ltb_spec i 0); lia.
  - intros Hi.
    destruct (Z.ltb_spec i (- Z.of_nat (length a))); [reflexivity|].
    destruct (Z.leb_spec (Z.of_nat (length a)) i); [reflexivity|]. lia.
Qed.

Lemma take_elem {A : Type} (a : list A) (idx : list Z) (xs : list A) :
  take a idx = Ok xs -> forall x, x ∈ xs -> x ∈ a.
Proof.
  revert xs. induction idx as [|i idx IH]; simpl; intros xs H x Hx.
  - injection H as <-. now apply not_elem_of_nil in Hx.
  - bind_inv H. bind_inv H. injection H as <-.
    apply elem_of_cons in Hx. destruct Hx as [->|Hx]; [|now apply (IH t0)].
    unfold index1 in E. destruct (_ || _); [discriminate|].
    destruct (a !! _) eqn:El; [|discriminate]. injection E as <-.
    eapply list_elem_of_lookup_2. exact El.
Qed.

(** X7. A list of indices selects the files at those indices, in the
    order given and with repetitions kept, negative indices counting
    from the end; when any index is outside [-k, k) for [k] files,
    [IndexError] is raised. *)
Theorem load_files_list (rnd : Q -> Q) (files : list string) (l : list Z) :
  (Forall (in_bounds (length files)) l ->
   exists fs,
     load_files rnd files (FList l) = Ok fs /\
     length fs = length l /\
     forall j i, l !! j = Some i ->
                 fs !! j = files !! position (length files) i) /\
  (~ Forall (in_bounds (length files)) l ->
   load_files rnd files (FList l) = Raise IndexError).
Proof.
  simpl. induction l as [|i l [IHok IHerr]]; simpl.
  - split; [|intros H; exfalso; apply H; constructor].
    intros _. exists []. repeat split. intros j i H.
    now rewrite lookup_nil in H.
  - destruct (index1_spec files i) as [Hin Hout]. split.
    + intros HF. apply Forall_cons in HF. destruct HF as [Hi HF].
      destruct (Hin Hi) as (x & -> & Hx).
      destruct (IHok HF) as (fs & -> & L & P). cbn [bind].
      exists (x :: fs). split; [reflexivity|]. split; [simpl; now rewrite L|].
      intros [|j] i' Hj; simpl in *; [|now apply P].
      injection Hj as <-. now rewrite Hx.
    + intros HF. destruct (decide (in_bounds (length files) i)) as [Hi|Hi].
      * destruct (Hin Hi) as (x & -> & _). cbn [bind].
        rewrite IHerr; [reflexivity|]. intros HF'. apply HF. now constructor.
      * now rewrite (Hout Hi).
Qed.

Lemma load_files_list_witness :
  load_files unrounded ["a.tif"; "b.tif"; "c.tif"]%string
             (FList [2; -1; 0]%Z)
  = Ok ["c.tif"; "c.tif"; "a.tif"]%string /\
  load_files unrounded ["a.tif"; "b.tif"; "c.tif"]%string (FList [0; 3]%Z)
  = Raise IndexError.
Proof.
  destruct (load_files_list unrounded ["a.tif"; "b.tif"; "c.tif"]%string
              [2; -1; 0]%Z) as [H _].
  destruct (load_files_list unrounded ["a.tif"; "b.tif"; "c.tif"]%string
              [0; 3]%Z) as [_ H'].
  split.
  - destruct H as (fs & E & _).
    + repeat constructor; unfold in_bounds; simpl; lia.
    + rewrite E. revert E. vm_compute. now intros [= <-].
  - apply H'. intros HF. apply Forall_cons in HF. destruct HF as [_ HF].
    apply Forall_cons in HF. destruct HF as [[_ HF] _]. simpl in HF. lia.
Defined.

Lemma frame_indices_zero (rnd : Q -> Q) (k : nat) :
  frame_indices rnd k 0 = Ok [].
Proof. reflexivity. Qed.

Lemma frame_indices_negative (rnd : Q -> Q) (k : nat) (n : Z) :
  (n < 0)%Z -> frame_indices rnd k n = Raise ValueError.
Proof.
  intros Hn. unfold frame_indices, linspace.
  destruct (Z.ltb_spec n 0); [reflexivity|lia].
Qed.

(** X8. With at least one [.tif] file present, an integer
    [frame_numbers] of zero or less raises [ValueError]: a negative count
    is refused by [np.linspace], and a count of zero selects no file,
    which [tifffile.imread] refuses. *)
Theorem get_frames_count_not_positive {stack : Type} (rnd : Q -> Q)
    (imread : list string -> result stack) (fs : filesystem)
    (folder : string) (n : Z) :
  imread [] = Raise ValueError ->
  glob_tif fs folder <> [] -> (n <= 0)%Z ->
  get_frames rnd imread fs folder (FInt n) = Raise ValueError.
Proof.
  intros Himread Hg Hn. unfold get_frames.
  destruct (glob_tif fs folder) as [|f files] eqn:G; [easy|].
  cbn [length Nat.eqb]. unfold load_files.
  destruct (Z.eq_dec n 0) as [->|Hne].
  - rewrite frame_indices_zero. simpl. exact Himread.
  - rewrite frame_indices_negative by lia. reflexivity.
Qed.

Lemma get_frames_count_not_positive_witness :
  get_frames unrounded imread_paths (one_folder "data" ["a.tif"; "b.tif"])
             "data" (FInt 0)
  = Raise ValueError /\
  get_frames unrounded imread_paths (one_folder "data" ["a.tif"; "b.tif"])
             "data" (FInt (-2))
  = Raise ValueError.
Proof.
  split; apply get_frames_count_not_positive;
    try reflexivity; try discriminate; lia.
Defined.

Lemma take_seq {A : Type} (pre l : list A) :
  take (pre ++ l) (map Z.of_nat (seq (length pre) (length l))) = Ok l.
Proof.
  revert pre. induction l as [|x l IH]; intros pre; simpl; [reflexivity|].
  unfold index1. rewrite length_app. simpl length.
  destruct (Z.ltb_spec (Z.of_nat (length pre))
              (- Z.of_nat (length pre + S (length l)))); [lia|].
  destruct (Z.leb_spec (Z.of_nat (length pre + S (length l)))
              (Z.of_nat (length pre))); [lia|]. cbn [orb].
  destruct (Z.ltb_spec (Z.of_nat (length pre)) 0); [lia|].
  rewrite Nat2Z.id, lookup_app_r by lia. rewrite Nat.sub_diag. simpl.
  specialize (IH (pre ++ [x])). rewrite length_app in IH. simpl in IH.
  rewrite <- app_assoc, Nat.add_1_r in IH. simpl in IH. rewrite IH.
  reflexivity.
Qed.

Lemma even_index_same (k i : nat) :
  (2 <= k)%nat -> even_index k (Z.of_nat k) i = Z.of_nat i.
Proof. intros Hk. unfold even_index. apply Z.div_mul. lia. Qed.

(** X9. Asking for as many evenly spaced frames as there are [.tif]
    files selects every file once, in the order of the listing: the
    same files as [frame_numbers=None]. This holds in exact arithmetic,
    and in float arithmetic that rounds to nearest for up to [2 ^ 25]
    files. *)
Theorem load_files_count_all (files : list string) :
  files <> [] ->
  load_files unrounded files (FInt (Z.of_nat (length files)))
  = load_files unrounded files FNone /\
  forall rnd,
    binary64_rounding rnd ->
    (Z.of_nat (length files) * Z.of_nat (length files) <= 2 ^ 50)%Z ->
    load_files rnd files (FInt (Z.of_nat (length files)))
    = load_files rnd files FNone.
Proof.
  intros Hne. split.
  - unfold load_files.
    destruct (length files) as [|[|k]] eqn:L.
    + destruct files; [easy|discriminate].
    + change (Z.of_nat 1) with 1%Z. rewrite frame_indices_one. cbn [bind].
      destruct files as [|f [|? ?]]; try discriminate. reflexivity.
    + rewrite frame_indices_closed by lia. cbn [bind].
      rewrite Nat2Z.id.
      rewrite (map_ext _ Z.of_nat); [|intros i; apply even_index_same; lia].
      rewrite <- L. exact (take_seq [] files).
  - intros rnd Hr Hsize. unfold load_files.
    destruct (length files) as [|[|k]] eqn:L.
    + destruct files; [easy|discriminate].
    + change (Z.of_nat 1) with 1%Z.
      rewrite (frame_indices_single rnd 1 Hr). cbn [bind].
      destruct files as [|f [|? ?]]; try discriminate. reflexivity.
    + rewrite (frame_indices_same rnd Hr (S (S k)) (Z.of_nat (S (S k))))
        by (try exact Hsize; lia).
      cbn [bind]. rewrite <- L. exact (take_seq [] files).
Qed.

Lemma load_files_count_all_witness :
  load_files unrounded ["a.tif"; "b.tif"; "c.tif"]%string (FInt 3)
  = Ok ["a.tif"; "b.tif"; "c.tif"]%string.
Proof.
  exact (proj1 (load_files_count_all ["a.tif"; "b.tif"; "c.tif"]%string
                  ltac:(discriminate))).
Defined.

Lemma even_index_step_up (k : nat) (n : Z) (i j : nat) :
  (2 <= n <= Z.of_nat k)%Z -> (i <= j)%nat ->
  (even_index k n i + Z.of_nat (j - i) <= even_index k n j)%Z.
Proof.
  intros Hn Hij. unfold even_index.
  rewrite <- Z.div_add by lia. apply Z.div_le_mono; [lia|]. nia.
Qed.

(** With fewer frames than files, an index one below the exact one is
    still above the exact index of every earlier position. *)
Lemma even_index_step_two (k : nat) (n : Z) (i j : nat) :
  (2 <= n < Z.of_nat k)%Z -> (i < j)%nat ->
  ((Z.of_nat j * (Z.of_nat k - 1)) mod (n - 1) = 0)%Z ->
  (even_index k n i + 2 <= even_index k n j)%Z.
Proof.
  intros Hn Hij Hmod. unfold even_index.
  set (a := (Z.of_nat k - 1)%Z) in *. set (b := (n - 1)%Z) in *.
  assert (Hb : (0 < b)%Z) by (unfold b; lia).
  assert (Hab : (b < a)%Z) by (unfold a, b; lia).
  pose proof (Z.div_mod (Z.of_nat j * a) b ltac:(lia)) as Hj.
  rewrite Hmod, Z.add_0_r in Hj.
  pose proof (Z.mul_div_le (Z.of_nat i * a) b Hb) as Hi.
  set (Ei := (Z.of_nat i * a / b)%Z) in *.
  set (Ej := (Z.of_nat j * a / b)%Z) in *.
  assert (b * (Ej - Ei) >= a)%Z by nia.
  nia.
Qed.

(** X10. When an integer [frame_numbers = n] does not exceed the number
    [k] of files, the selected indices are strictly increasing: no frame
    is loaded twice. This holds in exact arithmetic, and in float
    arithmetic that rounds to nearest when [k * n <= 2 ^ 50]. *)
Theorem frame_indices_distinct (k : nat) (n : Z) :
  (1 <= n <= Z.of_nat k)%Z ->
  (exists idx,
     frame_indices unrounded k n = Ok idx /\ strictly_increasing idx) /\
  (forall rnd,
     binary64_rounding rnd -> (Z.of_nat k * n <= 2 ^ 50)%Z ->
     exists idx, frame_indices rnd k n = Ok idx /\ strictly_increasing idx).
Proof.
  intros Hn. split.
  - destruct (frame_indices_lookup k n) as (idx & E & Hidx); [lia|].
    exists idx. split; [exact E|].
    intros i j x y Hij Hx Hy. apply Hidx in Hx, Hy.
    destruct Hx as [Hi ->], Hy as [Hj ->].
    destruct (Z.eqb_spec n 1); [lia|].
    pose proof (even_index_step_up k n i j ltac:(lia) ltac:(lia)). lia.
  - intros rnd Hr Hsize.
    destruct (Z.eq_dec n 1) as [->|Hn1].
    { exists [0%Z]. split; [now apply frame_indices_single|].
      intros [|i] [|j] x y Hij Hx Hy; simpl in *; try discriminate; lia. }
    destruct (Z.eq_dec (Z.of_nat k) n) as [Hkn|Hkn].
    { exists (map Z.of_nat (seq 0 k)).
      split; [apply (frame_indices_same rnd Hr k n); lia|].
      intros i j x y Hij Hx Hy. apply lookup_map_seq in Hx, Hy.
      destruct Hx as [_ ->], Hy as [_ ->]. lia. }
    destruct (frame_indices_rounded rnd Hr k n ltac:(lia) ltac:(lia) Hsize)
      as (idx & E & L & Hb & _).
    exists idx. split; [exact E|].
    intros i j x y Hij Hx Hy.
    destruct (Hb i x Hx) as [[_ Hxi] _].
    destruct (Hb j y Hy) as [[Hyj _] Hexact].
    pose proof (even_index_step_up k n i j ltac:(lia) ltac:(lia)).
    destruct (Z.eq_dec ((Z.of_nat j * (Z.of_nat k - 1)) mod (n - 1)) 0)
      as [Hmod|Hmod].
    + pose proof (even_index_step_two k n i j ltac:(lia) Hij Hmod). lia.
    + rewrite (Hexact Hmod). lia.
Qed.

Lemma frame_indices_distinct_witness :
  exists idx,
    frame_indices unrounded 10 4 = Ok idx /\ strictly_increasing idx.
Proof.
  exact (proj1 (frame_indices_distinct 10 4 ltac:(simpl; lia))).
Defined.

Lemma even_index_hits (k : nat) (n t : Z) :
  (2 <= n)%Z -> (Z.of_nat k <= n)%Z -> (2 <= k)%nat ->
  (0 <= t <= Z.of_nat k - 1)%Z ->
  exists i : nat, (Z.of_nat i <= n - 1)%Z /\ even_index k n i = t.
Proof.
  intros Hn Hkn Hk Ht.
  set (K := (Z.of_nat k - 1)%Z). set (D := (n - 1)%Z).
  assert (0 < K)%Z by (unfold K; lia).
  assert (K <= D)%Z by (unfold K, D; lia).
  set (i := ((t * D + K - 1) / K)%Z).
  assert (Hlo : (t * D <= i * K)%Z).
  { unfold i. pose proof (Z.div_mod (t * D + K - 1) K ltac:(lia)).
    pose proof (Z.mod_pos_bound (t * D + K - 1) K ltac:(lia)). nia. }
  assert (Hhi : (i * K <= t * D + K - 1)%Z).
  { unfold i. pose proof (Z.div_mod (t * D + K - 1) K ltac:(lia)).
    pose proof (Z.mod_pos_bound (t * D + K - 1) K ltac:(lia)). nia. }
  assert (Hi0 : (0 <= i)%Z) by (unfold i; apply Z.div_pos; nia).
  assert (HiD : (i <= D)%Z) by nia.
  exists (Z.to_nat i). split; [unfold D in HiD; lia|].
  unfold even_index. rewrite Z2Nat.id by lia. fold K D.
  symmetry. apply (Z.div_unique _ _ _ (i * K - t * D)); lia.
Qed.

(** A list of integers that never climbs by more than one takes every
    value between its first element and any later one. *)
Lemma climbs_through (idx : list Z) :
  (forall j x y, idx !! j = Some x -> idx !! S j = Some y -> (y <= x + 1)%Z) ->
  forall m x0 xm t,
    idx !! 0%nat = Some x0 -> idx !! m = Some xm -> (x0 <= t <= xm)%Z ->
    exists j, idx !! j = Some t.
Proof.
  intros Hstep m. induction m as [|m IH]; intros x0 xm t H0 Hm Ht.
  - rewrite H0 in Hm. injection Hm as <-. exists 0%nat.
    replace t with x0 by lia. exact H0.
  - destruct (idx !! m) as [x|] eqn:Ex.
    + destruct (Z.le_gt_cases t x) as [Hle|Hgt].
      * apply (IH x0 x t H0 eq_refl). lia.
      * pose proof (Hstep m x xm Ex Hm). exists (S m).
        replace t with xm by lia. exact Hm.
    + apply lookup_ge_None in Ex. apply lookup_lt_Some in Hm. lia.
Qed.

(** With more frames than files the exact index climbs by at most one,
    and not at all after a position where the quotient is an integer. *)
Lemma even_index_step_one (k : nat) (n : Z) (j : nat) :
  (1 <= k)%nat -> (Z.of_nat k < n)%Z ->
  (even_index k n (S j) <= even_index k n j + 1)%Z /\
  (((Z.of_nat j * (Z.of_nat k - 1)) mod (n - 1) = 0)%Z ->
   even_index k n (S j) = even_index k n j).
Proof.
  intros Hk Hn. unfold even_index.
  set (a := (Z.of_nat k - 1)%Z) in *. set (b := (n - 1)%Z) in *.
  assert (Hb : (0 < b)%Z) by (unfold b; lia).
  assert (Hab : (0 <= a < b)%Z) by (unfold a, b; lia).
  replace (Z.of_nat (S j) * a)%Z with (Z.of_nat j * a + a)%Z by lia.
  pose proof (Z.div_mod (Z.of_nat j * a) b ltac:(lia)) as Hj.
  pose proof (Z.mod_pos_bound (Z.of_nat j * a) b Hb) as Hr.
  set (E := (Z.of_nat j * a / b)%Z) in *.
  set (r := ((Z.of_nat j * a) mod b)%Z) in *.
  split.
  - apply Z.lt_succ_r. apply Z.div_lt_upper_bound; [lia|]. nia.
  - intros Hmod. symmetry. apply (Z.div_unique _ _ _ a); lia.
Qed.

(** X11. When an integer [frame_numbers = n] is at least the number [k]
    of files, every file is selected at least once. This holds in exact
    arithmetic, and in float arithmetic that rounds to nearest when
    [k * n <= 2 ^ 50]. *)
Theorem frame_indices_cover (k : nat) (n : Z) :
  (1 <= k)%nat -> (Z.of_nat k <= n)%Z ->
  (exists idx,
     frame_indices unrounded k n = Ok idx /\ selects_all k idx) /\
  (forall rnd,
     binary64_rounding rnd -> (Z.of_nat k * n <= 2 ^ 50)%Z ->
     exists idx, frame_indices rnd k n = Ok idx /\ selects_all k idx).
Proof.
  intros Hk Hn. split.
  - destruct (frame_indices_lookup k n) as (idx & E & Hidx); [lia|].
    exists idx. split; [exact E|]. intros t Ht.
    destruct (Z.eqb_spec n 1) as [->|Hn1].
    + exists 0%nat. apply Hidx. split; [lia|]. simpl. lia.
    + destruct (Nat.eq_dec k 1%nat) as [->|Hk1].
      * exists 0%nat. apply Hidx. split; [lia|].
        unfold even_index. simpl. rewrite Z.div_0_l by lia. lia.
      * destruct (even_index_hits k n t) as (i & Hi & Hti); try lia.
        exists i. apply Hidx. split; [lia|]. now symmetry.
  - intros rnd Hr Hsize.
    destruct (Z.eq_dec n 1) as [->|Hn1].
    { exists [0%Z]. split; [now apply frame_indices_single|].
      intros t Ht. exists 0%nat. simpl. f_equal. lia. }
    destruct (Z.eq_dec (Z.of_nat k) n) as [Hkn|Hkn].
    { exists (map Z.of_nat (seq 0 k)).
      split; [apply (frame_indices_same rnd Hr k n); lia|].
      intros t Ht. exists (Z.to_nat t). apply lookup_map_seq. lia. }
    destruct (frame_indices_rounded rnd Hr k n Hk ltac:(lia) Hsize)
      as (idx & E & L & Hb & H0 & Hl & _).
    exists idx. split; [exact E|]. intros t Ht.
    rewrite last_lookup in Hl.
    apply (climbs_through idx) with (m := Nat.pred (length idx))
                                    (x0 := 0%Z) (xm := (Z.of_nat k - 1)%Z);
      [|exact H0|exact Hl|lia].
    intros j x y Hx Hy.
    destruct (Hb j x Hx) as [[Hxj _] Hexact].
    destruct (Hb (S j) y Hy) as [[_ Hyj] _].
    destruct (even_index_step_one k n j Hk ltac:(lia)) as [Hone Hflat].
    destruct (Z.eq_dec ((Z.of_nat j * (Z.of_nat k - 1)) mod (n - 1)) 0)
      as [Hmod|Hmod].
    + rewrite (Hflat Hmod) in Hyj. lia.
    + rewrite (Hexact Hmod). lia.
Qed.

Lemma frame_indices_cover_witness :
  exists idx,
    frame_indices unrounded 3 7 = Ok idx /\ selects_all 3 idx.
Proof.
  exact (proj1 (frame_indices_cover 3 7 ltac:(simpl; lia) ltac:(simpl; lia))).
Defined.

(** X12. Whatever [frame_numbers] is, a stack that [get_frames] returns
    was read by [tifffile.imread] from paths of the form
    [os.path.join(d, entry)], where [d] is a directory that [glob] lists
    for the folder path and [entry] is an entry of [d] that matches
    [*.tif] and is not hidden. For a folder path without the pattern
    characters [*], [?] and [[], [d] is the folder given: no other file
    is read. *)
Theorem get_frames_reads_only_tif {stack : Type} (rnd : Q -> Q)
    (imread : list string -> result stack) (fs : filesystem)
    (folder : string) (fn : frame_numbers) (s : stack) :
  get_frames rnd imread fs folder fn = Ok s ->
  exists paths,
    imread paths = Ok s /\
    (forall p, p ∈ paths ->
       exists d entry,
         d ∈ glob_dirs fs folder /\ entry ∈ scandir fs d /\
         matches_tif entry = true /\ p = path_join d entry) /\
    (has_magic folder = false ->
     forall p, p ∈ paths ->
       exists entry,
         entry ∈ scandir fs (dirname folder) /\
         matches_tif entry = true /\
         p = path_join (dirname folder) entry).
Proof.
  intros H. unfold get_frames in H.
  destruct (length (glob_tif fs folder) =? 0)%nat; [discriminate|].
  bind_inv H. exists t. split; [exact H|].
  assert (Hsel : forall p, p ∈ t -> p ∈ glob_tif fs folder).
  { intros p Hp. destruct fn as [|l|n]; simpl in E.
    - now injection E as <-.
    - eapply take_elem; eassumption.
    - bind_inv E. eapply take_elem; eassumption. }
  assert (Hall : forall p, p ∈ t ->
            exists d entry,
              d ∈ glob_dirs fs folder /\ entry ∈ scandir fs d /\
              matches_tif entry = true /\ p = path_join d entry).
  { intros p Hp. apply Hsel in Hp. unfold glob_tif in Hp.
    apply list_elem_of_In, in_flat_map in Hp. destruct Hp as (d & Hd & Hp).
    apply in_map_iff in Hp. destruct Hp as (entry & <- & He).
    apply list_elem_of_In, list_elem_of_filter in He. destruct He as [Hm He].
    exists d, entry. split; [now apply list_elem_of_In|].
    split; [exact He|]. split; [now apply Is_true_true|reflexivity]. }
  split; [exact Hall|].
  intros Hm p Hp. destruct (Hall p Hp) as (d & entry & Hd & He & Ht & ->).
  unfold glob_dirs in Hd. rewrite has_magic_dirname, Hm in Hd.
  apply list_elem_of_singleton in Hd. subst d. now exists entry.
Qed.

Lemma get_frames_reads_only_tif_witness :
  exists paths,
    imread_paths paths = Ok ["data/b.tif"%string] /\
    forall p, p ∈ paths ->
      exists entry,
        entry ∈ [".hidden.tif"; "b.tif"; "notes.txt"]%string /\
        matches_tif entry = true /\ p = path_join "data" entry.
Proof.
  destruct (get_frames_reads_only_tif unrounded imread_paths
              (one_folder "data" [".hidden.tif"; "b.tif"; "notes.txt"])
              "data" (FInt 1) ["data/b.tif"%string] eq_refl)
    as (paths & E & _ & H).
  exists paths. split; [exact E|]. exact (H eq_refl).
Defined.

End SelectionFacts.

(** ** get_correlation_image: the result is a new array *)

Module CorrelationMore.
Import Store Correlation StoreSpec CorrelationFacts.

Section Result.
Context {arr : Type}.
Variable np_ones_3_3 : arr.
Variables set_1_1_zero np_ones_frame np_mean_0 np_std_0 : arr -> result arr.
Variables set_zeros_to_inf newaxis : arr -> result arr.
Variables scipy_convolve subtract divide multiply : arr -> arr -> result arr.

Lemma safe_get_correlation_image_result (h0 : heap arr) (imgs : loc) :
  safe h0 ∅
    (get_correlation_image np_ones_3_3 set_1_1_zero np_ones_frame
       scipy_convolve np_mean_0 np_std_0 set_zeros_to_inf newaxis
       subtract divide multiply imgs)
    (fun l N => l ∈ N).
Proof.
  unfold get_correlation_image.
  eapply safe_bind; [apply safe_copy|]. intros imgs' N1 S1 Hi.
  eapply safe_bind; [apply safe_alloc|]. intros kernel N2 S2 Hk.
  eapply safe_bind; [apply safe_inplace1; set_solver|]. intros _ N3 S3 _.
  eapply safe_bind; [apply safe_unop|]. intros ones N4 S4 _.
  eapply safe_bind; [apply safe_binop|]. intros mask N5 S5 _.
  eapply safe_bind; [apply safe_unop|]. intros mean N6 S6 _.
  eapply safe_bind; [apply safe_inplace2; set_solver|]. intros _ N7 S7 _.
  eapply safe_bind; [apply safe_unop|]. intros imgs_std N8 S8 Hs.
  eapply safe_bind; [apply safe_inplace1; set_solver|]. intros _ N9 S9 _.
  eapply safe_bind; [apply safe_inplace2; set_solver|]. intros _ N10 S10 _.
  eapply safe_bind; [apply safe_unop|]. intros kernel3 N11 S11 _.
  eapply safe_bind; [apply safe_binop|]. intros conv N12 S12 _.
  eapply safe_bind; [apply safe_binop|]. intros c1 N13 S13 _.
  eapply safe_bind; [apply safe_binop|]. intros c2 N14 S14 _.
  eapply safe_bind; [apply safe_unop|]. intros c3 N15 S15 Hc3.
  now apply safe_ret.
Qed.

(** X13. The correlation image that [get_correlation_image] returns is
    a new array: it is none of the objects that existed before the call,
    so it never aliases the stack passed in. *)
Theorem get_correlation_image_result_is_new (h : heap arr) (imgs l : loc) :
  (get_correlation_image np_ones_3_3 set_1_1_zero np_ones_frame
     scipy_convolve np_mean_0 np_std_0 set_zeros_to_inf newaxis
     subtract divide multiply imgs h).1 = Ok l ->
  h !! l = None /\ (is_Some (h !! imgs) -> l <> imgs).
Proof.
  intros Hl.
  destruct (safe_get_correlation_image_result h imgs h)
    as (N & _ & [_ Hdis] & Hpost).
  { split; [done|]. apply disjoint_empty_l. }
  specialize (Hpost l Hl).
  assert (h !! l = None) as Hnone.
  { apply not_elem_of_dom. intros Hin. exact (Hdis l Hpost Hin). }
  split; [exact Hnone|]. intros [v Hv] ->. congruence.
Qed.

End Result.

(** A one-pixel float array: the call returns, and the result is not the
    object passed in. *)
Lemma get_correlation_image_result_is_new_witness :
  let h : gmap nat OnePixel.pixel := {[ 5%nat := OnePixel.Pixel true 7 ]} in
  exists l, (OnePixel.get_correlation_image 5%nat h).1 = Ok l /\
            h !! l = None /\ l <> 5%nat.
Proof.
  intros h.
  destruct ((OnePixel.get_correlation_image 5%nat h).1) as [l|e] eqn:E;
    [|vm_compute in E; discriminate E].
  exists l. split; [reflexivity|].
  destruct (get_correlation_image_result_is_new _ _ _ _ _ _ _ _ _ _ _ h
              5%nat l E) as [H1 H2].
  split; [exact H1|]. apply H2. exists (OnePixel.Pixel true 7).
  apply lookup_singleton_eq.
Defined.

End CorrelationMore.

(** ** get_targets: malformed folders and the soma masks *)

Module TargetsMore.
Import Ndarray Targets TargetsSpec TargetsFacts.

Section AnyOpenCV.
Context {contour : Type}.
Variable findContours : ndarray Z -> list contour.
Variable drawContours :
  ndarray Z -> list contour -> Z -> Z -> Z -> result (ndarray Z).
Variable circle : ndarray Z -> Z * Z -> Z -> Z -> Z -> result (ndarray Z).

(** X14. When [info.json] declares fewer than three dimensions,
    [get_targets] raises [IndexError]: the slice [dimensions[1:3]] has
    fewer than two entries. *)
Theorem get_targets_too_few_dimensions (f : label_folder)
    (collapse_masks : bool) (centroid_radius border_thickness : Z) :
  (length (info_dimensions f) < 3)%nat ->
  get_targets findContours drawContours circle f collapse_masks
    centroid_radius border_thickness = Raise IndexError.
Proof.
  intros H. unfold get_targets.
  destruct (info_dimensions f) as [|a [|b [|c l]]]; simpl in *;
    try reflexivity; lia.
Qed.

(** X15. When the second or third declared dimension is negative,
    [get_targets] raises [ValueError] before any cell is looked at. *)
Theorem get_targets_negative_dimension (f : label_folder) (d0 d1 : Z)
    (collapse_masks : bool) (centroid_radius border_thickness : Z) :
  slice 1 3 (info_dimensions f) = [d0; d1] ->
  d0 < 0 \/ d1 < 0 ->
  get_targets findContours drawContours circle f collapse_masks
    centroid_radius border_thickness = Raise ValueError.
Proof.
  intros Hd Hneg. unfold get_targets. rewrite Hd.
  cbn [getitem lookup list_lookup bind]. unfold zeros. cbn [forallb].
  destruct (Z.leb_spec 0 (Z.of_nat (length (regions f)))); [|lia].
  destruct (Z.leb_spec 0 d0); [|reflexivity].
  destruct (Z.leb_spec 0 d1); [lia|]. reflexivity.
Qed.

(** X16. A folder without regions: [get_targets] returns three stacks of
    shape (0, [dimensions[0]], [dimensions[1]]) without any foreground
    pixel, and with [collapse_masks=True] it raises [ValueError], since
    an empty axis has no maximum. *)
Theorem get_targets_no_regions (f : label_folder) (d0 d1 : Z)
    (centroid_radius border_thickness : Z) :
  slice 1 3 (info_dimensions f) = [d0; d1] ->
  0 <= d0 -> 0 <= d1 -> regions f = [] ->
  (exists m,
     get_targets findContours drawContours circle f false
       centroid_radius border_thickness = Ok m /\
     shapes_are [0; d0; d1] m /\
     forall idx, item (somas m) idx = false /\
                 item (borders m) idx = false /\
                 item (centroids m) idx = false) /\
  get_targets findContours drawContours circle f true
    centroid_radius border_thickness = Raise ValueError.
Proof.
  intros Hd H0 H1 Hr. unfold get_targets. rewrite Hd, Hr.
  cbn [getitem lookup list_lookup bind length].
  rewrite zeros_ok by (repeat constructor; [lia|assumption..]).
  cbn [bind process_cells]. split.
  - eexists. split; [reflexivity|]. split; [now repeat split|].
    intros idx. now repeat split.
  - reflexivity.
Qed.

End AnyOpenCV.

Lemma get_targets_too_few_dimensions_witness :
  get_targets OpenCVStandIn.findContours OpenCVStandIn.drawContours
    OpenCVStandIn.circle (LabelFolder [512; 512] [[(1, 1)]]) false 2 2
  = Raise IndexError.
Proof.
  apply get_targets_too_few_dimensions. simpl. lia.
Defined.

Lemma get_targets_negative_dimension_witness :
  get_targets OpenCVStandIn.findContours OpenCVStandIn.drawContours
    OpenCVStandIn.circle (LabelFolder [100; 4; -5] [[(1, 1)]]) false 2 2
  = Raise ValueError.
Proof.
  apply (get_targets_negative_dimension _ _ _ _ 4 (-5)); [reflexivity|lia].
Defined.

Lemma get_targets_no_regions_witness :
  get_targets OpenCVStandIn.findContours OpenCVStandIn.drawContours
    OpenCVStandIn.circle (LabelFolder [100; 4; 5] []) true 2 2
  = Raise ValueError.
Proof.
  apply (get_targets_no_regions _ _ _ (LabelFolder [100; 4; 5] []) 4 5);
    try reflexivity; lia.
Defined.

Section Cells.
Context {contour : Type}.
Variable findContours : ndarray Z -> list contour.
Variable drawContours :
  ndarray Z -> list contour -> Z -> Z -> Z -> result (ndarray Z).
Variable circle : ndarray Z -> Z * Z -> Z -> Z -> Z -> result (ndarray Z).

Local Abbreviation process_cell :=
  (process_cell findContours drawContours circle).
Local Abbreviation process_cells :=
  (process_cells findContours drawContours circle).
Local Abbreviation get_targets :=
  (get_targets findContours drawContours circle).

Lemma norm_index_fail (n i : Z) :
  ~ (- n <= i < n) -> norm_index n i = Raise IndexError.
Proof.
  intros H. unfold norm_index.
  destruct (Z.ltb_spec i (- n)); [reflexivity|].
  destruct (Z.leb_spec n i); [reflexivity|]. lia.
Qed.

Lemma norm_index_inside (n i : Z) : 0 <= i < n -> norm_index n i = Ok i.
Proof.
  intros H. unfold norm_index.
  destruct (Z.ltb_spec i (- n)); [lia|].
  destruct (Z.leb_spec n i); [lia|]. cbn [orb].
  destruct (Z.ltb_spec i 0); [lia|reflexivity].
Qed.

Lemma set_pixels_fail (a : ndarray bool) (i d0 d1 : Z) (cell : list (Z * Z)) :
  ~ Forall (indexable d0 d1) cell ->
  set_pixels a i d0 d1 cell = Raise IndexError.
Proof.
  revert a. induction cell as [|[r c] cell IH]; intros a Hbad.
  - exfalso. apply Hbad. constructor.
  - simpl.
    destruct (decide (- d0 <= r < d0)) as [Hr|Hr];
      [|now rewrite (norm_index_fail _ _ Hr)].
    destruct (norm_index_ok d0 r Hr) as (r' & -> & _). cbn [bind].
    destruct (decide (- d1 <= c < d1)) as [Hc|Hc];
      [|now rewrite (norm_index_fail _ _ Hc)].
    destruct (norm_index_ok d1 c Hc) as (c' & -> & _). cbn [bind].
    apply IH. intros HF. apply Hbad. constructor; [now split|exact HF].
Qed.

Lemma set_cell_fail (a : ndarray bool) (i d0 d1 : Z) (cell : list (Z * Z)) :
  cell = [] \/ ~ Forall (indexable d0 d1) cell ->
  set_cell a i d0 d1 cell = Raise IndexError.
Proof.
  intros [->|Hbad]; [reflexivity|]. unfold set_cell.
  destruct cell; [reflexivity|]. now apply set_pixels_fail.
Qed.

Lemma process_cells_app (dims : list Z) (d0 d1 radius thickness i : Z)
    (cs1 cs2 : list (list (Z * Z))) (m : masks) :
  process_cells dims d0 d1 radius thickness i (cs1 ++ cs2) m =
  let* m' := process_cells dims d0 d1 radius thickness i cs1 m in
  process_cells dims d0 d1 radius thickness (i + Z.of_nat (length cs1)) cs2 m'.
Proof.
  revert i m. induction cs1 as [|c cs1 IH]; intros i m; simpl.
  - now rewrite Z.add_0_r.
  - destruct (process_cell dims d0 d1 radius thickness i c m) as [m1|e];
      cbn [bind]; [|reflexivity].
    rewrite IH. now replace (i + 1 + Z.of_nat (length cs1))
      with (i + Z.pos (Pos.of_succ_nat (length cs1))) by lia.
Qed.

Lemma set_pixels_char (a : ndarray bool) (i d0 d1 : Z) (cell : list (Z * Z)) :
  Forall (inside d0 d1) cell ->
  exists a',
    set_pixels a i d0 d1 cell = Ok a' /\
    forall idx, item a' idx = true <->
                item a idx = true \/
                exists r c, (r, c) ∈ cell /\ idx = [i; r; c].
Proof.
  intros H. revert a. induction H as [|[r c] cell [Hr Hc] _ IH]; intros a.
  - exists a. split; [reflexivity|]. intros idx. split; [now left|].
    intros [H|(r & c & Hin & _)]; [exact H|].
    now apply not_elem_of_nil in Hin.
  - simpl in Hr, Hc. simpl.
    rewrite (norm_index_inside _ _ Hr), (norm_index_inside _ _ Hc).
    cbn [bind].
    destruct (IH (set_item a [i; r; c] true)) as (a' & E & P).
    exists a'. split; [exact E|]. intros idx. rewrite P. simpl.
    destruct (decide (idx = [i; r; c])) as [->|Hne].
    + split; [|now left]. intros _. right. exists r, c.
      split; [apply list_elem_of_here|reflexivity].
    + split.
      * intros [Ha|(r' & c' & Hin & ->)]; [now left|].
        right. exists r', c'. split; [now apply list_elem_of_further|reflexivity].
      * intros [Ha|(r' & c' & Hin & ->)]; [now left|].
        apply elem_of_cons in Hin. destruct Hin as [[= -> ->]|Hin]; [easy|].
        right. now exists r', c'.
Qed.

Lemma process_cell_somas (dims : list Z) (d0 d1 radius thickness i : Z)
    (cell : list (Z * Z)) (m m' : masks) :
  process_cell dims d0 d1 radius thickness i cell m = Ok m' ->
  set_cell (somas m) i d0 d1 cell = Ok (somas m').
Proof.
  unfold Targets.process_cell. intros H. do 6 bind_inv H.
  injection H as <-. exact E.
Qed.

Lemma process_cells_somas (dims : list Z) (d0 d1 radius thickness : Z)
    (cells : list (list (Z * Z))) :
  Forall (fun cell => cell <> [] /\ Forall (inside d0 d1) cell) cells ->
  forall (i : Z) (m m' : masks),
    process_cells dims d0 d1 radius thickness i cells m = Ok m' ->
    forall idx,
      item (somas m') idx = true <->
      item (somas m) idx = true \/
      exists (j : nat) cell r c,
        cells !! j = Some cell /\ (r, c) ∈ cell /\
        idx = [i + Z.of_nat j; r; c].
Proof.
  induction 1 as [|cell cells [Hne Hin] _ IH]; intros i m m' H idx.
  - simpl in H. injection H as <-. split; [now left|].
    intros [Ha|(j & cell & r & c & Hl & _)]; [exact Ha|].
    now rewrite lookup_nil in Hl.
  - simpl in H. bind_inv H. rewrite (IH _ _ _ H idx).
    apply process_cell_somas in E. unfold set_cell in E.
    destruct cell as [|p cell]; [easy|].
    destruct (set_pixels_char (somas m) i d0 d1 (p :: cell) Hin)
      as (a' & Ea & P).
    rewrite Ea in E. injection E as E. rewrite <- E, P. split.
    + intros [[Ha|(r & c & Hrc & ->)]|(j & cl & r & c & Hl & Hrc & ->)].
      * now left.
      * right. exists 0%nat, (p :: cell), r, c.
        split; [reflexivity|]. split; [exact Hrc|]. now rewrite Z.add_0_r.
      * right. exists (S j), cl, r, c. split; [exact Hl|].
        split; [exact Hrc|]. f_equal. lia.
    + intros [Ha|(j & cl & r & c & Hl & Hrc & ->)]; [now left; left|].
      destruct j as [|j]; simpl in Hl.
      * injection Hl as <-. left. right. exists r, c.
        split; [exact Hrc|]. now rewrite Z.add_0_r.
      * right. exists j, cl, r, c. split; [exact Hl|].
        split; [exact Hrc|]. f_equal. lia.
Qed.

Lemma get_targets_loop (f : label_folder) (d0 d1 radius thickness : Z) :
  slice 1 3 (info_dimensions f) = [d0; d1] -> 0 <= d0 -> 0 <= d1 ->
  get_targets f false radius thickness =
  process_cells [d0; d1] d0 d1 radius thickness 0 (regions f)
    (let z := Array [Z.of_nat (length (regions f)); d0; d1]
                    (fun _ => false) in Masks z z z).
Proof.
  intros Hd H0 H1. unfold Targets.get_targets. rewrite Hd.
  cbn [getitem lookup list_lookup bind].
  rewrite zeros_ok by (repeat constructor; [lia|assumption..]).
  cbn [bind]. now destruct (process_cells _ _ _ _ _ _ _ _).
Qed.

Hypothesis findContours_nonempty :
  forall (img : ndarray Z) (d0 d1 r c : Z),
    shape img = [d0; d1] -> 0 <= r < d0 -> 0 <= c < d1 ->
    item img [r; c] <> 0 -> findContours img <> [].
Hypothesis drawContours_shape :
  forall (img : ndarray Z) (cs : list contour) (color thickness : Z),
    cs <> [] -> thickness <= 32767 ->
    exists img', drawContours img cs 0 color thickness = Ok img' /\
                 shape img' = shape img.
Hypothesis circle_centre :
  forall (img : ndarray Z) (x y radius color : Z),
    0 <= radius ->
    exists img', circle img (x, y) radius color (-1) = Ok img' /\
                 shape img' = shape img /\
                 forall d0 d1, shape img = [d0; d1] ->
                               0 <= y < d0 -> 0 <= x < d1 ->
                               item img' [y; x] = color.

(** X17. A region without coordinates, or with a pixel that is not a
    valid index into the image, makes [get_targets] raise [IndexError]
    when the regions before it are well formed. *)
Theorem get_targets_bad_region (f : label_folder) (d0 d1 : Z)
    (good : list (list (Z * Z))) (bad : list (Z * Z))
    (rest : list (list (Z * Z)))
    (collapse_masks : bool) (centroid_radius border_thickness : Z) :
  slice 1 3 (info_dimensions f) = [d0; d1] -> 0 <= d0 -> 0 <= d1 ->
  0 <= centroid_radius -> border_thickness <= 32767 ->
  regions f = good ++ bad :: rest ->
  Forall (fun cell => cell <> [] /\ Forall (indexable d0 d1) cell) good ->
  bad = [] \/ ~ Forall (indexable d0 d1) bad ->
  get_targets f collapse_masks centroid_radius border_thickness
  = Raise IndexError.
Proof.
  intros Hd H0 H1 Hr Ht Hreg Hgood Hbad.
  unfold Targets.get_targets. rewrite Hd.
  cbn [getitem lookup list_lookup bind].
  rewrite zeros_ok by (repeat constructor; [lia|assumption..]).
  cbn [bind]. rewrite Hreg. rewrite process_cells_app.
  set (z := Array _ _).
  destruct (process_cells_ok findContours drawContours circle
              findContours_nonempty drawContours_shape circle_centre
              (Z.of_nat (length (good ++ bad :: rest))) d0 d1
              centroid_radius border_thickness good H0 H1 Hr Ht Hgood
              0 (Masks z z z)) as (m1 & -> & _).
  { now repeat split. }
  cbn [bind Targets.process_cells]. unfold Targets.process_cell.
  now rewrite (set_cell_fail _ _ _ _ _ Hbad).
Qed.

(** X18. On a valid label folder whose cells lie inside the image, the
    soma mask of cell [j] shows exactly the pixels listed for that
    cell. *)
Theorem get_targets_somas (f : label_folder) (d0 d1 : Z)
    (centroid_radius border_thickness : Z) :
  valid_label_folder f d0 d1 ->
  Forall (Forall (inside d0 d1)) (regions f) ->
  0 <= centroid_radius -> border_thickness <= 32767 ->
  exists m,
    get_targets f false centroid_radius border_thickness = Ok m /\
    forall (j : nat) (r c : Z),
      item (somas m) [Z.of_nat j; r; c] = true <->
      exists cell, regions f !! j = Some cell /\ (r, c) ∈ cell.
Proof.
  intros Hv Hin Hr Ht.
  destruct (get_targets_run findContours drawContours circle
              findContours_nonempty drawContours_shape circle_centre
              f d0 d1 centroid_radius border_thickness Hv Hr Ht)
    as (m & E & _).
  exists m. split; [exact E|].
  destruct Hv as (Hd & H0 & H1 & Hcells).
  rewrite (get_targets_loop f d0 d1 _ _ Hd H0 H1) in E.
  assert (Hboth : Forall (fun cell => cell <> [] /\ Forall (inside d0 d1) cell)
                         (regions f)).
  { apply Forall_forall. intros cell Hc. split.
    - rewrite Forall_forall in Hcells. now apply Hcells.
    - rewrite Forall_forall in Hin. now apply Hin. }
  intros j r c.
  rewrite (process_cells_somas _ _ _ _ _ _ Hboth _ _ _ E). simpl. split.
  - intros [Hf|(j' & cell & r' & c' & Hl & Hrc & Heq)]; [discriminate|].
    injection Heq as Hj -> ->. assert (j' = j) as -> by lia. now exists cell.
  - intros (cell & Hl & Hrc). right. exists j, cell, r, c.
    split; [exact Hl|]. split; [exact Hrc|]. f_equal.
Qed.

End Cells.

Lemma get_targets_bad_region_witness :
  Targets.get_targets OpenCVStandIn.findContours OpenCVStandIn.drawContours
    OpenCVStandIn.circle
    (LabelFolder [100; 4; 5] [[(1, 1)]; [(2, 7)]; [(0, 0)]]) false 2 2
  = Raise IndexError.
Proof.
  apply (get_targets_bad_region _ _ _ standin_findContours_nonempty
           standin_drawContours_shape standin_circle_centre
           _ 4 5 [[(1, 1)]] [(2, 7)] [[(0, 0)]]);
    try reflexivity; try lia.
  - repeat constructor; simpl; try lia; discriminate.
  - right. intros HF. apply Forall_cons in HF.
    destruct HF as [[_ Hc] _]. simpl in Hc. lia.
Defined.

Lemma get_targets_somas_witness :
  exists m,
    Targets.get_targets OpenCVStandIn.findContours
      OpenCVStandIn.drawContours OpenCVStandIn.circle
      sample_folder false 2 2 = Ok m /\
    item (somas m) [1; 3; 4] = true /\ item (somas m) [1; 1; 1] = false.
Proof.
  destruct (get_targets_somas _ _ _ standin_findContours_nonempty
              standin_drawContours_shape standin_circle_centre
              sample_folder 4 5 2 2 sample_folder_valid sample_folder_inside)
    as (m & E & P); [lia|lia|].
  exists m. split; [exact E|]. split.
  - apply (P 1%nat 3 4). eexists. split; [reflexivity|].
    apply list_elem_of_here.
  - destruct (item (somas m) [1; 1; 1]) eqn:Hp; [|reflexivity].
    apply (P 1%nat 1 1) in Hp. destruct Hp as (cell & Hl & Hrc).
    injection Hl as <-. apply list_elem_of_singleton in Hrc. discriminate.
Defined.

End TargetsMore.

(** ** The fit loop: which checkpoints are written and how long it runs *)

Module FitMore.
Import KerasFit Train FitSpec CheckpointSpec FitFacts.
Local Open Scope Q_scope.

Section Fit.
Variable val_loss : nat -> Q.
Variable filepath : nat -> Q -> string.
Variable extra_files : list string.
Variable p : Z.

Local Abbreviation on_epoch_end := (on_epoch_end val_loss filepath extra_files).
Local Abbreviation fit_loop := (fit_loop val_loss filepath extra_files).
Local Abbreviation improves := (improves val_loss).
Local Abbreviation stale := (stale val_loss).
Local Abbreviation loop_inv := (loop_inv val_loss p).
Local Abbreviation mc_inv := (mc_inv val_loss filepath).
Local Abbreviation checkpoints_of := (checkpoints_of val_loss filepath).

Lemma checkpoints_of_S (n : nat) :
  checkpoints_of (S n) =
  checkpoints_of n ++
  (if improves n then [(filepath (n + 1)%nat (val_loss n), val_loss n)]
   else []).
Proof.
  unfold CheckpointSpec.checkpoints_of.
  rewrite seq_S, filter_app, map_app. simpl. f_equal.
  rewrite filter_cons. destruct (improves n); simpl.
  - destruct (decide (Is_true true)) as [_|H]; [reflexivity|].
    exfalso. now apply H.
  - destruct (decide (Is_true false)) as [H|_]; [easy|reflexivity].
Qed.

Lemma on_epoch_end_mc (epoch : nat) (st : fit_state) :
  loop_inv epoch st -> mc_inv epoch st ->
  mc_inv (S epoch) (on_epoch_end epoch st).
Proof.
  intros (_ & _ & _ & Hb & _) [Hbest Hsaved].
  unfold CheckpointSpec.mc_inv, KerasFit.on_epoch_end, es_on_epoch_end,
    mc_on_epoch_end.
  rewrite Hbest, (best_before_improves val_loss _ _ Hb), checkpoints_of_S.
  destruct (improves epoch); split; simpl; try reflexivity;
    rewrite ?Hsaved, ?app_nil_r; auto.
Qed.

Lemma fit_loop_mc (remaining : nat) :
  forall (epoch : nat) (st : fit_state),
    loop_inv epoch st -> mc_inv epoch st ->
    mc_inv (length (history (fit_loop remaining epoch st)))
           (fit_loop remaining epoch st).
Proof.
  induction remaining as [|k IH]; intros epoch st Hinv Hmc.
  - simpl. destruct Hinv as (_ & _ & _ & _ & Hh).
    now rewrite Hh, length_map, length_seq.
  - simpl.
    destruct (on_epoch_end_spec val_loss filepath extra_files p epoch st Hinv)
      as (Hh & _ & Hnext).
    pose proof (on_epoch_end_mc epoch st Hinv Hmc) as Hmc'.
    destruct (stop_training (on_epoch_end epoch st)) eqn:E.
    + now rewrite Hh, length_map, length_seq.
    + apply IH; [now apply Hnext|exact Hmc'].
Qed.

Lemma checkpoints_of_above (n : nat) (v : Q) :
  (forall e, (e < n)%nat -> v < val_loss e) ->
  Forall (fun pv : string * Q => v < snd pv) (checkpoints_of n).
Proof.
  intros H. unfold CheckpointSpec.checkpoints_of. apply Forall_map.
  apply Forall_forall. intros e He. simpl.
  apply list_elem_of_filter in He. destruct He as [_ He].
  apply list_elem_of_In, in_seq in He. apply H. lia.
Qed.

End Fit.

Lemma falling_snoc (l : list (string * Q)) (q : string) (v : Q) :
  falling l -> Forall (fun pv : string * Q => v < snd pv) l ->
  falling (l ++ [(q, v)]).
Proof.
  induction l as [|[q' v'] l IH]; simpl; intros Hf Hl.
  - split; [constructor|exact I].
  - destruct Hf as [Hlt Hf]. apply Forall_cons in Hl. destruct Hl as [Hv Hl].
    split; [|now apply IH].
    apply Forall_app. split; [exact Hlt|]. now repeat constructor.
Qed.

Lemma checkpoints_of_falling (val_loss : nat -> Q)
    (filepath : nat -> Q -> string) (n : nat) :
  falling (checkpoints_of val_loss filepath n).
Proof.
  induction n as [|n IH]; [exact I|].
  rewrite checkpoints_of_S.
  destruct (improves val_loss n) eqn:Hi; [|now rewrite app_nil_r].
  apply falling_snoc; [exact IH|].
  apply checkpoints_of_above. now apply improves_iff.
Qed.

Lemma best_scoring_falling (l : list (string * Q)) :
  falling l -> best_scoring l = last l.
Proof.
  induction l as [|[q v] l IH]; [reflexivity|].
  simpl. intros [Hlt Hf]. rewrite (IH Hf).
  destruct l as [|[q' v'] l']; [reflexivity|].
  change (last ((q, v) :: (q', v') :: l')) with (last ((q', v') :: l')).
  destruct (last ((q', v') :: l')) as [[q2 v2]|] eqn:El.
  - assert ((q2, v2) ∈ (q', v') :: l') as Hin.
    { rewrite last_lookup in El. eapply list_elem_of_lookup_2. exact El. }
    rewrite Forall_forall in Hlt. specialize (Hlt _ Hin). simpl in Hlt.
    destruct (Qle_bool v v2) eqn:Hle; [|reflexivity].
    apply Qle_bool_iff in Hle. exfalso. eapply Qlt_not_le; eassumption.
  - apply last_None in El. discriminate El.
Qed.

Lemma fit_generator_saved (val_loss : nat -> Q)
    (filepath : nat -> Q -> string) (extra_files : list string)
    (epochs : nat) (patience : Z) (files : list string) :
  let st := fit_generator val_loss filepath extra_files epochs patience
              files in
  saved (mc st) = checkpoints_of val_loss filepath (length (history st)).
Proof.
  intros st.
  assert (H : mc_inv val_loss filepath (length (history st)) st).
  { apply (fit_loop_mc val_loss filepath extra_files patience).
    - split; [|split; [|split; [|split]]]; simpl; try reflexivity.
      apply best_before_0.
    - split; reflexivity. }
  now destruct H.
Qed.

(** X19. Whatever the losses and the patience, when [fit_generator]
    ends after [n] epochs the checkpoints written are exactly those of
    the epochs at which the validation loss improved, in that order, and
    the best-scoring one is the last one written. *)
Theorem checkpoints_follow_improvements (val_loss : nat -> Q)
    (filepath : nat -> Q -> string) (extra_files : list string)
    (epochs : nat) (patience : Z) (files : list string) :
  let st := fit_generator val_loss filepath extra_files epochs patience
              files in
  saved (mc st) = checkpoints_of val_loss filepath (length (history st)) /\
  best_scoring (saved (mc st)) = last (saved (mc st)).
Proof.
  intros st. pose proof (fit_generator_saved val_loss filepath extra_files
                           epochs patience files) as Hsaved.
  cbv zeta in Hsaved. fold st in Hsaved. split; [exact Hsaved|].
  apply best_scoring_falling. rewrite Hsaved. apply checkpoints_of_falling.
Qed.

Lemma fit_loop_all_improve (val_loss : nat -> Q)
    (filepath : nat -> Q -> string) (extra_files : list string) (p : Z) :
  (forall e, improves val_loss e = true) ->
  forall (remaining epoch : nat) (st : fit_state),
    loop_inv val_loss p epoch st ->
    length (history (fit_loop val_loss filepath extra_files remaining epoch st))
    = (epoch + remaining)%nat.
Proof.
  intros Himp. induction remaining as [|k IH]; intros epoch st Hinv.
  - simpl. destruct Hinv as (_ & _ & _ & _ & Hh).
    rewrite Hh, length_map, length_seq. lia.
  - simpl.
    destruct (on_epoch_end_spec val_loss filepath extra_files p epoch st Hinv)
      as (_ & Hstop & Hnext).
    rewrite Himp, andb_false_r in Hstop. rewrite Hstop.
    rewrite IH by now apply Hnext. lia.
Qed.

Lemma falling_losses_improve (val_loss : nat -> Q) :
  (forall e, val_loss (S e) < val_loss e) ->
  forall e, improves val_loss e = true.
Proof.
  intros Hdec e. apply improves_iff. intros e' He.
  induction e as [|e IH]; [lia|].
  destruct (Nat.eq_dec e' e) as [->|Hne]; [apply Hdec|].
  eapply Qlt_trans; [apply Hdec|]. apply IH. lia.
Qed.

Lemma checkpoints_of_length_all (val_loss : nat -> Q)
    (filepath : nat -> Q -> string) (n : nat) :
  (forall e, improves val_loss e = true) ->
  length (checkpoints_of val_loss filepath n) = n.
Proof.
  intros Himp. induction n as [|n IH]; [reflexivity|].
  rewrite checkpoints_of_S, Himp, length_app, IH. simpl. lia.
Qed.

(** X20. When the validation loss falls at every epoch, training is
    never stopped early, whatever the patience: all the epochs asked for
    are run and a checkpoint is written at each of them. *)
Theorem falling_loss_runs_all_epochs (val_loss : nat -> Q)
    (filepath : nat -> Q -> string) (extra_files : list string)
    (epochs : nat) (patience : Z) (files : list string) :
  (forall e, val_loss (S e) < val_loss e) ->
  let st := fit_generator val_loss filepath extra_files epochs patience
              files in
  length (history st) = epochs /\ length (saved (mc st)) = epochs.
Proof.
  intros Hdec st. pose proof (falling_losses_improve val_loss Hdec) as Himp.
  assert (length (history st) = epochs) as Hn.
  { unfold st, fit_generator.
    rewrite (fit_loop_all_improve val_loss filepath extra_files patience Himp);
      [reflexivity|].
    split; [|split; [|split; [|split]]]; simpl; try reflexivity.
    apply best_before_0. }
  split; [exact Hn|].
  pose proof (fit_generator_saved val_loss filepath extra_files epochs
                patience files) as Hsaved.
  cbv zeta in Hsaved. fold st in Hsaved.
  rewrite Hsaved, Hn. now apply checkpoints_of_length_all.
Qed.

Lemma falling_loss_runs_all_epochs_witness :
  let st := fit_generator falling_loss (checkpoint_path "unet") [] 7 0 [] in
  length (history st) = 7%nat /\ length (saved (mc st)) = 7%nat.
Proof.
  apply falling_loss_runs_all_epochs. intros e. unfold falling_loss.
  unfold Qlt. simpl. lia.
Defined.

Lemma stalled_stale (val_loss : nat -> Q) :
  (forall e, val_loss 0%nat <= val_loss (S e)) ->
  forall e, stale val_loss e = e.
Proof.
  intros Hst. induction e as [|e IH]; [reflexivity|].
  cbn [stale]. rewrite IH.
  destruct (improves val_loss (S e)) eqn:Hi; [|reflexivity].
  pose proof (proj1 (improves_iff val_loss (S e)) Hi 0%nat ltac:(lia)) as Hlt.
  exfalso. eapply Qlt_not_le; [exact Hlt|apply Hst].
Qed.

Lemma stalled_checkpoints (val_loss : nat -> Q)
    (filepath : nat -> Q -> string) (n : nat) :
  (forall e, val_loss 0%nat <= val_loss (S e)) ->
  checkpoints_of val_loss filepath (S n)
  = [(filepath 1%nat (val_loss 0%nat), val_loss 0%nat)].
Proof.
  intros Hst. induction n as [|n IH]; [reflexivity|].
  rewrite checkpoints_of_S, IH.
  destruct (improves val_loss (S n)) eqn:Hi; [|reflexivity].
  pose proof (proj1 (improves_iff val_loss (S n)) Hi 0%nat ltac:(lia)) as Hlt.
  exfalso. eapply Qlt_not_le; [exact Hlt|apply Hst].
Qed.

(** X21. When the validation loss never again goes below that of the
    first epoch, a patience of [p >= 1] stops training after [p + 1]
    epochs (or at the number of epochs asked for, when that is less),
    and the only checkpoint written is the one of the first epoch. *)
Theorem stalled_loss_stops (val_loss : nat -> Q)
    (filepath : nat -> Q -> string) (extra_files : list string)
    (epochs : nat) (patience : Z) (files : list string) :
  (1 <= patience)%Z ->
  (forall e, val_loss 0%nat <= val_loss (S e)) ->
  let st := fit_generator val_loss filepath extra_files epochs patience
              files in
  length (history st) = Nat.min epochs (Z.to_nat patience + 1) /\
  ((1 <= epochs)%nat ->
   saved (mc st) = [(filepath 1%nat (val_loss 0%nat), val_loss 0%nat)]).
Proof.
  intros Hp Hst st.
  destruct (fit_loop_spec val_loss filepath extra_files patience epochs 0%nat
              {| es := es_on_train_begin patience; mc := mc_on_train_begin;
                 stop_training := false; files := files; history := [] |})
    as (n & Hh & Hr & Hs & Hhalt).
  { split; [|split; [|split; [|split]]]; simpl; try reflexivity.
    apply best_before_0. }
  { intros e He. lia. }
  { exact Hp. }
  assert (length (history st) = n) as Hn.
  { unfold st, fit_generator. now rewrite Hh, length_map, length_seq. }
  assert (n = Nat.min epochs (Z.to_nat patience + 1)) as Hmin.
  { assert (n <= Z.to_nat patience + 1)%nat.
    { destruct n as [|[|n]]; try lia.
      specialize (Hs n ltac:(lia)). rewrite (stalled_stale _ Hst) in Hs. lia. }
    destruct (Nat.lt_ge_cases n epochs) as [Hlt|Hge]; [|lia].
    destruct (Hhalt ltac:(lia)) as [Hpos Hge].
    rewrite (stalled_stale _ Hst) in Hge. lia. }
  split; [lia|]. intros He.
  pose proof (fit_generator_saved val_loss filepath extra_files epochs
                patience files) as Hsaved.
  cbv zeta in Hsaved. fold st in Hsaved. rewrite Hsaved, Hn.
  destruct n as [|n]; [lia|]. now apply stalled_checkpoints.
Qed.

Lemma stalled_loss_stops_witness :
  let vl := fun e : nat => if (e =? 0)%nat then 1 else 2 in
  let st := fit_generator vl (checkpoint_path "unet") [] 50 4 [] in
  length (history st) = 5%nat /\
  saved (mc st) = [("unet.01-1.000000.hdf5"%string, 1)].
Proof.
  intros vl.
  destruct (stalled_loss_stops vl (checkpoint_path "unet") [] 50 4 [])
    as [H1 H2].
  - lia.
  - intros e. discriminate.
  - split; [exact H1|]. rewrite H2 by lia. reflexivity.
Defined.

End FitMore.

(** ** train.py: the checkpoint that is kept *)

Module RetentionFacts.
Import KerasFit Train FitSpec CheckpointSpec.

(** *** Suffixes of strings *)

Lemma length_append (a b : string) :
  String.length (a +:+ b) = (String.length a + String.length b)%nat.
Proof. induction a as [|c a IH]; simpl; [reflexivity|now rewrite IH]. Qed.

Lemma substring_all (s : string) : String.substring 0 (String.length s) s = s.
Proof. induction s as [|c s IH]; simpl; [reflexivity|now rewrite IH]. Qed.

Lemma substring_skip (a b : string) :
  String.substring (String.length a) (String.length b) (a +:+ b) = b.
Proof. induction a as [|c a IH]; simpl; [apply substring_all|exact IH]. Qed.

Lemma substring_split (s : string) (k : nat) :
  (k <= String.length s)%nat ->
  s = String.substring 0 k s +:+ String.substring k (String.length s - k) s.
Proof.
  revert k. induction s as [|c s IH]; intros k Hk; simpl in *.
  - destruct k; [reflexivity|lia].
  - destruct k as [|k]; simpl.
    + now rewrite substring_all.
    + change (String c (String.substring 0 k s)
              +:+ String.substring k (String.length s - k) s)
        with (String c (String.substring 0 k s
                        +:+ String.substring k (String.length s - k) s)).
      f_equal. apply IH. lia.
Qed.

Lemma ends_with_iff (suffix s : string) :
  Frames.ends_with suffix s = true <-> exists a, s = a +:+ suffix.
Proof.
  unfold Frames.ends_with. rewrite andb_true_iff, Nat.leb_le, String.eqb_eq.
  split.
  - intros [Hle Hsub].
    exists (String.substring 0 (String.length s - String.length suffix) s).
    rewrite (substring_split s (String.length s - String.length suffix))
      at 1 by lia.
    f_equal.
    replace (String.length s - (String.length s - String.length suffix))%nat
      with (String.length suffix) by lia.
    exact Hsub.
  - intros (a & ->). rewrite length_append. split; [lia|].
    replace (String.length a + String.length suffix - String.length suffix)%nat
      with (String.length a) by lia.
    apply substring_skip.
Qed.

Lemma append_assoc (a b c : string) : (a +:+ b) +:+ c = a +:+ (b +:+ c).
Proof.
  induction a as [|x a IH]; [reflexivity|].
  change (String x ((a +:+ b) +:+ c) = String x (a +:+ (b +:+ c))).
  f_equal. exact IH.
Qed.

Lemma matches_dot_hdf5 (s : string) :
  matches ".hdf5" s = true -> matches "hdf5" s = true.
Proof.
  unfold matches. rewrite !andb_true_iff. intros [He Hh]. split; [|exact Hh].
  apply ends_with_iff in He. destruct He as (a & ->).
  apply ends_with_iff. exists (a +:+ "."). symmetry.
  exact (append_assoc a "." "hdf5").
Qed.

Lemma ends_with_other (suffix other a : string) :
  String.length other = String.length suffix -> other <> suffix ->
  Frames.ends_with suffix (a +:+ other) = false.
Proof.
  intros Hlen Hne. unfold Frames.ends_with. rewrite length_append, Hlen.
  replace (String.length a + String.length suffix - String.length suffix)%nat
    with (String.length a) by lia.
  rewrite <- Hlen, substring_skip.
  apply andb_false_iff. right. now apply String.eqb_neq.
Qed.

Lemma prediction_files_no_hdf5 (batch : nat) (p : string) :
  p ∈ prediction_files batch -> matches "hdf5" p = false.
Proof.
  unfold prediction_files. intros Hp.
  apply list_elem_of_In, in_map_iff in Hp. destruct Hp as (i & <- & _).
  unfold matches. apply andb_false_iff. left.
  rewrite <- append_assoc. now apply ends_with_other.
Qed.

(** *** Files of the model folder *)

Lemma elem_of_write_file (p x : string) (fs : list string) :
  x ∈ write_file p fs <-> x = p \/ x ∈ fs.
Proof.
  unfold write_file. destruct (bool_decide (p ∈ fs)) eqn:E.
  - apply bool_decide_eq_true in E. split; [now right|].
    intros [->|H]; assumption.
  - rewrite elem_of_app, list_elem_of_singleton. tauto.
Qed.

Lemma NoDup_write_file (p : string) (fs : list string) :
  NoDup fs -> NoDup (write_file p fs).
Proof.
  intros H. unfold write_file. destruct (bool_decide (p ∈ fs)) eqn:E; [exact H|].
  apply bool_decide_eq_false in E. apply NoDup_app.
  split; [exact H|]. split; [|apply NoDup_singleton].
  intros x Hx Hx'. apply list_elem_of_singleton in Hx'. now subst.
Qed.

Lemma NoDup_write_all (ps fs : list string) :
  NoDup fs -> NoDup (fold_right write_file fs ps).
Proof.
  intros H. induction ps as [|p ps IH]; simpl; [exact H|].
  now apply NoDup_write_file.
Qed.

Lemma filter_write_file (P : string -> bool) (p : string) (fs : list string) :
  P p = false ->
  filter (fun f => P f) (write_file p fs) = filter (fun f => P f) fs.
Proof.
  intros Hp. unfold write_file. destruct (bool_decide (p ∈ fs)); [reflexivity|].
  rewrite filter_app, filter_cons, Hp. simpl.
  destruct (decide (Is_true false)) as [H|_]; [easy|]. apply app_nil_r.
Qed.

Lemma filter_write_all (P : string -> bool) (ps fs : list string) :
  (forall p, p ∈ ps -> P p = false) ->
  filter (fun f => P f) (fold_right write_file fs ps)
  = filter (fun f => P f) fs.
Proof.
  intros H. induction ps as [|p ps IH]; simpl; [reflexivity|].
  rewrite filter_write_file; [|apply H; apply list_elem_of_here].
  apply IH. intros q Hq. apply H. now apply list_elem_of_further.
Qed.

Lemma NoDup_only (l : list string) (b : string) :
  NoDup l -> (forall x, x ∈ l <-> x = b) -> l = [b].
Proof.
  intros Hnd H. destruct l as [|x l].
  - exfalso. assert (b ∈ []) as Hb by now apply H.
    now apply not_elem_of_nil in Hb.
  - assert (x = b) as -> by (apply H; apply list_elem_of_here).
    f_equal. destruct l as [|y l]; [reflexivity|]. exfalso.
    assert (y = b) as -> by (apply H; apply list_elem_of_further, list_elem_of_here).
    apply NoDup_cons in Hnd. destruct Hnd as [Hnot _].
    apply Hnot, list_elem_of_here.
Qed.

Section Fit.
Variable val_loss : nat -> Q.
Variable filepath : nat -> Q -> string.
Variable extra_files : list string.

Lemma on_epoch_end_NoDup (epoch : nat) (st : fit_state) :
  NoDup (files st) ->
  NoDup (files (on_epoch_end val_loss filepath extra_files epoch st)).
Proof.
  intros H. unfold on_epoch_end, mc_on_epoch_end.
  destruct (es_on_epoch_end _ _) as [es' stop].
  destruct (lt_best _ _); simpl; apply NoDup_write_all;
    [now apply NoDup_write_file|exact H].
Qed.

Lemma fit_loop_NoDup (remaining : nat) :
  forall (epoch : nat) (st : fit_state),
    NoDup (files st) ->
    NoDup (files (fit_loop val_loss filepath extra_files remaining epoch st)).
Proof.
  induction remaining as [|k IH]; intros epoch st H; simpl; [exact H|].
  pose proof (on_epoch_end_NoDup epoch st H) as H'.
  destruct (stop_training _); [exact H'|]. now apply IH.
Qed.

End Fit.

Section Script.
Variable listdir : list string -> list string.
Variable val_loss : nat -> Q.
Variable model_name : string.

(** A listing gives the entries of the folder, each once, in some
    order. *)
Hypothesis listdir_permutes : forall l, listdir l ≡ₚ l.

(** X23. When the script completes, exactly one file matching [*hdf5]
    is left in the model folder: the one [glob] listed last among the
    files present after training, whatever its validation loss; it is
    also the checkpoint that is loaded. *)
Theorem train_keeps_last_listed (cfg : config) (files' : list string)
    (st : fit_state) (loaded : string) :
  train listdir val_loss model_name cfg = Ok (files', st, loaded) ->
  st = fit val_loss model_name cfg /\
  last (glob listdir "hdf5" (write_file "training_history" (files st)))
  = Some loaded /\
  filter (fun f => matches "hdf5" f) files' = [loaded].
Proof.
  unfold train. intros H.
  set (st0 := fit val_loss model_name cfg) in *.
  set (files0 := write_file "training_history" (files st0)) in *.
  set (g := glob listdir "hdf5" files0) in *.
  set (files1 := remove_all (removelast g) files0) in *.
  destruct (glob listdir ".hdf5" files1) as [|best rest] eqn:G; [discriminate|].
  injection H as <- <- <-. split; [reflexivity|].
  assert (Hnd0 : NoDup files0).
  { apply NoDup_write_file. unfold st0, fit, fit_generator.
    apply fit_loop_NoDup. simpl. apply NoDup_nil_2. }
  assert (Hndg : NoDup g).
  { unfold g, glob. apply NoDup_filter. now rewrite listdir_permutes. }
  assert (Hg : forall x, x ∈ g <-> matches "hdf5" x = true /\ x ∈ files0).
  { intros x. unfold g, glob. rewrite list_elem_of_filter, listdir_permutes.
    now rewrite Is_true_true. }
  assert (H1 : forall x, x ∈ files1 <-> x ∈ files0 /\ x ∉ removelast g).
  { intros x. unfold files1, remove_all. rewrite list_elem_of_filter.
    rewrite Is_true_true, negb_true_iff, bool_decide_eq_false. tauto. }
  assert (Hbest : best ∈ files1 /\ matches "hdf5" best = true).
  { assert (best ∈ glob listdir ".hdf5" files1) as Hin
      by (rewrite G; apply list_elem_of_here).
    unfold glob in Hin. rewrite list_elem_of_filter, listdir_permutes in Hin.
    destruct Hin as [Hm Hin]. split; [exact Hin|].
    apply matches_dot_hdf5. now apply Is_true_true. }
  destruct Hbest as [Hb1 Hbm]. apply H1 in Hb1. destruct Hb1 as [Hb0 Hbnot].
  assert (best ∈ g) as Hbg by (apply Hg; now split).
  destruct (exists_last (l := g)) as (init & y & Eg).
  { intros E. rewrite E in Hbg. now apply not_elem_of_nil in Hbg. }
  rewrite Eg in Hbnot, Hbg, Hndg. rewrite removelast_last in Hbnot.
  assert (best = y) as <-.
  { apply elem_of_app in Hbg. destruct Hbg as [Hi|Hl]; [easy|].
    now apply list_elem_of_singleton in Hl. }
  split; [change (last g = Some best); rewrite Eg; apply last_snoc|].
  rewrite filter_write_all.
  2:{ intros p Hp. apply list_elem_of_In, in_rev, list_elem_of_In in Hp.
      now apply prediction_files_no_hdf5 in Hp. }
  apply NoDup_only.
  - apply NoDup_filter. unfold files1, remove_all. now apply NoDup_filter.
  - intros x. rewrite list_elem_of_filter, Is_true_true, H1. split.
    + intros (Hm & Hx0 & Hxnot).
      assert (x ∈ g) as Hxg by (apply Hg; now split).
      rewrite Eg in Hxg, Hxnot. rewrite removelast_last in Hxnot.
      apply elem_of_app in Hxg. destruct Hxg as [Hi|Hl]; [easy|].
      now apply list_elem_of_singleton in Hl.
    + intros ->. now rewrite Eg, removelast_last.
Qed.

(** X22. With [cfg.training_epochs = 0] no checkpoint is written, and
    the script raises [IndexError] when it takes the first element of
    the empty list of checkpoints. *)
Theorem train_zero_epochs (cfg : config) :
  training_epochs cfg = 0%nat ->
  train listdir val_loss model_name cfg = Raise IndexError.
Proof.
  intros H0. unfold train, fit. rewrite H0. simpl.
  assert (Hnone : forall suffix,
             matches suffix "training_history" = false ->
             glob listdir suffix ["training_history"%string] = []).
  { intros suffix Hs. unfold glob.
    destruct (filter _ (listdir ["training_history"%string])) as [|x l] eqn:E;
      [reflexivity|].
    assert (x ∈ filter (fun f => matches suffix f)
                       (listdir ["training_history"%string])) as Hx
      by (rewrite E; apply list_elem_of_here).
    rewrite list_elem_of_filter, listdir_permutes in Hx.
    destruct Hx as [Hm Hx]. apply list_elem_of_singleton in Hx. subst x.
    apply Is_true_true in Hm. congruence. }
  change (write_file "training_history" []) with ["training_history"%string].
  rewrite (Hnone "hdf5") by reflexivity.
  change (remove_all (removelast []) ["training_history"%string])
    with ["training_history"%string].
  now rewrite (Hnone ".hdf5") by reflexivity.
Qed.

End Script.

Lemma listdir_by_name_permutes (l : list string) : listdir_by_name l ≡ₚ l.
Proof.
  induction l as [|x l IH]; [reflexivity|]. simpl.
  rewrite <- IH at 2. generalize (listdir_by_name l). intros s.
  induction s as [|y s IHs]; simpl; [reflexivity|].
  destruct (String.leb x y); [reflexivity|].
  rewrite IHs. apply Permutation_swap.
Qed.

Lemma train_keeps_last_listed_witness :
  exists files st,
    train listdir_by_name falling_loss "unet" cfg_100
    = Ok (files, st, "unet.99-1.020000.hdf5"%string) /\
    filter (fun f => matches "hdf5" f) files
    = ["unet.99-1.020000.hdf5"%string].
Proof.
  destruct (train listdir_by_name falling_loss "unet" cfg_100)
    as [[[files st] loaded]|e] eqn:E; [|vm_compute in E; discriminate E].
  destruct (train_keeps_last_listed listdir_by_name falling_loss "unet"
              listdir_by_name_permutes cfg_100 files st loaded E)
    as (_ & _ & Hf).
  assert (loaded = "unet.99-1.020000.hdf5"%string) as ->.
  { pose proof E as E'. revert E'. vm_compute. now intros [= _ _ <-]. }
  exists files, st. split; [reflexivity|exact Hf].
Defined.

Lemma train_zero_epochs_witness :
  train listdir_by_name falling_loss "unet"
    {| early_stopping := 3; training_epochs := 0;
       save_predictions_during_training := true; batch_size := 4 |}
  = Raise IndexError.
Proof.
  now apply (train_zero_epochs listdir_by_name falling_loss "unet"
               listdir_by_name_permutes).
Defined.

End RetentionFacts.


(** ** scale_img *)

Module ScaleFacts.
Import Contrast Scale ScaleSpec ContrastSpec.
Local Open Scope Q_scope.

Lemma fold_smaller_spec (l : list Q) (x : Q) :
  In (fold_left smaller l x) (x :: l) /\
  forall y, In y (x :: l) -> fold_left smaller l x <= y.
Proof.
  revert x. induction l as [|z l IH]; intros x; simpl.
  - split; [now left|]. intros y [<-|[]]. apply Qle_refl.
  - destruct (IH (smaller x z)) as [Hin Hle]. split.
    + destruct Hin as [E|Hin]; [|now right; right].
      rewrite <- E. unfold smaller. destruct (Qle_bool x z); auto.
    + intros y Hy.
      assert (Hm : smaller x z <= x /\ smaller x z <= z).
      { unfold smaller. destruct (Qle_bool x z) eqn:E.
        - apply Qle_bool_iff in E. split; [apply Qle_refl|exact E].
        - apply ContrastFacts.Qle_bool_false in E.
          split; [now apply Qlt_le_weak|apply Qle_refl]. }
      destruct Hy as [<-|[<-|Hy]].
      * eapply Qle_trans; [apply Hle; now left|apply Hm].
      * eapply Qle_trans; [apply Hle; now left|apply Hm].
      * apply Hle. now right.
Qed.

Lemma fold_larger_spec (l : list Q) (x : Q) :
  In (fold_left larger l x) (x :: l) /\
  forall y, In y (x :: l) -> y <= fold_left larger l x.
Proof.
  revert x. induction l as [|z l IH]; intros x; simpl.
  - split; [now left|]. intros y [<-|[]]. apply Qle_refl.
  - destruct (IH (larger x z)) as [Hin Hle]. split.
    + destruct Hin as [E|Hin]; [|now right; right].
      rewrite <- E. unfold larger. destruct (Qle_bool x z); auto.
    + intros y Hy.
      assert (Hm : x <= larger x z /\ z <= larger x z).
      { unfold larger. destruct (Qle_bool x z) eqn:E.
        - apply Qle_bool_iff in E. split; [exact E|apply Qle_refl].
        - apply ContrastFacts.Qle_bool_false in E.
          split; [apply Qle_refl|now apply Qlt_le_weak]. }
      destruct Hy as [<-|[<-|Hy]].
      * eapply Qle_trans; [apply Hm|apply Hle; now left].
      * eapply Qle_trans; [apply Hm|apply Hle; now left].
      * apply Hle. now right.
Qed.

Lemma amin_spec (a : list Q) :
  a <> [] ->
  exists lo, amin a = Ok lo /\ In lo a /\ forall y, In y a -> lo <= y.
Proof.
  destruct a as [|x l]; [easy|]. intros _.
  exists (fold_left smaller l x). split; [reflexivity|].
  apply fold_smaller_spec.
Qed.

Lemma amax_spec (a : list Q) :
  a <> [] ->
  exists hi, amax a = Ok hi /\ In hi a /\ forall y, In y a -> y <= hi.
Proof.
  destruct a as [|x l]; [easy|]. intros _.
  exists (fold_left larger l x). split; [reflexivity|].
  apply fold_larger_spec.
Qed.

Lemma concat_map_map {A B : Type} (f : A -> B) (img : list (list A)) :
  concat (map (map f) img) = map f (concat img).
Proof.
  induction img as [|r img IH]; simpl; [reflexivity|].
  now rewrite IH, map_app.
Qed.

(** The extremes behind a range that [np.ptp] returns. *)
Lemma ptp_inv (fl : Q -> npfloat) (a : list Q) (r : npfloat) :
  ptp fl a = Ok r ->
  exists lo hi,
    amin a = Ok lo /\ amax a = Ok hi /\ r = fl (hi - lo) /\
    In lo a /\ In hi a /\ forall v, In v a -> lo <= v /\ v <= hi.
Proof.
  intros H. destruct a as [|x l] eqn:Ea; [discriminate|]. rewrite <- Ea in *.
  assert (Hne : a <> []) by (rewrite Ea; discriminate).
  destruct (amin_spec _ Hne) as (lo & Elo & Hlo & Hmin).
  destruct (amax_spec _ Hne) as (hi & Ehi & Hhi & Hmax).
  unfold ptp in H. rewrite Ehi, Elo in H. cbn [bind] in H. injection H as <-.
  exists lo, hi. repeat split; auto.
Qed.

(** What [scale_img] computes on an image whose range is truthy. *)
Lemma scale_img_run (fl : Q -> npfloat) (img : list (list Q)) (r : npfloat) :
  ptp fl (concat img) = Ok r -> truthy r = true ->
  exists lo hi,
    amin (concat img) = Ok lo /\ amax (concat img) = Ok hi /\
    r = fl (hi - lo) /\
    In lo (concat img) /\ In hi (concat img) /\
    (forall v, In v (concat img) -> lo <= v /\ v <= hi) /\
    scale_img fl img
    = Ok (map (map (fun x => true_divide fl (fl (x - lo)) r)) img).
Proof.
  intros E Ht. destruct (ptp_inv fl _ r E) as (lo & hi & Elo & Ehi & Er & H).
  exists lo, hi. repeat split; try tauto; try apply H; auto.
  unfold scale_img. rewrite E. cbn [bind]. rewrite Ht, Elo. reflexivity.
Qed.

(** X24. On a float image of finite values whose range [np.ptp(img)]
    is finite and not zero, [scale_img] returns an image of the same
    shape whose values all lie in [0, 1], with 0 and 1 both attained. *)
Theorem scale_img_unit_range (fl : Q -> npfloat) (img : list (list Q)) (d : Q) :
  float_rounding fl ->
  ptp fl (concat img) = Ok (Finite d) -> 0 < d ->
  exists out,
    scale_img fl img = Ok out /\
    same_shape out img /\
    Forall (Forall in_unit_interval) out /\
    Exists (finite_value 0) (concat out) /\
    Exists (finite_value 1) (concat out).
Proof.
  intros Hfl E Hd.
  assert (Ht : truthy (Finite d) = true).
  { simpl. rewrite ContrastFacts.Qeq_bool_false; [reflexivity|lra]. }
  destruct (scale_img_run fl img _ E Ht)
    as (lo & hi & Elo & Ehi & Er & Hlo & Hhi & Hb & ->).
  symmetry in Er.
  assert (Hpix : forall v, In v (concat img) ->
             exists q, fl (v - lo) = Finite q /\ 0 <= q /\ q <= d /\
                       true_divide fl (fl (v - lo)) (Finite d) = fl (q / d)).
  { intros v Hv. destruct (Hb v Hv) as [H0 H1].
    destruct (ContrastFacts.fl_nonneg fl Hfl (v - lo) ltac:(lra))
      as [Ea|(q & Ea & Hq)];
      destruct (ContrastFacts.fl_below fl Hfl (v - lo) (hi - lo) d
                  ltac:(lra) Er) as [Eb|(q' & Eb & Hq')]; try congruence.
    rewrite Ea in Eb. injection Eb as <-.
    exists q. rewrite Ea. cbn [true_divide].
    rewrite ContrastFacts.Qeq_bool_false by lra. auto. }
  eexists. split; [reflexivity|].
  split; [apply ContrastFacts.same_shape_map|]. split; [|split].
  - apply ContrastFacts.Forall_map_map. intros v Hv.
    destruct (Hpix v Hv) as (q & _ & Hq0 & Hq1 & ->).
    apply (ContrastFacts.fl_unit fl Hfl).
    + apply Qle_shift_div_l; lra.
    + apply Qle_shift_div_r; lra.
  - rewrite concat_map_map. apply Exists_exists. eexists.
    split; [apply list_elem_of_In, in_map_iff; exists lo; split;
            [reflexivity|exact Hlo]|].
    destruct (ContrastFacts.fl_zero_value fl Hfl (lo - lo) ltac:(lra))
      as (q & Eq & Hq).
    rewrite Eq. cbn [true_divide].
    rewrite ContrastFacts.Qeq_bool_false by lra.
    apply (ContrastFacts.fl_zero_value fl Hfl). unfold Qdiv. nra.
  - rewrite concat_map_map. apply Exists_exists. eexists.
    split; [apply list_elem_of_In, in_map_iff; exists hi; split;
            [reflexivity|exact Hhi]|].
    rewrite Er. cbn [true_divide].
    rewrite ContrastFacts.Qeq_bool_false by lra.
    apply (ContrastFacts.fl_one_value fl Hfl). field. lra.
Qed.

Lemma scale_img_unit_range_witness :
  exists out,
    scale_img exact [[2; 4]; [3; 6]] = Ok out /\
    Exists (finite_value 1) (concat out).
Proof.
  destruct (scale_img_unit_range exact [[2; 4]; [3; 6]] (6 - 2))
    as (out & E & _ & _ & _ & H).
  - exact ContrastFacts.exact_rounding.
  - reflexivity.
  - reflexivity.
  - now exists out.
Defined.

(** X25. [scale_img] raises exactly on an image without pixels, and
    then [ValueError]: the zero range of a constant image is never
    divided by. *)
Theorem scale_img_raises_iff (fl : Q -> npfloat) (img : list (list Q))
    (e : exn) :
  scale_img fl img = Raise e <-> e = ValueError /\ concat img = [].
Proof.
  split.
  - intros H. destruct (concat img) as [|x l] eqn:E.
    + unfold scale_img in H. rewrite E in H. simpl in H. now injection H as <-.
    + exfalso. unfold scale_img, ptp, amax, amin in H. rewrite E in H.
      cbn [bind] in H. destruct (truthy _); discriminate.
  - intros [-> E]. unfold scale_img. now rewrite E.
Qed.

(** X26. A float image with at least one pixel whose pixels all have
    the same value is returned unchanged. *)
Theorem scale_img_constant (fl : Q -> npfloat) (img : list (list Q)) :
  float_rounding fl ->
  concat img <> [] -> constant img ->
  scale_img fl img = Ok (map (map Finite) img).
Proof.
  intros Hfl Hne Hc.
  destruct (amin_spec _ Hne) as (lo & Elo & Hlo & _).
  destruct (amax_spec _ Hne) as (hi & Ehi & Hhi & _).
  unfold scale_img, ptp. rewrite Ehi, Elo. cbn [bind].
  pose proof (Hc hi lo Hhi Hlo) as Heq.
  destruct (ContrastFacts.fl_zero_value fl Hfl (hi - lo) ltac:(lra))
    as (q & -> & Hq).
  cbn [truthy]. now rewrite ContrastFacts.Qeq_bool_true.
Qed.

Lemma scale_img_constant_witness :
  scale_img exact [[7; 7]; [7; 7]]
  = Ok (map (map Finite) [[7; 7]; [7; 7]]).
Proof.
  apply scale_img_constant.
  - exact ContrastFacts.exact_rounding.
  - discriminate.
  - intros x y Hx Hy. simpl in Hx, Hy.
    repeat (destruct Hx as [<-|Hx]); repeat (destruct Hy as [<-|Hy]);
      try reflexivity; contradiction.
Defined.

End ScaleFacts.


(** ** enhance_contrast: limits, saturation and degenerate images *)

Module ContrastMore.
Import Contrast Scale ScaleSpec ContrastSpec.
Local Open Scope Q_scope.

Lemma valid_percentiles_true (p0 p1 : Q) :
  valid_percentiles p0 p1 ->
  valid_percentile p0 && valid_percentile p1 = true.
Proof.
  intros [[H0 H0'] [H1 H1']]. unfold valid_percentile.
  now rewrite !ContrastFacts.Qle_bool_true.
Qed.

Lemma valid_percentiles_false (p0 p1 : Q) :
  ~ valid_percentiles p0 p1 ->
  valid_percentile p0 && valid_percentile p1 = false.
Proof.
  intros H. destruct (valid_percentile p0 && valid_percentile p1) eqn:E;
    [|reflexivity].
  exfalso. apply H. unfold valid_percentile in E.
  rewrite !andb_true_iff in E. destruct E as [[A B] [C D]].
  apply Qle_bool_iff in A, B, C, D. now repeat split.
Qed.

(** *** The sorted values and the interpolated percentile *)

Lemma insert_sorted_In (x y : Q) (l : list Q) :
  In y (insert_sorted x l) <-> y = x \/ In y l.
Proof.
  induction l as [|h t IH]; simpl.
  - intuition.
  - destruct (Qle_bool x h); simpl; [intuition|]. rewrite IH. intuition.
Qed.

Lemma sort_In (y : Q) (l : list Q) : In y (sort l) <-> In y l.
Proof.
  induction l as [|x l IH]; simpl; [reflexivity|].
  rewrite insert_sorted_In, IH. intuition.
Qed.

Lemma length_insert_sorted (x : Q) (l : list Q) :
  length (insert_sorted x l) = S (length l).
Proof.
  induction l as [|h t IH]; simpl; [reflexivity|].
  destruct (Qle_bool x h); simpl; [reflexivity|]. now rewrite IH.
Qed.

Lemma length_sort (l : list Q) : length (sort l) = length l.
Proof.
  induction l as [|x l IH]; simpl; [reflexivity|].
  now rewrite length_insert_sorted, IH.
Qed.

(** Every percentile lies within the range of the values. *)
Lemma percentile_between (a : list Q) (q m M : Q) :
  a <> [] -> 0 <= q -> q <= 100 ->
  (forall x, In x a -> m <= x /\ x <= M) ->
  m <= percentile a q /\ percentile a q <= M.
Proof.
  intros Hne Hq0 Hq1 Hb. unfold percentile. cbv zeta.
  assert (Hlen : (0 < length (sort a))%nat).
  { rewrite length_sort. destruct a; [easy|simpl; lia]. }
  set (n := Z.of_nat (length (sort a))).
  set (index := q / 100 * inject_Z (n - 1)).
  assert (Hn : 0 <= inject_Z (n - 1)).
  { change 0 with (inject_Z 0). rewrite <- Zle_Qle. lia. }
  assert (Hq : 0 <= q / 100 /\ q / 100 <= 1).
  { split; [apply Qle_shift_div_l|apply Qle_shift_div_r]; lra. }
  destruct Hq as [Ht0 Ht1].
  assert (Hi0 : 0 <= index) by (unfold index; nra).
  assert (Hi1 : index <= inject_Z (n - 1)) by (unfold index; nra).
  assert (Hlo : (0 <= Qfloor index <= n - 1)%Z).
  { split.
    - change 0%Z with (Qfloor 0). now apply Qfloor_resp_le.
    - rewrite <- (Qfloor_Z (n - 1)). now apply Qfloor_resp_le. }
  pose proof (Qfloor_le index) as Hf0.
  pose proof (Qlt_floor index) as Hf1.
  rewrite inject_Z_plus in Hf1. change (inject_Z 1) with 1 in Hf1.
  assert (Hbelow : In (nth (Z.to_nat (Qfloor index)) (sort a) 0) a).
  { apply sort_In, nth_In. lia. }
  assert (Habove : In (nth (Z.to_nat (Z.min (Qfloor index + 1) (n - 1)))
                           (sort a) 0) a).
  { apply sort_In, nth_In. lia. }
  apply Hb in Hbelow, Habove.
  set (below := nth _ _ _) in *. set (above := nth _ _ _) in *.
  set (frac := index - inject_Z (Qfloor index)).
  assert (0 <= frac /\ frac <= 1) as [Hfr0 Hfr1] by (unfold frac; lra).
  split; nra.
Qed.

(** The interpolating stand-in behaves as is assumed of
    [np.percentile]. *)
Lemma exact_percentile_raises : percentile_raises exact_percentile.
Proof.
  intros a p0 p1 e Hne. unfold exact_percentile. cbn [fst snd]. split.
  - intros H. destruct (valid_percentile p0 && valid_percentile p1) eqn:E;
      cbn [negb] in H.
    + destruct a; [contradiction|discriminate].
    + injection H as <-. split; [reflexivity|]. intros Hv.
      apply valid_percentiles_true in Hv. congruence.
  - intros [-> Hv]. now rewrite (valid_percentiles_false _ _ Hv).
Qed.

Lemma exact_percentile_constant : percentile_of_constant exact_percentile.
Proof.
  intros a c p0 p1 Hne Hc Hv. unfold exact_percentile. cbn [fst snd].
  rewrite (valid_percentiles_true _ _ Hv). cbn [negb].
  assert (Hall : forall x, In x a -> c <= x /\ x <= c).
  { intros x Hx. pose proof (Hc x Hx). lra. }
  destruct Hv as [[H0 H0'] [H1 H1']].
  pose proof (percentile_between _ p0 c c Hne H0 H0' Hall) as L0.
  pose proof (percentile_between _ p1 c c Hne H1 H1' Hall) as L1.
  destruct a as [|x l]; [contradiction|].
  eexists _, _. split; [reflexivity|].
  split; (eexists; split; [reflexivity|lra]).
Qed.

(** X27. On a float image with at least one pixel, [enhance_contrast]
    raises exactly when one of the two percentiles is outside
    [0, 100], and then [ValueError], as [np.percentile] does; an array
    it returns has the shape of the image. *)
Theorem enhance_contrast_raises_iff
    (fl : Q -> npfloat)
    (np_percentile : list Q -> Q * Q -> result (npfloat * npfloat))
    (img : list (list Q)) (p0 p1 : Q) :
  percentile_raises np_percentile ->
  concat img <> [] ->
  (forall e, enhance_contrast fl np_percentile img (p0, p1) = Raise e <->
             e = ValueError /\ ~ valid_percentiles p0 p1) /\
  (forall out, enhance_contrast fl np_percentile img (p0, p1) = Ok out ->
               same_shape out img).
Proof.
  intros Hp Hne. unfold enhance_contrast. split.
  - intros e. rewrite <- (Hp (concat img) p0 p1 e Hne).
    destruct (np_percentile (concat img) (p0, p1)); cbn [bind];
      [split; discriminate|split; intros [= ->]; reflexivity].
  - intros out H. destruct (np_percentile (concat img) (p0, p1));
      cbn [bind] in H; [|discriminate].
    injection H as <-. apply ContrastFacts.same_shape_map.
Qed.

Lemma enhance_contrast_raises_iff_witness :
  enhance_contrast exact exact_percentile [[1; 2]] (5, 101) = Raise ValueError.
Proof.
  apply (proj1 (enhance_contrast_raises_iff exact exact_percentile
                  [[1; 2]] 5 101 exact_percentile_raises
                  ltac:(discriminate))).
  split; [reflexivity|].
  intros [_ [_ H]]. revert H. apply Qlt_not_le. reflexivity.
Defined.

(** X28. When [np.percentile] returns two finite limits whose float
    difference is finite and positive, [enhance_contrast] maps the
    pixels through one non-decreasing function: every pixel at or
    below [limits[0]] goes to 0, every pixel at or above [limits[1]]
    to 1, and a pixel [x] in between to the float quotient of
    [x - limits[0]] and the difference. *)
Theorem enhance_contrast_stretches
    (fl : Q -> npfloat)
    (np_percentile : list Q -> Q * Q -> result (npfloat * npfloat))
    (img : list (list Q)) (p0 p1 l0 l1 d : Q) :
  float_rounding fl ->
  np_percentile (concat img) (p0, p1) = Ok (Finite l0, Finite l1) ->
  fl (l1 - l0) = Finite d -> 0 < d ->
  exists f,
    enhance_contrast fl np_percentile img (p0, p1) = Ok (map (map f) img) /\
    (forall x, x <= l0 -> finite_value 0 (f x)) /\
    (forall x, l1 <= x -> finite_value 1 (f x)) /\
    (forall x y, x <= y -> fle (f x) (f y)) /\
    (forall x, l0 <= x -> x <= l1 ->
       exists q, fl (x - l0) = Finite q /\ same_float (f x) (fl (q / d))).
Proof.
  intros Hfl Ep E Hd. exists (rescale fl (Finite l0) (Finite l1)).
  split; [|split; [|split; [|split]]].
  - unfold enhance_contrast. now rewrite Ep.
  - intros x. now apply (ContrastFacts.rescale_low fl Hfl l0 l1 d).
  - intros x. now apply (ContrastFacts.rescale_high fl Hfl l0 l1 d).
  - intros x y. now apply (ContrastFacts.rescale_monotone fl Hfl l0 l1 d).
  - intros x. now apply (ContrastFacts.rescale_between fl Hfl l0 l1 d).
Qed.

Lemma enhance_contrast_stretches_witness :
  exists f,
    enhance_contrast exact exact_percentile [[0; 1]; [2; 3]] (25, 75)
    = Ok (map (map f) [[0; 1]; [2; 3]]) /\
    (forall x, x <= percentile [0; 1; 2; 3] 25 -> finite_value 0 (f x)).
Proof.
  destruct (enhance_contrast_stretches exact exact_percentile
              [[0; 1]; [2; 3]] 25 75
              (percentile [0; 1; 2; 3] 25) (percentile [0; 1; 2; 3] 75)
              (percentile [0; 1; 2; 3] 75 - percentile [0; 1; 2; 3] 25))
    as (f & E & H & _).
  - exact ContrastFacts.exact_rounding.
  - reflexivity.
  - reflexivity.
  - reflexivity.
  - exists f. split; [exact E|exact H].
Defined.

Lemma map_map_ext_in {A B : Type} (f g : A -> B) (img : list (list A)) :
  (forall x, In x (concat img) -> f x = g x) ->
  map (map f) img = map (map g) img.
Proof.
  induction img as [|r img IH]; simpl; intros H; [reflexivity|]. f_equal.
  - apply map_ext_in. intros x Hx. apply H, in_or_app. now left.
  - apply IH. intros x Hx. apply H, in_or_app. now right.
Qed.

(** X29. On a float image with at least one pixel whose pixels all
    have the same value, [enhance_contrast] returns an array of NaN,
    for every pair of percentiles within [0, 100]: both limits are
    that value, which is what [np.percentile] gives for equal values,
    and 0 is divided by 0. *)
Theorem enhance_contrast_constant_nan
    (fl : Q -> npfloat)
    (np_percentile : list Q -> Q * Q -> result (npfloat * npfloat))
    (img : list (list Q)) (p0 p1 : Q) :
  float_rounding fl -> percentile_of_constant np_percentile ->
  concat img <> [] -> constant img -> valid_percentiles p0 p1 ->
  enhance_contrast fl np_percentile img (p0, p1)
  = Ok (map (map (fun _ => NaN)) img).
Proof.
  intros Hfl Hp Hne Hc Hv.
  destruct (concat img) as [|c l] eqn:E; [easy|]. rewrite <- E in *.
  assert (Hin : In c (concat img)) by (rewrite E; now left).
  destruct (Hp (concat img) c p0 p1 Hne (fun x Hx => Hc x c Hx Hin) Hv)
    as (v0 & v1 & Ep & (l0 & -> & H0) & (l1 & -> & H1)).
  unfold enhance_contrast. rewrite Ep. cbn [bind fst snd].
  f_equal. apply map_map_ext_in. intros x Hx.
  pose proof (Hc x c Hx Hin) as Hxc.
  unfold rescale. cbn [subtract].
  destruct (ContrastFacts.fl_zero_value fl Hfl (x - l0) ltac:(lra))
    as (a & -> & Ha).
  destruct (ContrastFacts.fl_zero_value fl Hfl (l1 - l0) ltac:(lra))
    as (h & -> & Hh).
  assert (Hclip : clip (Finite a) (Finite 0) (Finite h) = Finite 0).
  { unfold clip, maximum, minimum. cbn [fleb].
    rewrite (ContrastFacts.Qle_bool_true a 0) by lra. cbn [fleb].
    now rewrite (ContrastFacts.Qle_bool_true 0 h) by lra. }
  rewrite Hclip.
  assert (Hptp : finite_value 0 (ptp2 fl (Finite l0) (Finite l1))).
  { unfold ptp2, maximum, minimum. cbn [fleb].
    destruct (Qle_bool l0 l1); cbn [subtract];
      apply (ContrastFacts.fl_zero_value fl Hfl); lra. }
  destruct Hptp as (z & -> & Hz). cbn [true_divide].
  now rewrite (ContrastFacts.Qeq_bool_true z 0 Hz).
Qed.

Lemma enhance_contrast_constant_nan_witness :
  enhance_contrast exact exact_percentile [[7; 7]; [7; 7]] (5, 95)
  = Ok [[NaN; NaN]; [NaN; NaN]].
Proof.
  apply (enhance_contrast_constant_nan exact exact_percentile
           [[7; 7]; [7; 7]] 5 95).
  - exact ContrastFacts.exact_rounding.
  - exact exact_percentile_constant.
  - discriminate.
  - intros x y Hx Hy. simpl in Hx, Hy.
    repeat (destruct Hx as [<-|Hx]); repeat (destruct Hy as [<-|Hy]);
      try reflexivity; contradiction.
  - unfold valid_percentiles. lra.
Defined.

Lemma Forall2_map_map2 {A B C : Type} (f : A -> B) (g : A -> C)
    (R : B -> C -> Prop) (img : list (list A)) :
  (forall x, In x (concat img) -> R (f x) (g x)) ->
  Forall2 (Forall2 R) (map (map f) img) (map (map g) img).
Proof.
  induction img as [|r img IH]; simpl; intros H; constructor.
  - assert (Hr : forall x, In x r -> R (f x) (g x))
      by (intros x Hx; apply H, in_or_app; now left).
    clear H IH. induction r as [|x r IHr]; simpl; constructor.
    + apply Hr. now left.
    + apply IHr. intros y Hy. apply Hr. now right.
  - apply IH. intros x Hx. apply H, in_or_app. now right.
Qed.

(** Float division gives the same float on the same operands. *)
Lemma true_divide_same (fl : Q -> npfloat) (a a' b b' : npfloat) :
  float_rounding fl ->
  same_float a a' -> same_float b b' ->
  same_float (true_divide fl a b) (true_divide fl a' b').
Proof.
  intros Hfl Ha Hb.
  destruct a as [x| | |], a' as [x'| | |]; try contradiction;
    destruct b as [y| | |], b' as [y'| | |]; try contradiction;
    cbn [same_float true_divide] in *; try exact I; try reflexivity.
  - destruct (Qeq_bool y 0) eqn:E1, (Qeq_bool y' 0) eqn:E2;
      ContrastFacts.Qbools; try (exfalso; lra).
    + destruct (Qeq_bool x 0) eqn:E3, (Qeq_bool x' 0) eqn:E4;
        ContrastFacts.Qbools; try (exfalso; lra); [exact I|].
      destruct (Qle_bool 0 x) eqn:E5, (Qle_bool 0 x') eqn:E6;
        ContrastFacts.Qbools; try (exfalso; lra); exact I.
    + apply (ContrastFacts.fl_same fl Hfl). now rewrite Ha, Hb.
  - destruct (Qle_bool 0 y) eqn:E5, (Qle_bool 0 y') eqn:E6;
      ContrastFacts.Qbools; try (exfalso; lra); exact I.
  - destruct (Qle_bool 0 y) eqn:E5, (Qle_bool 0 y') eqn:E6;
      ContrastFacts.Qbools; try (exfalso; lra); exact I.
Qed.

(** Clipping to [0, r] keeps a float between 0 and [r]. *)
Lemma clip_inside (a r : npfloat) :
  fle (Finite 0) a -> fle a r -> same_float (clip a (Finite 0) r) a.
Proof.
  unfold fle, clip, maximum, minimum.
  destruct a as [x| | |], r as [d| | |]; cbn [fleb]; try discriminate;
    intros H0 H1; ContrastFacts.Qbools.
  - destruct (Qle_bool x 0) eqn:E; cbn [fleb]; ContrastFacts.Qbools.
    + rewrite ContrastFacts.Qle_bool_true by lra. simpl. lra.
    + rewrite ContrastFacts.Qle_bool_true by lra. simpl. lra.
  - destruct (Qle_bool x 0) eqn:E; cbn [fleb same_float];
      ContrastFacts.Qbools; lra.
  - exact I.
Qed.

(** X30. With the percentiles (0, 100), the pair for which
    [save_prediction_img] skips the call, and [np.percentile]
    returning the minimum and the maximum of the image for them,
    [enhance_contrast] gives the floats [scale_img] gives, on every
    float image whose range [np.ptp(img)] is not zero. *)
Theorem enhance_contrast_full_range
    (fl : Q -> npfloat)
    (np_percentile : list Q -> Q * Q -> result (npfloat * npfloat))
    (img : list (list Q)) (r l0 l1 : npfloat) (lo hi : Q) :
  float_rounding fl ->
  ptp fl (concat img) = Ok r -> truthy r = true ->
  amin (concat img) = Ok lo -> amax (concat img) = Ok hi ->
  np_percentile (concat img) (0, 100) = Ok (l0, l1) ->
  finite_value lo l0 -> finite_value hi l1 ->
  exists scaled enhanced,
    scale_img fl img = Ok scaled /\
    enhance_contrast fl np_percentile img (0, 100) = Ok enhanced /\
    Forall2 (Forall2 same_float) scaled enhanced.
Proof.
  intros Hfl Er Ht Elo Ehi Ep (m & -> & Hm) (M & -> & HM).
  destruct (ScaleFacts.scale_img_run fl img r Er Ht)
    as (lo' & hi' & Elo' & Ehi' & -> & Hlo & Hhi & Hb & ->).
  rewrite Elo in Elo'. injection Elo' as <-.
  rewrite Ehi in Ehi'. injection Ehi' as <-.
  unfold enhance_contrast. rewrite Ep. cbn [bind fst snd].
  do 2 eexists. split; [reflexivity|]. split; [reflexivity|].
  apply Forall2_map_map2. intros v Hv. destruct (Hb v Hv) as [Hv0 Hv1].
  pose proof (proj1 (Hb hi Hhi)) as Hlh.
  unfold rescale. rewrite ContrastFacts.ptp2_ordered by lra.
  cbn [subtract].
  assert (S1 : same_float (fl (v - lo)) (fl (v - m)))
    by (apply (ContrastFacts.fl_same fl Hfl); lra).
  assert (S2 : same_float (fl (hi - lo)) (fl (M - m)))
    by (apply (ContrastFacts.fl_same fl Hfl); lra).
  apply (true_divide_same fl _ _ _ _ Hfl); [|exact S2].
  assert (S3 : same_float (clip (fl (v - m)) (Finite 0) (fl (M - m)))
                          (fl (v - m))).
  { apply clip_inside.
    - destruct (ContrastFacts.fl_nonneg fl Hfl (v - m) ltac:(lra))
        as [->|(q & -> & Hq)]; [reflexivity|].
      now apply ContrastFacts.Qle_bool_true.
    - apply (fl_monotone fl Hfl). lra. }
  revert S1 S3.
  generalize (clip (fl (v - m)) (Finite 0) (fl (M - m))).
  intros c. destruct (fl (v - lo)), (fl (v - m)), c;
    cbn [same_float]; try contradiction; try (intros; exact I).
  intros H1 H2. lra.
Qed.

Lemma enhance_contrast_full_range_witness :
  exists scaled enhanced,
    scale_img exact [[2; 4]; [3; 6]] = Ok scaled /\
    enhance_contrast exact exact_percentile [[2; 4]; [3; 6]] (0, 100)
    = Ok enhanced /\
    Forall2 (Forall2 same_float) scaled enhanced.
Proof.
  apply (enhance_contrast_full_range exact exact_percentile
           [[2; 4]; [3; 6]] (Finite (6 - 2))
           (Finite (percentile [2; 4; 3; 6] 0))
           (Finite (percentile [2; 4; 3; 6] 100)) 2 6).
  - exact ContrastFacts.exact_rounding.
  - reflexivity.
  - reflexivity.
  - reflexivity.
  - reflexivity.
  - reflexivity.
  - eexists. split; reflexivity.
  - eexists. split; reflexivity.
Defined.

End ContrastMore.
